(** * bitraster: a shallow embedding of [bitraster.c]

    The viewer keeps its whole state in file-level globals; the embedding
    gathers them in one record and threads it through every function.
    C integers are mathematical integers with their wrap-around written out,
    the byte buffers are lists of integers, and everything that ends the
    process early (the [ERROR] macro, [usage]) or that C leaves undefined
    (an access outside an allocation, a division by zero, a second [free])
    is an explicit outcome of the [result] type. *)

From Stdlib Require Import ZArith Lia Bool Ascii.
From stdpp Require Import base list strings.

Local Open Scope Z_scope.

(** ** Machine integers *)

Module Machine.

Definition INT_MAX : Z := 2147483647.

(** Conversion to [size_t] (64-bit unsigned). *)
Definition to_size (z : Z) : Z := z mod 2 ^ 64.

(** Conversion to [int] (32-bit two's complement). *)
Definition to_int (z : Z) : Z := (z + 2 ^ 31) mod 2 ^ 32 - 2 ^ 31.

(** Conversion to [off_t] (64-bit two's complement). *)
Definition to_off (z : Z) : Z := (z + 2 ^ 63) mod 2 ^ 64 - 2 ^ 63.

(** Conversion to [uint8_t]. *)
Definition to_u8 (z : Z) : Z := z mod 256.

Definition is_int (z : Z) : Prop := - 2 ^ 31 <= z < 2 ^ 31.
Definition is_off (z : Z) : Prop := - 2 ^ 63 <= z < 2 ^ 63.
Definition is_size (z : Z) : Prop := 0 <= z < 2 ^ 64.
Definition is_byte (z : Z) : Prop := 0 <= z < 256.

End Machine.
Import Machine.

(** ** Outcomes *)

(** Why a call did not return. [Exited] is the process leaving through
    [exit]; the others are the undefined behaviours the model tracks. *)
Inductive abort : Type :=
  | Exited (code : Z) (msg : string)
  | OutOfBounds
  | DivisionByZero
  | DoubleFree.

Inductive result (A : Type) : Type :=
  | Ok (a : A)
  | Abort (why : abort).
Arguments Ok {A} a.
Arguments Abort {A} why.

#[global] Instance result_ret : MRet result := fun A a => Ok a.

#[global] Instance result_bind : MBind result := fun A B k r =>
  match r with
  | Ok a => k a
  | Abort why => Abort why
  end.

(** ** The globals *)

Inductive io_event : Type :=
  | Seek (pos : Z)
  | Read (count : Z).

Record state : Type := mkState {
  reverse_byte : Z;
  fd : Z;
  offset : Z;
  fd_size : Z;
  buffer : list Z;
  buffer_size : Z;
  buffer_offset : Z;
  buffer_width : Z;
  last_term_w : Z;
  last_term_h : Z;
  col_offset : Z;
  delay_ms : Z;
  life : Z;
  life_buffer : option (list Z);
  (** Ghost field: the calls made on the data source, latest first. *)
  io_log : list io_event
}.

(** The values of the static initialisers. *)
Definition initial : state :=
  {| reverse_byte := 0; fd := -1; offset := 0; fd_size := 0;
     buffer := []; buffer_size := 0; buffer_offset := -1; buffer_width := 0;
     last_term_w := 0; last_term_h := 0; col_offset := 0; delay_ms := 250;
     life := 0; life_buffer := None; io_log := [] |}.

(** ** Memory *)

(** [buf[i]] as an rvalue; outside the allocation the read is undefined. *)
Definition load (buf : list Z) (i : Z) : result Z :=
  if i <? 0 then Abort OutOfBounds else
  match buf !! Z.to_nat i with
  | Some b => Ok b
  | None => Abort OutOfBounds
  end.

(** [buf[i] = v]; outside the allocation the write is undefined. *)
Definition store (buf : list Z) (i : Z) (v : Z) : result (list Z) :=
  if (0 <=? i) && (i <? Z.of_nat (length buf))
  then Ok (<[Z.to_nat i := v]> buf)
  else Abort OutOfBounds.

(** ** getbit and setbit *)

(** The linear bit index, computed in [size_t] as the source does. *)
Definition bit_index (st : state) (x y : Z) : Z :=
  to_size (to_size y * buffer_width st + to_size x).

Definition byte_shift (st : state) (index : Z) : Z :=
  if negb (reverse_byte st =? 0)
  then to_u8 (index mod 8)
  else to_u8 (7 - index mod 8).

Definition getbit (st : state) (buf : list Z) (x y : Z) : result Z :=
  if (x <? 0) || (buffer_width st <=? to_size x) || (y <? 0) then Ok 0
  else
    let byte_index := bit_index st x y / 8 in
    if buffer_size st <=? byte_index then Ok 0
    else
      b ← load buf byte_index;
      Ok (Z.land (Z.shiftr b (byte_shift st (bit_index st x y))) 1).

Definition setbit (st : state) (buf : list Z) (x y : Z) : result (list Z) :=
  if (x <? 0) || (buffer_width st <? to_size x) || (y <? 0) then Ok buf
  else
    let byte_index := bit_index st x y / 8 in
    if buffer_size st <? byte_index then Ok buf
    else
      b ← load buf byte_index;
      store buf byte_index
        (to_u8 (Z.lor b (Z.shiftl 1 (byte_shift st (bit_index st x y))))).

(** ** The glyph table *)

Definition sextant_chars : list Z :=
  [ 0x00020; 0x1FB1E; 0x1FB0F; 0x1FB2D; 0x1FB07; 0x1FB26; 0x1FB16; 0x1FB35;
    0x1FB03; 0x1FB22; 0x1FB13; 0x1FB31; 0x1FB0B; 0x1FB29; 0x1FB1A; 0x1FB39;
    0x1FB01; 0x1FB20; 0x1FB11; 0x1FB2F; 0x1FB09; 0x02590; 0x1FB18; 0x1FB37;
    0x1FB05; 0x1FB24; 0x1FB14; 0x1FB33; 0x1FB0D; 0x1FB2B; 0x1FB1C; 0x1FB3B;
    0x1FB00; 0x1FB1F; 0x1FB10; 0x1FB2E; 0x1FB08; 0x1FB27; 0x1FB17; 0x1FB36;
    0x1FB04; 0x1FB23; 0x0258C; 0x1FB32; 0x1FB0C; 0x1FB2A; 0x1FB1B; 0x1FB3A;
    0x1FB02; 0x1FB21; 0x1FB12; 0x1FB30; 0x1FB0A; 0x1FB28; 0x1FB19; 0x1FB38;
    0x1FB06; 0x1FB25; 0x1FB15; 0x1FB34; 0x1FB0E; 0x1FB2C; 0x1FB1D; 0x02588 ].

(** [sextant_chars[index]]. *)
Definition glyph (index : Z) : result Z := load sextant_chars index.

(** ** The renderer's glyph index *)

(** [index = (index<<1) | bit] on a [uint8_t]. *)
Definition push_bit (index bit : Z) : Z := to_u8 (Z.lor (Z.shiftl index 1) bit).

(** The six [getbit] calls of one character cell, top-left first. *)
Definition cell_index (st : state) (buf : list Z) (off_x char_y : Z) : result Z :=
  let index := 0 in
  b ← getbit st buf off_x (to_int (char_y * 3));
  let index := push_bit index b in
  b ← getbit st buf (to_int (off_x + 1)) (to_int (char_y * 3));
  let index := push_bit index b in
  b ← getbit st buf off_x (to_int (to_int (char_y * 3) + 1));
  let index := push_bit index b in
  b ← getbit st buf (to_int (off_x + 1)) (to_int (to_int (char_y * 3) + 1));
  let index := push_bit index b in
  b ← getbit st buf off_x (to_int (to_int (char_y * 3) + 2));
  let index := push_bit index b in
  b ← getbit st buf (to_int (off_x + 1)) (to_int (to_int (char_y * 3) + 2));
  let index := push_bit index b in
  Ok index.

(** One character cell of [update]: the index, then the table lookup. *)
Definition render_cell (st : state) (char_y char_x : Z) : result Z :=
  let off_x := to_int (col_offset st + to_int (char_x * 2)) in
  index ← cell_index st (buffer st) off_x char_y;
  glyph index.

(** The two nested loops of [update]; a frame is the list of its rows, each
    the list of the codepoints handed to [utf8_encode]. *)
Definition render (st : state) (term_h disp_w : Z) : result (list (list Z)) :=
  mapM (fun char_y => mapM (render_cell st char_y) (seqZ 0 disp_w))
       (seqZ 0 term_h).

(** ** update *)

(** What [update] gets from outside the program: the terminal size reported
    by [ioctl] ([None] when it fails), whether [realloc] succeeds, and the
    bytes of the open file. *)
Record env : Type := mkEnv {
  term : option (Z * Z);
  realloc_ok : bool;
  file : list Z
}.

Definition ERROR {A : Type} (msg : string) : result A := Abort (Exited (-1) msg).

Definition term_size (e : env) : result (Z * Z) :=
  match term e with
  | Some size => Ok size
  | None => ERROR "Error geting terminal size"
  end.

(** The test that guards the refetch. *)
Definition stale (st : state) (term_w term_h : Z) : bool :=
  negb (term_h =? last_term_h st) || negb (term_w =? last_term_w st)
  || negb (buffer_offset st =? offset st).

(** [buffer_width] after the first two statements of the guarded block. *)
Definition settle_width (st : state) (term_w : Z) : Z :=
  let width := if buffer_width st =? 0 then to_size (to_int (term_w * 2))
               else buffer_width st in
  if negb (width mod 8 =? 0) then width - width mod 8 else width.

(** [new_buffer_size], up to the cap by [fd_size]. *)
Definition window_size (st : state) (width term_h : Z) : Z :=
  let new_buffer_size := to_size (to_size (to_int (term_h * 3)) * width) in
  let new_buffer_size :=
    if negb (new_buffer_size mod 8 =? 0) then new_buffer_size / 8 + 1
    else new_buffer_size / 8 in
  if to_size (fd_size st) <? new_buffer_size then to_size (fd_size st)
  else new_buffer_size.

(** The buffer before anything is allocated: the [NULL] of the
    initialiser, the empty list here. *)
Definition is_null (buf : list Z) : bool :=
  match buf with
  | [] => true
  | _ :: _ => false
  end.

(** [realloc(buffer, n)]: the old contents up to [n], the rest unspecified
    (zero here; [read] overwrites it before any use). Asked for no bytes
    on a buffer that is allocated, the [realloc] of glibc releases the
    buffer and returns [NULL]. *)
Definition realloc (e : env) (buf : list Z) (n : Z) : option (list Z) :=
  if (n =? 0) && negb (is_null buf) then None
  else if realloc_ok e
  then Some (take (Z.to_nat n) buf ++ replicate (Z.to_nat n - length buf)%nat 0)
  else None.

(** [free(buffer)] on the error path, after [realloc(buffer, n)] returned
    [NULL]: where [realloc] has released the buffer already, this frees
    it a second time. *)
Definition free_stale (buf : list Z) (n : Z) : result unit :=
  if (n =? 0) && negb (is_null buf) then Abort DoubleFree else Ok ().

(** The clamp of [offset] before the seek. *)
Definition clamp_offset (st : state) (size : Z) : Z :=
  let off :=
    if to_size (fd_size st) <? to_size (to_size (offset st) + size)
    then to_off (to_size (to_size (fd_size st) - size))
    else offset st in
  if off <? 0 then 0 else off.

(** [read(fd, buffer, n)] on a regular file positioned at [pos]. *)
Definition read_file (e : env) (pos n : Z) : list Z :=
  take (Z.to_nat n) (drop (Z.to_nat pos) (file e)).

(** The guarded block: resize, clamp, seek and read. *)
Definition fetch (e : env) (st : state) (term_w term_h : Z) : result state :=
  let width := settle_width st term_w in
  let new_buffer_size := window_size st width term_h in
  '(buf, size) ←
    (if negb (new_buffer_size =? buffer_size st) then
       match realloc e (buffer st) new_buffer_size with
       | Some tmp => Ok (tmp, new_buffer_size)
       | None =>
           _ ← free_stale (buffer st) new_buffer_size;
           ERROR "Memory allocation error"
       end
     else Ok (buffer st, buffer_size st));
  let off := clamp_offset st size in
  let log := Seek off :: io_log st in
  if off <? 0 then ERROR "File seek error"
  else
    let data := read_file e off size in
    let log := Read size :: log in
    if negb (Z.of_nat (length data) =? to_off size) then ERROR "File read error"
    else
      Ok {| reverse_byte := reverse_byte st; fd := fd st; offset := off;
            fd_size := fd_size st;
            buffer := data ++ drop (length data) buf;
            buffer_size := size; buffer_offset := off; buffer_width := width;
            last_term_w := term_w; last_term_h := term_h;
            col_offset := col_offset st; delay_ms := delay_ms st;
            life := life st; life_buffer := life_buffer st; io_log := log |}.

(** The clamp of [col_offset] after the guarded block. *)
Definition clamp_col (st : state) (term_w : Z) : Z :=
  let col :=
    if buffer_width st <? to_size (to_int (col_offset st + to_int (term_w * 2)))
    then to_int (to_size (buffer_width st - to_size (to_int (term_w * 2))))
    else col_offset st in
  if col <? 0 then 0 else col.

Definition set_col_offset (st : state) (col : Z) : state :=
  {| reverse_byte := reverse_byte st; fd := fd st; offset := offset st;
     fd_size := fd_size st; buffer := buffer st;
     buffer_size := buffer_size st; buffer_offset := buffer_offset st;
     buffer_width := buffer_width st; last_term_w := last_term_w st;
     last_term_h := last_term_h st; col_offset := col;
     delay_ms := delay_ms st; life := life st;
     life_buffer := life_buffer st; io_log := io_log st |}.

(** [update]: the new globals and the frame written to the terminal. *)
Definition update (e : env) (st : state) : result (state * list (list Z)) :=
  '(term_w, term_h) ← term_size e;
  st ← (if stale st term_w term_h then fetch e st term_w term_h else Ok st);
  let st := set_col_offset st (clamp_col st term_w) in
  let disp_w := to_int (buffer_width st / 2) in
  let disp_w := if term_w <? disp_w then term_w else disp_w in
  frame ← render st term_h disp_w;
  Ok (st, frame).

(** ** step_life *)

(** [for( i=start; ...; i++ )] with [n] iterations left. The counters of
    [step_life] are [int]s compared with [h] and with [buffer_width]; as
    long as both bounds fit an [int] the trip counts are the bounds. *)
Fixpoint for_loop {A : Type} (n : nat) (i : Z) (body : Z -> A -> result A)
    (a : A) : result A :=
  match n with
  | O => Ok a
  | S n' => a' ← body i a; for_loop n' (i + 1) body a'
  end.

(** [malloc(n)]: contents unspecified (zero here; [memset] follows). *)
Definition malloc (n : Z) : list Z := replicate (Z.to_nat n) 0.

Definition memset (buf : list Z) (v n : Z) : result (list Z) :=
  if Z.of_nat (length buf) <? n then Abort OutOfBounds
  else Ok (replicate (Z.to_nat n) (to_u8 v) ++ drop (Z.to_nat n) buf).

Definition memcpy (dst src : list Z) (n : Z) : result (list Z) :=
  if (Z.of_nat (length dst) <? n) || (Z.of_nat (length src) <? n)
  then Abort OutOfBounds
  else Ok (take (Z.to_nat n) src ++ drop (Z.to_nat n) dst).

(** The eight reads around [(x, y)], summed in the source's order. *)
Definition neighbours (st : state) (buf : list Z) (x y : Z) : result Z :=
  let count := 0 in
  b ← getbit st buf (x - 1) (y - 1); let count := count + b in
  b ← getbit st buf x (y - 1); let count := count + b in
  b ← getbit st buf (x + 1) (y - 1); let count := count + b in
  b ← getbit st buf (x - 1) y; let count := count + b in
  b ← getbit st buf (x + 1) y; let count := count + b in
  b ← getbit st buf (x - 1) (y + 1); let count := count + b in
  b ← getbit st buf x (y + 1); let count := count + b in
  b ← getbit st buf (x + 1) (y + 1); let count := count + b in
  Ok count.

(** The body of the inner loop. *)
Definition life_cell (st : state) (x y : Z) (scratch : list Z)
    : result (list Z) :=
  count ← neighbours st (buffer st) x y;
  alive ← getbit st (buffer st) x y;
  if negb (alive =? 0) then
    if (count =? 2) || (count =? 3) then setbit st scratch x y else Ok scratch
  else
    if count =? 3 then setbit st scratch x y else Ok scratch.

Definition set_buffers (st : state) (buf scratch : list Z) : state :=
  {| reverse_byte := reverse_byte st; fd := fd st; offset := offset st;
     fd_size := fd_size st; buffer := buf;
     buffer_size := buffer_size st; buffer_offset := buffer_offset st;
     buffer_width := buffer_width st; last_term_w := last_term_w st;
     last_term_h := last_term_h st; col_offset := col_offset st;
     delay_ms := delay_ms st; life := life st;
     life_buffer := Some scratch; io_log := io_log st |}.

Definition step_life (st : state) : result state :=
  if buffer_width st =? 0 then Abort DivisionByZero
  else
    let h := to_int (to_size (buffer_size st * 8) / buffer_width st) in
    let scratch := match life_buffer st with
                   | Some old => old
                   | None => malloc (buffer_size st)
                   end in
    scratch ← memset scratch 0 (buffer_size st);
    scratch ←
      for_loop (Z.to_nat h) 0
        (fun y => for_loop (Z.to_nat (buffer_width st)) 0
                    (fun x => life_cell st x y))
        scratch;
    buf ← memcpy (buffer st) scratch (buffer_size st);
    Ok (set_buffers st buf scratch).

(** [n] generations. *)
Fixpoint steps (n : nat) (st : state) : result state :=
  match n with
  | O => Ok st
  | S n' => st' ← step_life st; steps n' st'
  end.

(** ** main *)

(** The C library's [strtoul(s, 0, 0)]: optional blanks and sign, the base
    taken from the prefix, the longest run of digits; the value and whether
    [errno] was set ([ERANGE], with the value [ULONG_MAX]). *)
Module Libc.

Definition ULONG_MAX : Z := 2 ^ 64 - 1.

Definition code (c : ascii) : Z := Z.of_nat (nat_of_ascii c).

Definition isspace (c : ascii) : bool :=
  (code c =? 32) || ((9 <=? code c) && (code c <=? 13)).

Definition digit_value (c : ascii) : option Z :=
  let n := code c in
  if (48 <=? n) && (n <=? 57) then Some (n - 48)
  else if (97 <=? n) && (n <=? 122) then Some (n - 87)
  else if (65 <=? n) && (n <=? 90) then Some (n - 55)
  else None.

Fixpoint skip_space (s : list ascii) : list ascii :=
  match s with
  | c :: s' => if isspace c then skip_space s' else s
  | [] => []
  end.

Fixpoint digits (base : Z) (s : list ascii) (acc : Z) : Z :=
  match s with
  | c :: s' =>
      match digit_value c with
      | Some d => if d <? base then digits base s' (acc * base + d) else acc
      | None => acc
      end
  | [] => acc
  end.

Definition is_digit (base : Z) (c : ascii) : bool :=
  match digit_value c with
  | Some d => d <? base
  | None => false
  end.

Definition unsigned_value (s : list ascii) : Z :=
  match s with
  | "0"%char :: x :: h :: s' =>
      if ((code x =? 120) || (code x =? 88)) && is_digit 16 h
      then digits 16 (h :: s') 0
      else digits 8 (x :: h :: s') 0
  | "0"%char :: s' => digits 8 s' 0
  | _ => digits 10 s 0
  end.

Definition strtoul (s : string) : Z * bool :=
  let s := skip_space (String.list_ascii_of_string s) in
  let '(negative, s) :=
    match s with
    | "-"%char :: s' => (true, s')
    | "+"%char :: s' => (false, s')
    | _ => (false, s)
    end in
  let v := unsigned_value s in
  if ULONG_MAX <? v then (ULONG_MAX, true)
  else (if negative then to_size (- v) else v, false).

(** [status & 0377], what the parent sees of [exit(status)]. *)
Definition exit_status (status : Z) : Z := Z.land status 255.

End Libc.

(** How [main] ends its argument loop: the process has left through [exit],
    or one of the two viewers is entered with the globals as set. Either
    way, what was written to the error stream comes along. *)
Inductive started : Type :=
  | Exit (status : Z) (stderr : list string)
  | Stream (st : state) (stderr : list string)
  | Run (st : state) (stderr : list string).

(** The part of [cmd] after its last slash. *)
Definition cmd_filename (cmd : string) : string :=
  String.string_of_list_ascii
    (fold_left (fun acc c => if Ascii.eqb c "/" then [] else acc ++ [c])
               (String.list_ascii_of_string cmd) []).

Definition usage (cmd : string) (stderr : list string) : started :=
  Exit 0
    (stderr ++
     [ "Usage:";
       String.append (cmd_filename cmd)
         " [-h] [-r] [-wWidth] [-oOffset] [-dDelayMS] [path]";
       "";
       "  -w : Bit width of buffer (controls horizontal scroll)";
       "       Width must be a multple of 8 bits.";
       "  -o : Initial Byte offset into file";
       "  -d : Delay, in millisecons, or any automatic updates";
       "";
       "If path is not provided, data is streamed from stdin, -w and -o are ignored" ]%string).

(** The globals [main] assigns. *)
Definition set_args (st : state) (reverse width off delay desc size : Z) : state :=
  {| reverse_byte := reverse; fd := desc; offset := off;
     fd_size := size; buffer := buffer st;
     buffer_size := buffer_size st; buffer_offset := buffer_offset st;
     buffer_width := width; last_term_w := last_term_w st;
     last_term_h := last_term_h st; col_offset := col_offset st;
     delay_ms := delay; life := life st;
     life_buffer := life_buffer st; io_log := io_log st |}.

(** The argument after its two-character option name. *)
Definition option_value (arg : string) : string :=
  String.substring 2 (String.length arg - 2) arg.

(** The [while] loop of [main] over [argv[1..]], then the choice of viewer.
    [open_size path] is [None] when [open] fails, [Some None] when the
    [lseek] to the end fails, and [Some (Some n)] for a file of [n] bytes.
    The error stream is kept line by line. Every cause ends in two
    newlines, which leave an empty line before the usage text; of a cause
    that goes on with the text of [strerror], which is the C library's,
    the line holds the words before the colon. *)
Fixpoint main_loop (open_size : string -> option (option Z)) (cmd : string)
    (args : list string) (st : state) (stderr : list string) : started :=
  match args with
  | [] => if fd st <? 0 then Stream st stderr else Run st stderr
  | arg :: rest =>
      if String.eqb arg "-h" then usage cmd stderr
      else if String.eqb arg "-r" then
        main_loop open_size cmd rest
          (set_args st 1 (buffer_width st) (offset st) (delay_ms st)
                    (fd st) (fd_size st)) stderr
      else if String.prefix "-w" arg then
        let '(width, errno) := Libc.strtoul (option_value arg) in
        if errno then usage cmd (stderr ++ ["Width error"; ""]%string)
        else if negb (width mod 8 =? 0) then
          usage cmd (stderr ++ ["Width is not even multiple of 8"; ""]%string)
        else
          main_loop open_size cmd rest
            (set_args st (reverse_byte st) width (offset st) (delay_ms st)
                      (fd st) (fd_size st)) stderr
      else if String.prefix "-o" arg then
        let '(value, errno) := Libc.strtoul (option_value arg) in
        let off := to_off value in
        if errno then usage cmd (stderr ++ ["Offset error"; ""]%string)
        else if off <? 0 then usage cmd (stderr ++ ["Offset negative"; ""]%string)
        else
          main_loop open_size cmd rest
            (set_args st (reverse_byte st) (buffer_width st) off (delay_ms st)
                      (fd st) (fd_size st)) stderr
      else if String.prefix "-d" arg then
        let '(value, errno) := Libc.strtoul (option_value arg) in
        if errno then usage cmd (stderr ++ ["Delay error"; ""]%string)
        else
          main_loop open_size cmd rest
            (set_args st (reverse_byte st) (buffer_width st) (offset st)
                      (to_int value) (fd st) (fd_size st)) stderr
      else if fd st <? 0 then
        match open_size arg with
        | None => usage cmd (stderr ++ ["Path error"; ""]%string)
        | Some None => usage cmd (stderr ++ ["File size error"; ""]%string)
        | Some (Some size) =>
            main_loop open_size cmd rest
              (set_args st (reverse_byte st) (buffer_width st) (offset st)
                        (delay_ms st) 3 size) stderr
        end
      else usage cmd stderr
  end.

Definition main (open_size : string -> option (option Z)) (argv : list string)
    : started :=
  match argv with
  | cmd :: args => main_loop open_size cmd args initial []
  | [] => Stream initial []
  end.

(** ** run *)

Definition DIRUP : Z := 0x41.
Definition DIRDN : Z := 0x42.
Definition DIRRT : Z := 0x43.
Definition DIRLT : Z := 0x44.

(** What one [read(STDIN_FILENO, &input, sizeof(input))] gave: a negative
    return, with [errno] equal to [EAGAIN] or not, or the bytes read (none
    to eight). *)
Inductive stdin_read : Type :=
  | ReadFailed (eagain : bool)
  | ReadBytes (input : list Z).

(** [input[i]]; the array is cleared before each read. *)
Definition input_byte (input : list Z) (i : nat) : Z := default 0 (input !! i).

Definition set_view (st : state) (off col : Z) : state :=
  {| reverse_byte := reverse_byte st; fd := fd st; offset := off;
     fd_size := fd_size st; buffer := buffer st;
     buffer_size := buffer_size st; buffer_offset := buffer_offset st;
     buffer_width := buffer_width st; last_term_w := last_term_w st;
     last_term_h := last_term_h st; col_offset := col;
     delay_ms := delay_ms st; life := life st;
     life_buffer := life_buffer st; io_log := io_log st |}.

Definition set_life (st : state) (flag : Z) (scratch : option (list Z))
    (cached : Z) : state :=
  {| reverse_byte := reverse_byte st; fd := fd st; offset := offset st;
     fd_size := fd_size st; buffer := buffer st;
     buffer_size := buffer_size st; buffer_offset := cached;
     buffer_width := buffer_width st; last_term_w := last_term_w st;
     last_term_h := last_term_h st; col_offset := col_offset st;
     delay_ms := delay_ms st; life := flag;
     life_buffer := scratch; io_log := io_log st |}.

(** [offset = offset + n] and [offset = offset - n] for a [size_t] [n]: the
    sum is formed in [size_t] and stored in an [off_t]. *)
Definition offset_plus (st : state) (n : Z) : Z :=
  to_off (to_size (to_size (offset st) + n)).

Definition offset_minus (st : state) (n : Z) : Z :=
  to_off (to_size (to_size (offset st) - n)).

(** How the input tests of one turn of the loop end: with [break], with
    [continue] (after the info line, or with life armed), or by falling
    through to the redraw. *)
Inductive keyed : Type :=
  | Leave
  | Again (st : state) (info : option (Z * Z))
  | Redraw (st : state).

Definition keypress (st : state) (input : list Z) : keyed :=
  let inputlen := Z.of_nat (length input) in
  let c0 := input_byte input 0 in
  let c1 := input_byte input 1 in
  let c2 := input_byte input 2 in
  let c3 := input_byte input 3 in
  if inputlen =? 1 then
    if c0 =? 0x1b then Leave
    else if (c0 =? 113) || (c0 =? 81) then Leave
    else if (c0 =? 105) || (c0 =? 73) then
      Again st (Some (offset st, col_offset st))
    else if (c0 =? 104) || (c0 =? 72) then
      Redraw (set_view st (offset st) (to_int (col_offset st - 1)))
    else if (c0 =? 106) || (c0 =? 74) then
      Redraw (set_view st (offset_plus st (buffer_width st / 8)) (col_offset st))
    else if (c0 =? 107) || (c0 =? 75) then
      Redraw (set_view st (offset_minus st (buffer_width st / 8)) (col_offset st))
    else if (c0 =? 108) || (c0 =? 76) then
      Redraw (set_view st (offset st) (to_int (col_offset st + 1)))
    else if (c0 =? 114) || (c0 =? 82) then
      Again (set_life st 1 (life_buffer st) (buffer_offset st)) None
    else Redraw st
  else if inputlen =? 3 then
    if (c0 =? 0x1B) && ((c1 =? 0x5B) || (c1 =? 0x4F)) then
      if c2 =? DIRUP then
        Redraw (set_view st (offset_minus st (buffer_width st / 8)) (col_offset st))
      else if c2 =? DIRDN then
        Redraw (set_view st (offset_plus st (buffer_width st / 8)) (col_offset st))
      else if c2 =? DIRRT then
        Redraw (set_view st (offset st) (to_int (col_offset st + 1)))
      else if c2 =? DIRLT then
        Redraw (set_view st (offset st) (to_int (col_offset st - 1)))
      else if c2 =? 0x46 then Redraw (set_view st (fd_size st) (col_offset st))
      else if c2 =? 0x48 then Redraw (set_view st 0 (col_offset st))
      else Redraw st
    else Redraw st
  else if inputlen =? 4 then
    if (c0 =? 0x1B) && (c1 =? 0x5B) && (c3 =? 0x7E) then
      if c2 =? 0x35 then
        Redraw (set_view st (offset_minus st (buffer_size st)) (col_offset st))
      else if c2 =? 0x36 then
        Redraw (set_view st (offset_plus st (buffer_size st)) (col_offset st))
      else Redraw st
    else Redraw st
  else Redraw st.

Inductive control : Type := Break | Continue.

(** What a turn of the loop wrote to the terminal. *)
Inductive shown : Type :=
  | Quiet
  | Info (off col : Z)
  | Frame (rows : list (list Z)).

(** The [if( life )] block before the redraw. *)
Definition disarm (st : state) : state :=
  if negb (life st =? 0) then set_life st 0 None (-1) else st.

(** One turn of the [for(;;)] of [run] (the sleeps left out). *)
Definition iteration (e : env) (st : state) (r : stdin_read)
    : result (control * state * shown) :=
  match r with
  | ReadFailed eagain =>
      if negb eagain then Ok (Break, st, Quiet)
      else if negb (life st =? 0) then
        st ← step_life st;
        '(st, frame) ← update e st;
        Ok (Continue, st, Frame frame)
      else Ok (Continue, st, Quiet)
  | ReadBytes input =>
      match keypress st input with
      | Leave => Ok (Break, st, Quiet)
      | Again st None => Ok (Continue, st, Quiet)
      | Again st (Some (off, col)) => Ok (Continue, st, Info off col)
      | Redraw st =>
          '(st, frame) ← update (e) (disarm st);
          Ok (Continue, st, Frame frame)
      end
  end.

(** The loop over the reads that happen, each with the environment of its
    turn; [true] when the loop was left. *)
Fixpoint run_loop (turns : list (env * stdin_read)) (st : state)
    : result (state * list shown * bool) :=
  match turns with
  | [] => Ok (st, [], false)
  | (e, r) :: turns' =>
      '(ctl, st, out) ← iteration e st r;
      match ctl with
      | Break => Ok (st, [out], true)
      | Continue =>
          '(st, outs, gone) ← run_loop turns' st;
          Ok (st, out :: outs, gone)
      end
  end.

(** ** The terminal mode *)

(** The values of [<fcntl.h>] and [<termios.h>] the two functions use are
    not part of the program; they are parameters here. [fcntl_ok] and
    [tcattr_ok] say whether the calls on standard input succeed. *)
Record tty : Type := mkTty {
  fl_flags : Z;
  c_lflag : Z;
  fcntl_ok : bool;
  tcattr_ok : bool
}.

Definition TERM_ERROR {A : Type} (msg : string) : result A :=
  Abort (Exited (-1) msg).

Definition term_setup (O_NONBLOCK ICANON ECHO : Z) (t : tty) : result tty :=
  if negb (fcntl_ok t) then TERM_ERROR "Error getting STDIN flags"
  else
    let flags := Z.lor (fl_flags t) O_NONBLOCK in
    if negb (tcattr_ok t) then TERM_ERROR "Error getting termial flags"
    else
      let lflag := Z.land (c_lflag t) (Z.lnot ICANON) in
      let lflag := Z.land lflag (Z.lnot ECHO) in
      Ok {| fl_flags := flags; c_lflag := lflag;
            fcntl_ok := fcntl_ok t; tcattr_ok := tcattr_ok t |}.

Definition term_reset (O_NONBLOCK ICANON ECHO : Z) (t : tty) : result tty :=
  if negb (fcntl_ok t) then TERM_ERROR "Error getting STDIN flags"
  else
    let flags := Z.land (fl_flags t) (Z.lnot O_NONBLOCK) in
    if negb (tcattr_ok t) then TERM_ERROR "Error getting termial flags"
    else
      let lflag := Z.lor (c_lflag t) ICANON in
      let lflag := Z.lor lflag ECHO in
      Ok {| fl_flags := flags; c_lflag := lflag;
            fcntl_ok := fcntl_ok t; tcattr_ok := tcattr_ok t |}.

(** [run] from [term_setup] to [term_reset], over the reads that happen.
    The first frame comes from the [update] before the loop. When the
    reads run out before the loop is left, the terminal is still in the
    mode [term_setup] gave it. *)
Definition run (O_NONBLOCK ICANON ECHO : Z) (t : tty) (e : env)
    (turns : list (env * stdin_read)) (st : state)
    : result (tty * state * list shown * bool) :=
  t ← term_setup O_NONBLOCK ICANON ECHO t;
  '(st, frame) ← update e st;
  '(st, outs, gone) ← run_loop turns st;
  if gone : bool then
    t ← term_reset O_NONBLOCK ICANON ECHO t;
    Ok (t, st, Frame frame :: outs, true)
  else Ok (t, st, Frame frame :: outs, false).

(** ** stream *)

Definition set_window (st : state) (buf : list Z) (size width : Z) : state :=
  {| reverse_byte := reverse_byte st; fd := fd st; offset := offset st;
     fd_size := fd_size st; buffer := buf;
     buffer_size := size; buffer_offset := buffer_offset st;
     buffer_width := width; last_term_w := last_term_w st;
     last_term_h := last_term_h st; col_offset := col_offset st;
     delay_ms := delay_ms st; life := life st;
     life_buffer := life_buffer st; io_log := io_log st |}.

(** The six [getbit] calls of one character of the streamed line. *)
Definition stream_index (st : state) (buf : list Z) (char_x : Z) : result Z :=
  let index := 0 in
  b ← getbit st buf (to_int (2 * char_x)) 0;
  let index := push_bit index b in
  b ← getbit st buf (to_int (to_int (2 * char_x) + 1)) 0;
  let index := push_bit index b in
  b ← getbit st buf (to_int (2 * char_x)) 1;
  let index := push_bit index b in
  b ← getbit st buf (to_int (to_int (2 * char_x) + 1)) 1;
  let index := push_bit index b in
  b ← getbit st buf (to_int (2 * char_x)) 2;
  let index := push_bit index b in
  b ← getbit st buf (to_int (to_int (2 * char_x) + 1)) 2;
  let index := push_bit index b in
  Ok index.

Definition stream_cell (st : state) (buf : list Z) (char_x : Z) : result Z :=
  index ← stream_index st buf char_x;
  glyph index.

(** What the kernel makes of one [read(STDIN_FILENO, buffer, buffer_size)]:
    it refuses (a negative return), or it hands over bytes: as many as are
    [ready] when the read is served, never more than were asked for nor
    than the input still holds. A pipe or a terminal hands over what it
    has, which may be fewer than were asked for while more are to come. *)
Inductive served : Type :=
  | Refused
  | Handed (ready : nat).

(** The bytes a read for [size] bytes stores, and the value it returns. *)
Definition read_stdin (k : served) (stdin : list Z) (size : Z) : list Z * Z :=
  match k with
  | Refused => ([], -1)
  | Handed ready =>
      let data := take (Z.to_nat size `min` ready) stdin in
      (data, Z.of_nat (length data))
  end.

(** One turn of the [for(;;)] of [stream] on what is left of standard
    input, [held] telling whether an earlier turn has left [buffer]
    allocated (the first [realloc], of the [NULL] buffer, is a [malloc],
    which returns a pointer also for no bytes). [None] when the read does
    not return [buffer_size] and [stream] returns, else the globals, the
    line printed and the input left. *)
Definition stream_line (e : env) (held : bool) (st : state) (stdin : list Z)
    (k : served) : result (option (state * list Z * list Z)) :=
  '(term_w, term_h) ← term_size e;
  let width := settle_width st term_w in
  let size := to_size (width / 8 * 3) in
  tmp ←
    (if held && (size =? 0) then Abort DoubleFree
     else
       match realloc e (buffer st) size with
       | Some tmp => Ok tmp
       | None =>
           _ ← free_stale (buffer st) size;
           Abort (Exited (-1) "Memory allocation error")
       end);
  let '(data, got) := read_stdin k stdin size in
  if negb (got =? to_off size) then Ok None
  else
    let buf := data ++ drop (length data) tmp in
    let st := set_window st buf size width in
    let disp_w := to_int (width / 2) in
    line ← mapM (stream_cell st buf) (seqZ 0 disp_w);
    Ok (Some (st, line, drop (length data) stdin)).

(** The loop, one environment and one read per turn; [true] when [stream]
    returned. *)
Fixpoint stream_loop (held : bool) (turns : list (env * served)) (st : state)
    (stdin : list Z) : result (list (list Z) * bool) :=
  match turns with
  | [] => Ok ([], false)
  | (e, k) :: turns' =>
      r ← stream_line e held st stdin k;
      match r with
      | None => Ok ([], true)
      | Some (st, line, rest) =>
          '(lines, returned) ← stream_loop true turns' st rest;
          Ok (line :: lines, returned)
      end
  end.

(** [stream] as [main] enters it. *)
Definition stream (turns : list (env * served)) (st : state) (stdin : list Z)
    : result (list (list Z) * bool) :=
  stream_loop (negb (is_null (buffer st))) turns st stdin.

(** ** Vocabulary of the statements *)

(** The linear bit index of the data model, without wrap-around. *)
Definition linear (st : state) (x y : Z) : Z := y * buffer_width st + x.

(** [(x, y)] names a bit of the buffer. *)
Definition in_range (st : state) (x y : Z) : Prop :=
  0 <= x < buffer_width st /\ 0 <= y /\ linear st x y / 8 < buffer_size st.

(** [buf] is an allocation of [buffer_size] bytes, and [size_t] can index
    each of its bits. *)
Definition sized (st : state) (buf : list Z) : Prop :=
  Z.of_nat (length buf) = buffer_size st /\ 8 * buffer_size st <= 2 ^ 64.

(** [buf] has at least the [buffer_size] bytes the bounds tests allow. *)
Definition allocated (st : state) (buf : list Z) : Prop :=
  buffer_size st <= Z.of_nat (length buf).

(** A viewer that has [buf] loaded, [width] bits to the row. *)
Definition showing (reverse width : Z) (buf : list Z) : state :=
  {| reverse_byte := reverse; fd := 3; offset := 0;
     fd_size := Z.of_nat (length buf); buffer := buf;
     buffer_size := Z.of_nat (length buf); buffer_offset := 0;
     buffer_width := width; last_term_w := 0; last_term_h := 0;
     col_offset := 0; delay_ms := 250; life := 0; life_buffer := None;
     io_log := [] |}.

(** Bit [k] of [buf] in the bit order of [st], as a pure function. *)
Definition peek (st : state) (buf : list Z) (k : Z) : Z :=
  Z.b2z (Z.testbit (default 0 (buf !! Z.to_nat (k / 8))) (byte_shift st k)).

(** [ceil(a / b)] for positive [b]. *)
Definition ceil_div (a b : Z) : Z := (a + b - 1) / b.

(** The environment did its part: the terminal answered with [ws_col] and
    [ws_row] (both [unsigned short]), [realloc] succeeded, and the file
    still has the [fd_size] bytes it had when [main] opened it. *)
Definition cooperative (e : env) (st : state) (term_w term_h : Z) : Prop :=
  term e = Some (term_w, term_h)
  /\ 0 <= term_w <= 65535 /\ 0 <= term_h <= 65535
  /\ realloc_ok e = true
  /\ Z.of_nat (length (file e)) = fd_size st.

(** The globals hold values of their C types, the file size is the
    non-negative one [main] accepted. *)
Definition representable (st : state) : Prop :=
  0 <= fd_size st < 2 ^ 63 /\ is_off (offset st)
  /\ is_int (col_offset st) /\ is_size (buffer_width st).

(** A terminal of [term_w] columns and [term_h] rows over a file of [n]
    zero bytes, and the globals as [main] leaves them for that file. *)
Definition zero_file (n : nat) (term_w term_h : Z) : env :=
  {| term := Some (term_w, term_h); realloc_ok := true;
     file := replicate n 0 |}.

Definition opened (width off : Z) (n : nat) : state :=
  set_args initial 0 width off 250 3 (Z.of_nat n).

(** The [h] of [step_life]: the full rows the buffer holds. *)
Definition rows (st : state) : Z := 8 * buffer_size st / buffer_width st.

(** The loop counters of [step_life] stay [int]s and the indices [size_t]s. *)
Definition grid_ok (st : state) : Prop :=
  0 < buffer_width st <= INT_MAX /\ 0 <= buffer_size st
  /\ 8 * buffer_size st < 2 ^ 63 /\ rows st <= INT_MAX.

(** A scratch buffer kept from an earlier step has the buffer's size. *)
Definition life_ready (st : state) : Prop :=
  match life_buffer st with
  | Some old => Z.of_nat (length old) = buffer_size st
  | None => True
  end.

(** What [getbit] answers at [(x, y)]. *)
Definition cell (st : state) (buf : list Z) (x y : Z) : Z :=
  match getbit st buf x y with
  | Ok b => b
  | Abort _ => 0
  end.

(** The state of a cell in the next generation, by the two tests of
    [life_cell]. *)
Definition next_cell (alive count : Z) : Z :=
  if negb (alive =? 0) then
    if (count =? 2) || (count =? 3) then 1 else 0
  else
    if count =? 3 then 1 else 0.

(** The next state of [(x, y)] when the cells are those of [board]. *)
Definition next_on (board : Z -> Z -> Z) (x y : Z) : Z :=
  next_cell (board x y)
    (board (x - 1) (y - 1) + board x (y - 1) + board (x + 1) (y - 1)
     + board (x - 1) y + board (x + 1) y
     + board (x - 1) (y + 1) + board x (y + 1) + board (x + 1) (y + 1)).

(** The grid [step_life] steps: the cell at [(x, y)] when it lies on one
    of the full rows of the buffer, and a dead cell anywhere else. *)
Definition on_grid (st : state) (buf : list Z) (x y : Z) : Z :=
  if (0 <=? x) && (x <? buffer_width st) && (0 <=? y) && (y <? rows st)
  then cell st buf x y
  else 0.

(** No bit is set behind the last full row. *)
Definition tail_clear (st : state) (buf : list Z) : Prop :=
  forall x, 0 <= x < buffer_width st -> cell st buf x (rows st) = 0.

(** The next state of the cell at linear index [k]. *)
Definition evolve (st : state) (buf : list Z) (k : Z) : Z :=
  next_on (cell st buf) (k mod buffer_width st) (k / buffer_width st).

(** Patterns: three cells in a row around [(x0, y0)], three in a column,
    one alone, none. *)
Definition horizontal (x0 y0 x y : Z) : bool :=
  (y =? y0) && (x0 - 1 <=? x) && (x <=? x0 + 1).

Definition vertical (x0 y0 x y : Z) : bool :=
  (x =? x0) && (y0 - 1 <=? y) && (y <=? y0 + 1).

Definition lone (x0 y0 x y : Z) : bool := (x =? x0) && (y =? y0).

Definition nothing (x y : Z) : bool := false.

(** [buf] holds exactly the live cells of [pattern]. *)
Definition shows (st : state) (buf : list Z) (pattern : Z -> Z -> bool) : Prop :=
  forall x y, in_range st x y -> getbit st buf x y = Ok (Z.b2z (pattern x y)).

(** The scratch buffer when the cells before linear index [k] are done. *)
Definition done_to (st : state) (k : Z) (scratch : list Z) : Prop :=
  sized st scratch /\ Forall is_byte scratch
  /\ forall j, 0 <= j < 8 * buffer_size st ->
       peek st scratch j = if j <? k then evolve st (buffer st) j else 0.

(** The codepoints of the Unicode block sextants, U+1FB00 to U+1FB3B. *)
Definition is_sextant (c : Z) : bool := (0x1FB00 <=? c) && (c <=? 0x1FB3B).

(** The bytes of the file that a window of [size] bytes at [pos] holds. *)
Definition file_window (e : env) (pos size : Z) : list Z :=
  take (Z.to_nat size) (drop (Z.to_nat pos) (file e)).

(** The number a cell's six bits spell, top-left first. *)
Definition six_bits (board : Z -> Z -> Z) (x y : Z) : Z :=
  32 * board x y + 16 * board (x + 1) y
  + 8 * board x (y + 1) + 4 * board (x + 1) (y + 1)
  + 2 * board x (y + 2) + board (x + 1) (y + 2).

(** A terminal over a file whose byte at position [i] is [i]. *)
Definition numbered_file (n term_w term_h : Z) : env :=
  {| term := Some (term_w, term_h); realloc_ok := true; file := seqZ 0 n |}.

(** The column that sits at the other end of the same group of eight. *)
Definition mirror (x : Z) : Z := x - x mod 8 + (7 - x mod 8).

(** The byte and the mask [setbit] means to write, when its tests pass. *)
Definition target (st : state) (x y : Z) : option (Z * Z) :=
  if (x <? 0) || (buffer_width st <? to_size x) || (y <? 0) then None
  else if buffer_size st <? bit_index st x y / 8 then None
  else Some (bit_index st x y / 8,
             Z.shiftl 1 (byte_shift st (bit_index st x y))).

(** [byte |= mask] on a [uint8_t]. *)
Definition or_mask (mask byte : Z) : Z := to_u8 (Z.lor byte mask).

(** Four live cells in a square, [(x0, y0)] its top-left corner. *)
Definition block (x0 y0 x y : Z) : bool :=
  (x0 <=? x) && (x <=? x0 + 1) && (y0 <=? y) && (y <=? y0 + 1).

(** A viewer in life mode over [buf], as [run] has it after a redraw on a
    terminal of [term_w] by [term_h] and the key that arms life. *)
Definition living (width term_w term_h : Z) (buf : list Z) (n : nat) : state :=
  {| reverse_byte := 0; fd := 3; offset := 0; fd_size := Z.of_nat n;
     buffer := buf; buffer_size := Z.of_nat (length buf); buffer_offset := 0;
     buffer_width := width; last_term_w := term_w; last_term_h := term_h;
     col_offset := 0; delay_ms := 250; life := 1; life_buffer := None;
     io_log := [] |}.

(** The viewer between two keys while it browses the file: the terminal
    has at least one row and one column, the file is as it was opened (and
    small enough for an offset one window past its end to fit an [off_t]),
    life mode is off, and the globals are as the last [update] left them
    for this terminal -- the width settled, the window as large as the
    terminal and the file allow and loaded, the view inside its bounds. *)
Definition browsing (e : env) (st : state) (term_w term_h : Z) : Prop :=
  term e = Some (term_w, term_h)
  /\ 1 <= term_w <= 65535 /\ 1 <= term_h <= 65535
  /\ Z.of_nat (length (file e)) = fd_size st /\ 0 <= fd_size st < 2 ^ 62
  /\ life st = 0
  /\ last_term_w st = term_w /\ last_term_h st = term_h
  /\ buffer_offset st = offset st
  /\ 0 <= buffer_width st <= INT_MAX /\ buffer_width st mod 8 = 0
  /\ (buffer_width st = 0 -> term_w < 4)
  /\ buffer_size st = Z.min (term_h * 3 * buffer_width st / 8) (fd_size st)
  /\ Z.of_nat (length (buffer st)) = buffer_size st
  /\ 0 <= offset st <= fd_size st - buffer_size st
  /\ 0 <= col_offset st <= Z.max 0 (buffer_width st - 2 * term_w).

(** The moves of the viewer, the byte sequences that ask for each, and the
    view each asks for before the redraw clamps it. *)
Inductive move : Type :=
  | Up | Down | Left | Right | PageUp | PageDown | Home | End.

Definition keys (m : move) : list (list Z) :=
  match m with
  | Up => [[107]; [75]; [0x1B; 0x5B; 0x41]; [0x1B; 0x4F; 0x41]]
  | Down => [[106]; [74]; [0x1B; 0x5B; 0x42]; [0x1B; 0x4F; 0x42]]
  | Right => [[108]; [76]; [0x1B; 0x5B; 0x43]; [0x1B; 0x4F; 0x43]]
  | Left => [[104]; [72]; [0x1B; 0x5B; 0x44]; [0x1B; 0x4F; 0x44]]
  | End => [[0x1B; 0x5B; 0x46]; [0x1B; 0x4F; 0x46]]
  | Home => [[0x1B; 0x5B; 0x48]; [0x1B; 0x4F; 0x48]]
  | PageUp => [[0x1B; 0x5B; 0x35; 0x7E]]
  | PageDown => [[0x1B; 0x5B; 0x36; 0x7E]]
  end.

Definition asked (st : state) (m : move) : Z * Z :=
  match m with
  | Up => (offset st - buffer_width st / 8, col_offset st)
  | Down => (offset st + buffer_width st / 8, col_offset st)
  | Left => (offset st, col_offset st - 1)
  | Right => (offset st, col_offset st + 1)
  | PageUp => (offset st - buffer_size st, col_offset st)
  | PageDown => (offset st + buffer_size st, col_offset st)
  | Home => (0, col_offset st)
  | End => (fd_size st, col_offset st)
  end.

(** [v] brought into [[0, top]] ([0] when [top] is negative). *)
Definition clamped (v top : Z) : Z := Z.max 0 (Z.min v top).

(** A viewer browsing [numbered_file 100 80 1] at offset 40, 64 bits to the
    row, as [update] leaves it. *)
Definition sample_view : state :=
  {| reverse_byte := 0; fd := 3; offset := 40; fd_size := 100;
     buffer := seqZ 40 24; buffer_size := 24; buffer_offset := 40;
     buffer_width := 64; last_term_w := 80; last_term_h := 1;
     col_offset := 0; delay_ms := 250; life := 0; life_buffer := None;
     io_log := [Read 24; Seek 40] |}.

(** The globals as [main] hands them to [stream] after [-w<width>]. *)
Definition streaming (width : Z) : state :=
  set_args initial 0 width 0 250 (-1) 0.

(** The environment of a turn of [stream] answers: the terminal reports a
    size and [realloc] succeeds. *)
Definition answers (e : env) : Prop :=
  (exists term_w term_h, term e = Some (term_w, term_h))
  /\ realloc_ok e = true.

(** The read of a turn returns all of the [size] bytes asked for. *)
Definition full (size : Z) (k : served) (stdin : list Z) : bool :=
  match k with
  | Refused => false
  | Handed ready =>
      (size <=? Z.of_nat ready) && (size <=? Z.of_nat (length stdin))
  end.

(** The line of glyphs for the three rows in [chunk], [width] bits each:
    one glyph for every two columns, top-left bit first. *)
Definition line_of (reverse width : Z) (chunk : list Z) : list Z :=
  (fun char_x =>
     default 0
       (sextant_chars
          !! Z.to_nat (six_bits (cell (showing reverse width chunk) chunk)
                                (2 * char_x) 0)))
  <$> seqZ 0 (width / 2).

(** The number of leading reads that return [size] bytes each, the input
    moving on by [size] bytes with every one. *)
Fixpoint lines_read (size : Z) (ks : list served) (stdin : list Z) : nat :=
  match ks with
  | [] => 0
  | k :: ks' =>
      if full size k stdin
      then S (lines_read size ks' (drop (Z.to_nat size) stdin))
      else 0
  end.

(** The first [n] pieces of [size] bytes of [stdin], in order. *)
Fixpoint chunks (n : nat) (size : Z) (stdin : list Z) : list (list Z) :=
  match n with
  | O => []
  | S n' =>
      take (Z.to_nat size) stdin :: chunks n' size (drop (Z.to_nat size) stdin)
  end.

(** The globals as [main] hands them to a viewer: what the options set is
    within its type and its bounds, everything else is as initialised. *)
Definition startable (st : state) : Prop :=
  buffer_width st mod 8 = 0 /\ is_size (buffer_width st)
  /\ 0 <= offset st < 2 ^ 63 /\ is_int (delay_ms st)
  /\ (reverse_byte st = 0 \/ reverse_byte st = 1)
  /\ buffer st = [] /\ buffer_size st = 0 /\ buffer_offset st = -1
  /\ last_term_w st = 0 /\ last_term_h st = 0 /\ col_offset st = 0
  /\ life st = 0 /\ life_buffer st = None /\ io_log st = [].

(** The width the first refetch settles on. *)
Definition settled (width term_w : Z) : Z :=
  if width =? 0 then 2 * term_w - (2 * term_w) mod 8 else width.

(** The reads that arm life mode: a single [r] or [R]. *)
Definition arms (r : stdin_read) : bool :=
  match r with
  | ReadBytes [c] => (c =? 114) || (c =? 82)
  | _ => false
  end.

(** The lines [usage] writes for [cmd]. *)
Definition usage_text (cmd : string) : list string :=
  match usage cmd [] with
  | Exit _ text => text
  | _ => []
  end.
(** * Properties *)

(** ** Machine integers *)

Lemma to_size_small z : 0 <= z < 2 ^ 64 -> to_size z = z.
Proof. intros. unfold to_size. apply Z.mod_small. lia. Qed.

Lemma to_size_range z : 0 <= to_size z < 2 ^ 64.
Proof. unfold to_size. apply Z.mod_pos_bound. lia. Qed.

Lemma to_int_small z : is_int z -> to_int z = z.
Proof. unfold is_int, to_int. intros. rewrite Z.mod_small; lia. Qed.

Lemma to_int_range z : is_int (to_int z).
Proof.
  unfold is_int, to_int.
  pose proof (Z.mod_pos_bound (z + 2 ^ 31) (2 ^ 32)). lia.
Qed.

Lemma to_off_small z : is_off z -> to_off z = z.
Proof. unfold is_off, to_off. intros. rewrite Z.mod_small; lia. Qed.

Lemma to_u8_range z : is_byte (to_u8 z).
Proof. unfold is_byte, to_u8. apply Z.mod_pos_bound. lia. Qed.

(** ** Bits of a byte *)

Lemma byte_shift_range st k : 0 <= byte_shift st k < 8.
Proof.
  unfold byte_shift, to_u8.
  pose proof (Z.mod_pos_bound k 8).
  destruct (negb (reverse_byte st =? 0)); rewrite Z.mod_small; lia.
Qed.

Lemma byte_shift_inj st j k :
  byte_shift st j = byte_shift st k -> j mod 8 = k mod 8.
Proof.
  unfold byte_shift, to_u8.
  pose proof (Z.mod_pos_bound j 8). pose proof (Z.mod_pos_bound k 8).
  destruct (negb (reverse_byte st =? 0)).
  - rewrite (Z.mod_small (j mod 8)), (Z.mod_small (k mod 8)) by lia. lia.
  - rewrite (Z.mod_small (7 - j mod 8)), (Z.mod_small (7 - k mod 8)) by lia.
    lia.
Qed.

Lemma land_shiftr_1 v s : 0 <= s -> Z.land (Z.shiftr v s) 1 = Z.b2z (Z.testbit v s).
Proof.
  intros Hs. change 1 with (Z.ones 1). rewrite Z.land_ones by lia.
  change (2 ^ 1) with 2. rewrite <- Z.bit0_mod.
  rewrite Z.shiftr_spec by lia. reflexivity.
Qed.

Lemma testbit_set b s t :
  0 <= s < 8 -> 0 <= t < 8 ->
  Z.testbit (to_u8 (Z.lor b (Z.shiftl 1 s))) t = Z.testbit b t || (t =? s).
Proof.
  intros Hs Ht. unfold to_u8. change 256 with (2 ^ 8).
  rewrite Z.mod_pow2_bits_low by lia.
  rewrite Z.lor_spec, Z.shiftl_spec by lia. f_equal.
  destruct (Z.eqb_spec t s) as [->|Hne].
  - rewrite Z.sub_diag. reflexivity.
  - destruct (Z.ltb_spec t s).
    + apply Z.testbit_neg_r. lia.
    + replace (t - s) with (Z.succ (t - s - 1)) by lia.
      change 1 with (2 * 0 + 1). rewrite Z.testbit_odd_succ by lia.
      apply Z.testbit_0_l.
Qed.

(** ** Linear indices *)

Lemma linear_bounds st x y :
  in_range st x y -> 0 <= linear st x y < 8 * buffer_size st.
Proof.
  unfold in_range, linear. intros [Hx [Hy Hk]]. split; [nia|].
  pose proof (Z.mul_div_le (y * buffer_width st + x) 8).
  pose proof (Z.mod_pos_bound (y * buffer_width st + x) 8).
  pose proof (Z.div_mod (y * buffer_width st + x) 8). lia.
Qed.

Lemma linear_inj st x y x' y' :
  0 <= x < buffer_width st -> 0 <= x' < buffer_width st ->
  linear st x y = linear st x' y' -> x = x' /\ y = y'.
Proof. unfold linear. intros Hx Hx' Heq. assert (y = y') by nia. subst. lia. Qed.

Lemma bit_index_linear st x y :
  0 <= x < buffer_width st -> 0 <= y -> linear st x y < 2 ^ 64 ->
  bit_index st x y = linear st x y.
Proof.
  unfold bit_index, linear. intros Hx Hy Hk.
  assert (y * 1 <= y * buffer_width st) by (apply Z.mul_le_mono_nonneg_l; lia).
  rewrite (to_size_small y), (to_size_small x) by lia.
  apply to_size_small. lia.
Qed.

Lemma bit_index_in_range st buf x y :
  sized st buf -> in_range st x y -> bit_index st x y = linear st x y.
Proof.
  intros [_ Hcap] Hin. pose proof (linear_bounds _ _ _ Hin).
  destruct Hin as [Hx [Hy _]]. apply bit_index_linear; lia.
Qed.

(** ** Memory *)

Lemma load_ok buf i :
  0 <= i < Z.of_nat (length buf) ->
  load buf i = Ok (default 0 (buf !! Z.to_nat i)).
Proof.
  intros Hi. unfold load.
  destruct (Z.ltb_spec i 0); [lia|].
  destruct (lookup_lt_is_Some_2 buf (Z.to_nat i)) as [b Hb]; [lia|].
  rewrite Hb. reflexivity.
Qed.

Lemma store_ok buf i v :
  0 <= i < Z.of_nat (length buf) ->
  store buf i v = Ok (<[Z.to_nat i := v]> buf).
Proof.
  intros Hi. unfold store.
  destruct (Z.leb_spec 0 i); [|lia].
  destruct (Z.ltb_spec i (Z.of_nat (length buf))); [|lia]. reflexivity.
Qed.

(** ** getbit *)

Lemma bit_index_range st x y : 0 <= bit_index st x y / 8.
Proof.
  unfold bit_index. apply Z.div_pos; [|lia].
  apply to_size_range.
Qed.

(** Outside the tests' bounds [getbit] answers 0 without touching memory. *)
Lemma getbit_outside st buf x y :
  x < 0 \/ buffer_width st <= to_size x \/ y < 0
  \/ buffer_size st <= bit_index st x y / 8 ->
  getbit st buf x y = Ok 0.
Proof.
  intros H. unfold getbit.
  destruct (Z.ltb_spec x 0); [reflexivity|].
  destruct (Z.leb_spec (buffer_width st) (to_size x)); [reflexivity|].
  destruct (Z.ltb_spec y 0); [reflexivity|]. simpl.
  destruct (Z.leb_spec (buffer_size st) (bit_index st x y / 8));
    [reflexivity|lia].
Qed.

(** Inside, it reads the bit at the linear index. *)
Lemma getbit_in_range st buf x y :
  sized st buf -> in_range st x y ->
  getbit st buf x y = Ok (peek st buf (linear st x y)).
Proof.
  intros Hsz Hin. unfold getbit.
  rewrite (bit_index_in_range _ _ _ _ Hsz Hin).
  pose proof (linear_bounds _ _ _ Hin) as Hk.
  destruct Hsz as [Hlen Hcap]. destruct Hin as [Hx [Hy Hb]].
  assert (0 <= linear st x y / 8) by (apply Z.div_pos; lia).
  assert (x <= linear st x y) by (unfold linear; nia).
  rewrite (to_size_small x) by lia.
  destruct (Z.ltb_spec x 0); [lia|].
  destruct (Z.leb_spec (buffer_width st) x); [lia|].
  destruct (Z.ltb_spec y 0); [lia|]. simpl.
  destruct (Z.leb_spec (buffer_size st) (linear st x y / 8)); [lia|].
  rewrite load_ok by lia. simpl.
  unfold peek. rewrite land_shiftr_1 by apply byte_shift_range. reflexivity.
Qed.

(** On an allocated buffer [getbit] always returns, and returns a bit. *)
Lemma getbit_total st buf x y :
  allocated st buf ->
  exists b, getbit st buf x y = Ok b /\ (b = 0 \/ b = 1).
Proof.
  intros Halloc. unfold getbit.
  destruct ((x <? 0) || (buffer_width st <=? to_size x) || (y <? 0));
    [eauto|].
  simpl. destruct (Z.leb_spec (buffer_size st) (bit_index st x y / 8));
    [eauto|].
  pose proof (bit_index_range st x y).
  rewrite load_ok by (unfold allocated in Halloc; lia). simpl.
  eexists. split; [reflexivity|].
  rewrite land_shiftr_1 by apply byte_shift_range.
  destruct (Z.testbit _ _); simpl; lia.
Qed.

(** ** setbit *)

(** What [setbit] does ignore: columns past [buffer_width], bytes past
    [buffer_size]. *)
Lemma setbit_outside st buf x y :
  x < 0 \/ buffer_width st < to_size x \/ y < 0
  \/ buffer_size st < bit_index st x y / 8 ->
  setbit st buf x y = Ok buf.
Proof.
  intros H. unfold setbit.
  destruct (Z.ltb_spec x 0); [reflexivity|].
  destruct (Z.ltb_spec (buffer_width st) (to_size x)); [reflexivity|].
  destruct (Z.ltb_spec y 0); [reflexivity|]. simpl.
  destruct (Z.ltb_spec (buffer_size st) (bit_index st x y / 8));
    [reflexivity|lia].
Qed.

Lemma setbit_in_range st buf x y :
  sized st buf -> in_range st x y ->
  setbit st buf x y =
    Ok (<[Z.to_nat (linear st x y / 8) :=
            to_u8 (Z.lor (default 0 (buf !! Z.to_nat (linear st x y / 8)))
                         (Z.shiftl 1 (byte_shift st (linear st x y))))]> buf).
Proof.
  intros Hsz Hin. unfold setbit.
  rewrite (bit_index_in_range _ _ _ _ Hsz Hin).
  pose proof (linear_bounds _ _ _ Hin) as Hk.
  destruct Hsz as [Hlen Hcap]. destruct Hin as [Hx [Hy Hb]].
  assert (0 <= linear st x y / 8) by (apply Z.div_pos; lia).
  assert (x <= linear st x y) by (unfold linear; nia).
  rewrite (to_size_small x) by lia.
  destruct (Z.ltb_spec x 0); [lia|].
  destruct (Z.ltb_spec (buffer_width st) x); [lia|].
  destruct (Z.ltb_spec y 0); [lia|]. simpl.
  destruct (Z.ltb_spec (buffer_size st) (linear st x y / 8)); [lia|].
  rewrite load_ok by lia. simpl. apply store_ok. lia.
Qed.

(** Bit [j] after bit [k] was set. *)
Lemma peek_set st buf j k :
  0 <= j -> 0 <= k -> k / 8 < Z.of_nat (length buf) ->
  peek st
    (<[Z.to_nat (k / 8) :=
         to_u8 (Z.lor (default 0 (buf !! Z.to_nat (k / 8)))
                      (Z.shiftl 1 (byte_shift st k)))]> buf) j
  = if j =? k then 1 else peek st buf j.
Proof.
  intros Hj Hk Hlen. unfold peek.
  assert (0 <= k / 8) by (apply Z.div_pos; lia).
  assert (0 <= j / 8) by (apply Z.div_pos; lia).
  destruct (Z.eq_dec (j / 8) (k / 8)) as [Hbyte|Hbyte].
  - rewrite Hbyte, list_lookup_insert_eq by lia. simpl.
    rewrite testbit_set by apply byte_shift_range.
    destruct (Z.eqb_spec j k) as [->|Hne].
    + rewrite Z.eqb_refl, orb_true_r. reflexivity.
    + destruct (Z.eqb_spec (byte_shift st j) (byte_shift st k)) as [Hs|Hs].
      * apply byte_shift_inj in Hs.
        pose proof (Z.div_mod j 8). pose proof (Z.div_mod k 8). lia.
      * rewrite orb_false_r. reflexivity.
  - rewrite list_lookup_insert_ne by lia.
    destruct (Z.eqb_spec j k) as [->|Hne]; [lia|reflexivity].
Qed.

(** The index of the data model: a row so far down that [y*width + x] lies
    past the last byte, and below 2^64, reads as 0. *)
Lemma getbit_past_capacity st buf x y :
  0 <= x < buffer_width st -> 0 <= y -> linear st x y < 2 ^ 64 ->
  buffer_size st <= linear st x y / 8 ->
  getbit st buf x y = Ok 0.
Proof.
  intros Hx Hy Hk Hcap. apply getbit_outside.
  rewrite bit_index_linear by assumption. auto.
Qed.

(** C2, as the source has it: for [int] coordinates that are out of range
    -- [x < 0], [x >= buffer_width], [y < 0], or a linear bit index
    [y*width + x] below 2^64 whose byte index is at or past [buffer_size]
    -- [getbit] returns 0 and does not fail, whatever the bit order and
    whatever the buffer holds. *)
Theorem getbit_out_of_range st buf x y :
  is_int x -> is_int y ->
  x < 0 \/ buffer_width st <= x \/ y < 0
  \/ (linear st x y < 2 ^ 64 /\ buffer_size st <= linear st x y / 8) ->
  getbit st buf x y = Ok 0.
Proof.
  intros Hx _ Hout.
  destruct (Z_lt_le_dec x 0) as [Hneg|Hpos];
    [apply getbit_outside; left; exact Hneg|].
  destruct (Z_lt_le_dec x (buffer_width st)) as [Hin|Hwide].
  - destruct (Z_lt_le_dec y 0) as [Hup|Hdown];
      [apply getbit_outside; right; right; left; exact Hup|].
    destruct Hout as [H | [H | [H | [Hfits Hcap]]]]; try lia.
    apply getbit_past_capacity; [lia | exact Hdown | exact Hfits | exact Hcap].
  - apply getbit_outside. right; left.
    rewrite to_size_small by (unfold is_int in Hx; lia). exact Hwide.
Qed.

Lemma getbit_out_of_range_witness :
  getbit (showing 0 8 [255; 255]) [255; 255] 8 0 = Ok 0
  /\ getbit (showing 1 8 [255; 255]) [255; 255] 3 2 = Ok 0.
Proof.
  split; apply getbit_out_of_range; unfold is_int; try lia.
  - right; left. simpl. lia.
  - right; right; right. vm_compute. split; [reflexivity|discriminate].
Defined.

(** C2 as the claim has it fails where the linear index reaches 2^64.
    With 2^61 bits to the row (which [-w] accepts) the bit at column 0 of
    row 8 has index 2^64, far past the one byte of the buffer; [getbit]
    forms the index in [size_t], where it is 0, passes its test and reads
    the first bit of the buffer. *)
Lemma getbit_index_wraps :
  is_int 0 /\ is_int 8
  /\ buffer_size (showing 0 (2 ^ 61) [128])
     <= linear (showing 0 (2 ^ 61) [128]) 0 8 / 8
  /\ getbit (showing 0 (2 ^ 61) [128]) [128] 0 8 = Ok 1.
Proof.
  split; [unfold is_int; lia|]. split; [unfold is_int; lia|].
  split; [vm_compute; discriminate | vm_compute; reflexivity].
Qed.

(** C6: on a buffer of [buffer_size] bytes, for every in-range [(x, y)],
    [setbit] succeeds, [getbit] then returns 1 at [(x, y)], and [getbit] at
    every other in-range coordinate returns what it returned before, under
    either bit order. *)
Theorem setbit_getbit st buf x y :
  sized st buf -> in_range st x y ->
  exists buf',
    setbit st buf x y = Ok buf'
    /\ sized st buf'
    /\ getbit st buf' x y = Ok 1
    /\ forall x' y', in_range st x' y' -> (x', y') <> (x, y) ->
         getbit st buf' x' y' = getbit st buf x' y'.
Proof.
  intros Hsz Hin. eexists. split; [apply setbit_in_range; assumption|].
  pose proof (linear_bounds _ _ _ Hin) as Hk.
  assert (Hsz' : forall v, sized st (<[Z.to_nat (linear st x y / 8) := v]> buf)).
  { intros v. destruct Hsz as [Hlen Hcap]. split; [|assumption].
    rewrite length_insert. assumption. }
  assert (Hlen : linear st x y / 8 < Z.of_nat (length buf)).
  { destruct Hsz as [-> _]. destruct Hin as [_ [_ Hb]]. exact Hb. }
  split; [apply Hsz'|]. split.
  - rewrite getbit_in_range by (auto using Hsz').
    rewrite peek_set by lia. rewrite Z.eqb_refl. reflexivity.
  - intros x' y' Hin' Hne.
    pose proof (linear_bounds _ _ _ Hin') as Hk'.
    rewrite !getbit_in_range by (auto using Hsz').
    rewrite peek_set by lia.
    destruct (Z.eqb_spec (linear st x' y') (linear st x y)) as [Heq|]; [|reflexivity].
    destruct Hin as [Hx _], Hin' as [Hx' _].
    destruct (linear_inj _ _ _ _ _ Hx' Hx Heq). congruence.
Qed.

Lemma setbit_getbit_witness :
  exists buf',
    setbit (showing 0 16 [0; 5; 0; 0]) [0; 5; 0; 0] 9 1 = Ok buf'
    /\ sized (showing 0 16 [0; 5; 0; 0]) buf'
    /\ getbit (showing 0 16 [0; 5; 0; 0]) buf' 9 1 = Ok 1
    /\ forall x' y', in_range (showing 0 16 [0; 5; 0; 0]) x' y' ->
         (x', y') <> (9, 1) ->
         getbit (showing 0 16 [0; 5; 0; 0]) buf' x' y'
         = getbit (showing 0 16 [0; 5; 0; 0]) [0; 5; 0; 0] x' y'.
Proof.
  apply setbit_getbit.
  - split; [reflexivity | simpl; lia].
  - repeat split; vm_compute; (reflexivity || discriminate).
Defined.

(** ** The glyph index *)

Lemma lor_bit i b : 0 <= i -> b = 0 \/ b = 1 -> Z.lor (Z.shiftl i 1) b = 2 * i + b.
Proof.
  intros Hi [->| ->].
  - rewrite Z.lor_0_r, Z.shiftl_mul_pow2 by lia. change (2 ^ 1) with 2. lia.
  - rewrite Z.shiftl_mul_pow2 by lia. change (2 ^ 1) with 2.
    rewrite (Z.mul_comm i 2). apply Z.bits_inj'. intros n Hn.
    rewrite Z.lor_spec.
    destruct (Z.eq_dec n 0) as [->|Hn0].
    + rewrite Z.testbit_odd_0, orb_true_r. reflexivity.
    + replace n with (Z.succ (n - 1)) by lia.
      rewrite Z.testbit_even_succ, Z.testbit_odd_succ by lia.
      pose proof (Z.testbit_odd_succ 0 (n - 1) ltac:(lia)) as Hone.
      change (2 * 0 + 1) with 1 in Hone.
      rewrite Hone, Z.testbit_0_l, orb_false_r. reflexivity.
Qed.

Lemma push_bit_bound i b m :
  0 <= i <= m -> m <= 127 -> b = 0 \/ b = 1 ->
  0 <= push_bit i b <= 2 * m + 1.
Proof.
  intros Hi Hm Hb. unfold push_bit, to_u8.
  rewrite lor_bit by (lia || assumption).
  rewrite Z.mod_small; lia.
Qed.

Lemma glyph_in_table index :
  0 <= index <= 63 ->
  exists c, glyph index = Ok c /\ sextant_chars !! Z.to_nat index = Some c.
Proof.
  intros Hi. unfold glyph.
  rewrite load_ok by (change (length sextant_chars) with 64%nat; lia).
  destruct (lookup_lt_is_Some_2 sextant_chars (Z.to_nat index)) as [c Hc].
  { change (length sextant_chars) with 64%nat. lia. }
  exists c. rewrite Hc. auto.
Qed.

(** A cell of an allocated buffer gets its index in [0, 63] and its glyph
    from the table. *)
Lemma cell_index_range st buf off_x char_y :
  allocated st buf ->
  exists index, cell_index st buf off_x char_y = Ok index /\ 0 <= index <= 63.
Proof.
  intros Halloc. unfold cell_index.
  destruct (getbit_total st _ off_x (to_int (char_y * 3)) Halloc)
    as [b1 [-> H1]]; simpl.
  destruct (getbit_total st _ (to_int (off_x + 1)) (to_int (char_y * 3)) Halloc)
    as [b2 [-> H2]]; simpl.
  destruct (getbit_total st _ off_x (to_int (to_int (char_y * 3) + 1)) Halloc)
    as [b3 [-> H3]]; simpl.
  destruct (getbit_total st _ (to_int (off_x + 1))
              (to_int (to_int (char_y * 3) + 1)) Halloc)
    as [b4 [-> H4]]; simpl.
  destruct (getbit_total st _ off_x (to_int (to_int (char_y * 3) + 2)) Halloc)
    as [b5 [-> H5]]; simpl.
  destruct (getbit_total st _ (to_int (off_x + 1))
              (to_int (to_int (char_y * 3) + 2)) Halloc)
    as [b6 [-> H6]]; simpl.
  pose proof (push_bit_bound 0 b1 0 ltac:(lia) ltac:(lia) H1) as B1.
  pose proof (push_bit_bound _ b2 _ B1 ltac:(lia) H2) as B2.
  pose proof (push_bit_bound _ b3 _ B2 ltac:(lia) H3) as B3.
  pose proof (push_bit_bound _ b4 _ B3 ltac:(lia) H4) as B4.
  pose proof (push_bit_bound _ b5 _ B4 ltac:(lia) H5) as B5.
  pose proof (push_bit_bound _ b6 _ B5 ltac:(lia) H6) as B6.
  simpl in B6. eexists. split; [reflexivity|exact B6].
Qed.

Lemma render_cell_total st char_x char_y :
  allocated st (buffer st) -> exists c, render_cell st char_y char_x = Ok c.
Proof.
  intros Halloc. unfold render_cell.
  destruct (cell_index_range st (buffer st)
              (to_int (col_offset st + to_int (char_x * 2))) char_y Halloc)
    as [index [-> Hi]]. simpl.
  destruct (glyph_in_table _ Hi) as [c [Hg _]]. eauto.
Qed.

(** C10: whatever the buffer holds (as long as it has its [buffer_size]
    bytes), whatever the column offset and the cell, the index built from
    the six [getbit] results lies in [0, 63], and the lookup in the
    64-entry table is in bounds and yields the cell's glyph. *)
Theorem cell_index_in_table st char_x char_y :
  allocated st (buffer st) ->
  exists index c,
    cell_index st (buffer st)
      (to_int (col_offset st + to_int (char_x * 2))) char_y = Ok index
    /\ 0 <= index <= 63
    /\ sextant_chars !! Z.to_nat index = Some c
    /\ render_cell st char_y char_x = Ok c.
Proof.
  intros Halloc. unfold render_cell.
  destruct (cell_index_range st (buffer st)
              (to_int (col_offset st + to_int (char_x * 2))) char_y Halloc)
    as [index [Hidx Hi]].
  destruct (glyph_in_table _ Hi) as [c [Hg Hc]].
  exists index, c. rewrite Hidx. simpl. auto.
Qed.

Lemma cell_index_in_table_witness :
  exists index c,
    cell_index (showing 0 8 [255; 129; 0]) [255; 129; 0]
      (to_int (0 + to_int (3 * 2))) 0 = Ok index
    /\ 0 <= index <= 63
    /\ sextant_chars !! Z.to_nat index = Some c
    /\ render_cell (showing 0 8 [255; 129; 0]) 0 3 = Ok c.
Proof.
  apply (cell_index_in_table (showing 0 8 [255; 129; 0]) 3 0).
  unfold allocated. simpl. lia.
Defined.

(** ** The glyph table *)

(** C7: entry 0 is the space U+0020, entry 63 the full block U+2588,
    entries 21 and 42 the half blocks U+2590 and U+258C, which lie outside
    the sextant range U+1FB00..U+1FB3B that holds every other entry, and no
    codepoint occurs at two of the 64 indices. *)
Theorem sextant_chars_table :
  length sextant_chars = 64%nat
  /\ glyph 0 = Ok 0x20
  /\ glyph 63 = Ok 0x2588
  /\ glyph 21 = Ok 0x2590 /\ is_sextant 0x2590 = false
  /\ glyph 42 = Ok 0x258C /\ is_sextant 0x258C = false
  /\ (forall i c, glyph i = Ok c -> i <> 0 -> i <> 21 -> i <> 42 -> i <> 63 ->
        is_sextant c = true)
  /\ (forall i j c, glyph i = Ok c -> glyph j = Ok c -> i = j).
Proof.
  assert (Hload : forall i c, glyph i = Ok c ->
            0 <= i /\ sextant_chars !! Z.to_nat i = Some c).
  { intros i c. unfold glyph, load. destruct (Z.ltb_spec i 0); [discriminate|].
    destruct (sextant_chars !! Z.to_nat i); [|discriminate].
    intros [= ->]. auto. }
  repeat split; try reflexivity.
  - intros i c Hg H0 H21 H42 H63. destruct (Hload _ _ Hg) as [Hi Hc].
    assert (Hn : i = Z.of_nat (Z.to_nat i)) by lia.
    remember (Z.to_nat i) as n eqn:En. clear En Hg.
    do 64 (destruct n as [|n];
           [first [ lia | simpl in Hc; injection Hc as <-; reflexivity ]|]).
    discriminate Hc.
  - intros i j c Hi Hj.
    destruct (Hload _ _ Hi) as [Hi0 Hic], (Hload _ _ Hj) as [Hj0 Hjc].
    assert (Hnd : NoDup sextant_chars).
    { refine (bool_decide_unpack _ _). vm_compute. exact I. }
    pose proof (NoDup_lookup _ _ _ _ Hnd Hic Hjc). lia.
Qed.

(** ** setbit past the last column *)

(** C1: [setbit] tests [x > buffer_width] and [byte_index > buffer_size]
    where [getbit] tests [>=]. With 8 bits to the row and 2 bytes, column 8
    of row 0 is out of range, yet the call sets the first bit of row 1, in
    either bit order; and row 2, whose byte index equals [buffer_size], is
    written one byte past the allocation. *)
Theorem setbit_off_by_one :
  setbit (showing 0 8 [0; 0]) [0; 0] 8 0 = Ok [0; 128]
  /\ setbit (showing 1 8 [0; 0]) [0; 0] 8 0 = Ok [0; 1]
  /\ getbit (showing 0 8 [0; 0]) [0; 0] 8 0 = Ok 0
  /\ setbit (showing 0 8 [0; 0]) [0; 0] 0 2 = Abort OutOfBounds.
Proof. repeat split. Qed.

(** In general the column [buffer_width] of row [y] is written as column 0
    of row [y + 1]. *)
Lemma setbit_at_width st buf y :
  sized st buf -> 0 <= y -> in_range st 0 (y + 1) ->
  setbit st buf (buffer_width st) y = setbit st buf 0 (y + 1).
Proof.
  intros Hsz Hy Hin.
  pose proof (linear_bounds _ _ _ Hin) as Hk.
  destruct Hsz as [Hlen Hcap]. destruct Hin as [Hx _].
  unfold linear in Hk.
  assert (Hw : buffer_width st * 1 <= buffer_width st * (y + 1))
    by (apply Z.mul_le_mono_nonneg_l; lia).
  assert (Hy' : y * 1 <= y * buffer_width st)
    by (apply Z.mul_le_mono_nonneg_l; lia).
  assert (Hidx : bit_index st (buffer_width st) y = bit_index st 0 (y + 1)).
  { unfold bit_index.
    rewrite (to_size_small y), (to_size_small (y + 1)),
      (to_size_small (buffer_width st)), (to_size_small 0) by lia.
    f_equal. lia. }
  unfold setbit. rewrite Hidx.
  rewrite (to_size_small (buffer_width st)), (to_size_small 0) by lia.
  destruct (Z.ltb_spec (buffer_width st) 0); [lia|].
  destruct (Z.ltb_spec (buffer_width st) (buffer_width st)); [lia|].
  destruct (Z.ltb_spec y 0); [lia|].
  destruct (Z.ltb_spec (y + 1) 0); [lia|].
  destruct (Z.ltb_spec 0 0); [lia|]. reflexivity.
Qed.

(** ** update *)

Ltac machine :=
  unfold to_size, to_off, to_int, is_off, is_int, is_size in *;
  Z.div_mod_to_equations; lia.

Lemma window_size_range st width term_h :
  0 <= window_size st width term_h < 2 ^ 64.
Proof.
  unfold window_size.
  set (n := to_size (to_size (to_int (term_h * 3)) * width)).
  pose proof (to_size_range (to_size (to_int (term_h * 3)) * width)) as Hn.
  fold n in Hn. pose proof (to_size_range (fd_size st)).
  assert (0 <= n / 8 < 2 ^ 61).
  { split; [apply Z.div_pos; lia|]. apply Z.div_lt_upper_bound; lia. }
  destruct (to_size (fd_size st) <? _); [lia|].
  destruct (negb (n mod 8 =? 0)); lia.
Qed.

(** The cap by the file size. *)
Lemma window_size_capped st width term_h :
  0 <= fd_size st < 2 ^ 63 -> window_size st width term_h <= fd_size st.
Proof.
  intros Hfd. unfold window_size.
  rewrite (to_size_small (fd_size st)) by lia.
  destruct (Z.ltb_spec (fd_size st)
    (if negb (to_size (to_size (to_int (term_h * 3)) * width) mod 8 =? 0)
     then to_size (to_size (to_int (term_h * 3)) * width) / 8 + 1
     else to_size (to_size (to_int (term_h * 3)) * width) / 8)); lia.
Qed.

(** The clamp of the offset lands inside the file. *)
Lemma clamp_offset_bounds st size :
  0 <= fd_size st < 2 ^ 63 -> is_off (offset st) -> 0 <= size <= fd_size st ->
  0 <= clamp_offset st size <= fd_size st - size.
Proof.
  intros Hfd Hoff Hsize. unfold clamp_offset.
  rewrite (to_size_small (fd_size st)) by lia.
  rewrite (to_size_small (fd_size st - size)) by lia.
  rewrite (to_off_small (fd_size st - size)) by (unfold is_off; lia).
  destruct (Z.ltb_spec (fd_size st) (to_size (to_size (offset st) + size)))
    as [Hgt|Hle].
  - destruct (Z.ltb_spec (fd_size st - size) 0); lia.
  - destruct (Z.ltb_spec (offset st) 0); [lia|].
    split; [lia|]. revert Hle. machine.
Qed.

(** The clamp of the column never leaves a negative offset, and never one
    past [buffer_width - 2*term_w] unless that bound is itself negative. *)
Lemma clamp_col_bounds st term_w :
  0 <= term_w <= 65535 -> is_size (buffer_width st) ->
  is_int (col_offset st) ->
  0 <= clamp_col st term_w <= Z.max 0 (buffer_width st - 2 * term_w).
Proof.
  intros Htw Hw Hcol. unfold clamp_col.
  rewrite (to_int_small (term_w * 2)) by (unfold is_int; lia).
  rewrite (to_size_small (term_w * 2)) by lia.
  destruct (Z.ltb_spec (buffer_width st)
              (to_size (to_int (col_offset st + term_w * 2)))) as [Hgt|Hle].
  - destruct (Z.ltb_spec
                (to_int (to_size (buffer_width st - term_w * 2))) 0) as [|Hge];
      [lia|].
    split; [lia|]. revert Hge. machine.
  - destruct (Z.ltb_spec (col_offset st) 0); [lia|].
    split; [lia|]. revert Hle. machine.
Qed.

Lemma fetch_inv e st term_w term_h st1 :
  fetch e st term_w term_h = Ok st1 ->
  buffer_width st1 = settle_width st term_w
  /\ buffer_size st1 = window_size st (buffer_width st1) term_h
  /\ offset st1 = clamp_offset st (buffer_size st1)
  /\ buffer_offset st1 = offset st1
  /\ last_term_w st1 = term_w /\ last_term_h st1 = term_h
  /\ fd_size st1 = fd_size st /\ col_offset st1 = col_offset st
  /\ io_log st1 = Read (buffer_size st1) :: Seek (offset st1) :: io_log st
  /\ allocated st1 (buffer st1).
Proof.
  unfold fetch.
  pose proof (window_size_range st (settle_width st term_w) term_h) as Hrange.
  set (size := window_size st (settle_width st term_w) term_h) in *.
  assert (Hpick : forall r,
    (if negb (size =? buffer_size st)
     then match realloc e (buffer st) size with
          | Some tmp => Ok (tmp, size)
          | None =>
              _ ← free_stale (buffer st) size;
              ERROR "Memory allocation error"
          end
     else Ok (buffer st, buffer_size st)) = r ->
    (exists buf, r = Ok (buf, size)) \/ exists why, r = Abort why).
  { intros r <-. destruct (Z.eqb_spec size (buffer_size st)) as [->|]; simpl.
    - left. eexists. reflexivity.
    - destruct (realloc e (buffer st) size) as [tmp|].
      + left. exists tmp. reflexivity.
      + right. destruct (free_stale (buffer st) size); eexists; reflexivity. }
  destruct (Hpick _ eq_refl) as [[buf ->] | [why ->]]; [|discriminate]. simpl.
  destruct (clamp_offset st size <? 0); [discriminate|].
  destruct (Z.eqb_spec (Z.of_nat (length (read_file e (clamp_offset st size) size)))
              (to_off size)) as [Hlen|]; [|discriminate].
  simpl. intros [= <-]. simpl. repeat split.
  unfold allocated. simpl. rewrite length_app.
  assert (to_off size = size) by (revert Hlen; machine). lia.
Qed.

Lemma update_inv e st st' frame :
  update e st = Ok (st', frame) ->
  exists term_w term_h st1,
    term e = Some (term_w, term_h)
    /\ (if stale st term_w term_h then fetch e st term_w term_h = Ok st1
        else st1 = st)
    /\ st' = set_col_offset st1 (clamp_col st1 term_w)
    /\ render st' term_h
         (if term_w <? to_int (buffer_width st' / 2) then term_w
          else to_int (buffer_width st' / 2)) = Ok frame.
Proof.
  unfold update, term_size.
  destruct (term e) as [[term_w term_h]|]; [|discriminate]. simpl.
  intros H. exists term_w, term_h.
  destruct (stale st term_w term_h).
  - destruct (fetch e st term_w term_h) as [st1|]; [|discriminate].
    simpl in H. exists st1.
    destruct (render _ _ _) as [f|] eqn:Hr; [|discriminate].
    simpl in H. injection H as <- <-. auto.
  - simpl in H. exists st.
    destruct (render _ _ _) as [f|] eqn:Hr; [|discriminate].
    simpl in H. injection H as <- <-. auto.
Qed.

Lemma mapM_total {A B : Type} (f : A -> result B) (l : list A) :
  (forall x, exists y, f x = Ok y) -> exists ys, mapM f l = Ok ys.
Proof.
  intros Hf. induction l as [|x l [ys IH]]; simpl.
  - eexists. reflexivity.
  - destruct (Hf x) as [y Hy]. rewrite Hy. simpl. rewrite IH. simpl.
    eexists. reflexivity.
Qed.

(** Drawing an allocated buffer cannot fail. *)
Lemma render_total st term_h disp_w :
  allocated st (buffer st) -> exists frame, render st term_h disp_w = Ok frame.
Proof.
  intros Halloc. unfold render. apply mapM_total. intros char_y.
  apply mapM_total. intros char_x.
  destruct (render_cell_total st char_x char_y Halloc) as [c Hc].
  exists c. exact Hc.
Qed.

Lemma settle_width_range st term_w :
  is_size (buffer_width st) -> is_size (settle_width st term_w).
Proof.
  intros Hw. unfold settle_width.
  set (w := if buffer_width st =? 0 then to_size (to_int (term_w * 2))
            else buffer_width st).
  assert (Hrange : is_size w).
  { unfold w. destruct (buffer_width st =? 0); [apply to_size_range|exact Hw]. }
  unfold is_size in *. pose proof (Z.mod_pos_bound w 8).
  pose proof (Z.div_mod w 8). pose proof (Z.div_pos w 8).
  destruct (negb (w mod 8 =? 0)); lia.
Qed.

Lemma read_file_length e pos n :
  0 <= pos -> 0 <= n -> pos + n <= Z.of_nat (length (file e)) ->
  Z.of_nat (length (read_file e pos n)) = n.
Proof.
  intros Hpos Hn Hfit. unfold read_file.
  rewrite length_take, length_drop. lia.
Qed.

(** With a cooperative environment the guarded block returns, unless it
    has to shrink an allocated buffer to nothing. *)
Lemma fetch_returns e st term_w term_h :
  cooperative e st term_w term_h -> representable st ->
  window_size st (settle_width st term_w) term_h <> 0
  \/ is_null (buffer st) = true ->
  exists st1, fetch e st term_w term_h = Ok st1.
Proof.
  intros (Hterm & Htw & Hth & Hre & Hfile) (Hfd & Hoff & Hcol & Hw) Hsome.
  unfold fetch.
  pose proof (window_size_range st (settle_width st term_w) term_h) as Hrange.
  pose proof (window_size_capped st (settle_width st term_w) term_h Hfd) as Hcap.
  set (size := window_size st (settle_width st term_w) term_h) in *.
  assert (Hpick : exists buf,
    (if negb (size =? buffer_size st)
     then match realloc e (buffer st) size with
          | Some tmp => Ok (tmp, size)
          | None =>
              _ ← free_stale (buffer st) size;
              ERROR "Memory allocation error"
          end
     else Ok (buffer st, buffer_size st)) = Ok (buf, size)).
  { destruct (Z.eqb_spec size (buffer_size st)) as [->|]; simpl.
    - eexists. reflexivity.
    - unfold realloc. rewrite Hre.
      assert (Hkeep : (size =? 0) && negb (is_null (buffer st)) = false).
      { destruct Hsome as [Hsize | ->]; [|apply andb_false_r].
        destruct (Z.eqb_spec size 0); [contradiction|reflexivity]. }
      rewrite Hkeep. eexists. reflexivity. }
  destruct Hpick as [buf ->]. simpl.
  pose proof (clamp_offset_bounds st size Hfd Hoff ltac:(lia)) as Hclamp.
  destruct (Z.ltb_spec (clamp_offset st size) 0); [lia|].
  rewrite read_file_length by lia.
  rewrite to_off_small by (unfold is_off; lia).
  rewrite Z.eqb_refl. simpl. eexists. reflexivity.
Qed.

(** With a cooperative environment [update] returns, unless it has to
    shrink an allocated buffer to nothing. *)
Lemma update_returns e st term_w term_h :
  cooperative e st term_w term_h -> representable st ->
  allocated st (buffer st) ->
  window_size st (settle_width st term_w) term_h <> 0
  \/ is_null (buffer st) = true ->
  exists st' frame, update e st = Ok (st', frame).
Proof.
  intros Hco Hrep Halloc Hsome. unfold update, term_size.
  pose proof Hco as (Hterm & _). rewrite Hterm. simpl.
  assert (Hst1 : exists st1,
    (if stale st term_w term_h then fetch e st term_w term_h else Ok st) = Ok st1
    /\ allocated st1 (buffer st1)).
  { destruct (stale st term_w term_h).
    - destruct (fetch_returns e st term_w term_h Hco Hrep Hsome) as [st1 Hf].
      exists st1. split; [exact Hf|]. apply (fetch_inv _ _ _ _ _ Hf).
    - exists st. auto. }
  destruct Hst1 as [st1 [-> Halloc1]]. simpl.
  match goal with
  | |- context [render ?s ?h ?w] =>
      destruct (render_total s h w) as [frame Hr]; [exact Halloc1|]
  end.
  rewrite Hr. simpl. eexists _, _. reflexivity.
Qed.

(** C4, as the source has it: after an [update] that returns, the column
    offset lies in [0, max(0, buffer_width - 2*term_w)] -- the lower clamp
    wins when the buffer is narrower than the terminal -- and the file
    offset lies in [0, fd_size - buffer_size], whatever offset was asked
    for, whenever the call refetches or the cache it keeps was fetched at a
    clamped offset. *)
Theorem update_clamps e st term_w term_h st' frame :
  term e = Some (term_w, term_h) -> 0 <= term_w <= 65535 ->
  representable st ->
  (stale st term_w term_h = false ->
   0 <= buffer_offset st <= fd_size st - buffer_size st) ->
  update e st = Ok (st', frame) ->
  0 <= offset st' <= fd_size st' - buffer_size st'
  /\ 0 <= col_offset st' <= Z.max 0 (buffer_width st' - 2 * term_w).
Proof.
  intros Hterm Htw (Hfd & Hoff & Hcol & Hw) Hcache Hupd.
  destruct (update_inv _ _ _ _ Hupd) as (tw & th & st1 & Hterm' & Hst1 & -> & _).
  rewrite Hterm in Hterm'. injection Hterm' as <- <-. simpl.
  assert (Hpost : 0 <= offset st1 <= fd_size st1 - buffer_size st1
                  /\ is_size (buffer_width st1) /\ is_int (col_offset st1)).
  { destruct (stale st term_w term_h) eqn:Hstale.
    - destruct (fetch_inv _ _ _ _ _ Hst1)
        as (Hwidth & Hsize & Hoffset & _ & _ & _ & Hfd1 & Hcol1 & _).
      rewrite Hwidth, Hcol1, Hfd1 in *. split; [|split].
      + rewrite Hoffset. apply clamp_offset_bounds; try assumption.
        rewrite Hsize.
        pose proof (window_size_range st (settle_width st term_w) term_h).
        pose proof (window_size_capped st (settle_width st term_w) term_h Hfd).
        lia.
      + apply settle_width_range. assumption.
      + assumption.
    - subst st1. specialize (Hcache eq_refl).
      unfold stale in Hstale.
      apply orb_false_elim in Hstale as [_ Hsame].
      apply negb_false_iff, Z.eqb_eq in Hsame. rewrite <- Hsame. auto. }
  destruct Hpost as (Hoffset & Hw1 & Hcol1).
  split; [exact Hoffset|]. apply clamp_col_bounds; assumption.
Qed.

Lemma update_clamps_witness :
  exists st' frame,
    update (zero_file 100 80 1) (opened 64 (-5) 100) = Ok (st', frame)
    /\ (0 <= offset st' <= fd_size st' - buffer_size st'
        /\ 0 <= col_offset st' <= Z.max 0 (buffer_width st' - 2 * 80)).
Proof.
  assert (Hrun : {r | update (zero_file 100 80 1) (opened 64 (-5) 100) = Ok r})
    by (eexists; vm_compute; reflexivity).
  destruct Hrun as [[st' frame] Hupd].
  exists st', frame. split; [exact Hupd|].
  apply (update_clamps (zero_file 100 80 1) (opened 64 (-5) 100) 80 1 st' frame).
  - reflexivity.
  - lia.
  - unfold representable, is_off, is_int, is_size. simpl. lia.
  - discriminate.
  - exact Hupd.
Defined.

(** C4 as the claim has it fails on a buffer narrower than the terminal:
    with 8 bits to the row on 80 columns, [col_offset] ends at 0 while
    [buffer_width - 2*term_w] is -152. *)
Lemma update_column_bound_fails :
  exists st' frame,
    update (zero_file 100 80 1) (opened 8 0 100) = Ok (st', frame)
    /\ ~ (0 <= offset st' <= fd_size st' - buffer_size st'
          /\ 0 <= col_offset st' <= buffer_width st' - 2 * 80).
Proof.
  eexists _, _. split; [vm_compute; reflexivity|].
  simpl. lia.
Qed.

(** The case the statement above leaves out. [run] marks the cache invalid
    with [buffer_offset = -1]; when the offset asked for is -1 as well (one
    row up from offset 0, 8 bits to the row) and the terminal has not
    changed, the guard takes the cache for fresh and the offset stays -1. *)
Example update_keeps_offset_at_marker :
  exists st' frame,
    update (zero_file 100 80 1)
      {| reverse_byte := 0; fd := 3; offset := -1; fd_size := 100;
         buffer := [0; 0; 0]; buffer_size := 3; buffer_offset := -1;
         buffer_width := 8; last_term_w := 80; last_term_h := 1;
         col_offset := 0; delay_ms := 250; life := 0; life_buffer := None;
         io_log := [Read 3; Seek 0] |} = Ok (st', frame)
    /\ offset st' = -1 /\ io_log st' = [Read 3; Seek 0].
Proof. eexists _, _. split; [vm_compute; reflexivity|]. split; reflexivity. Qed.

(** C5, as the source has it: when [update] refetches, the window is
    [ceil(term_h * 3 * buffer_width / 8)] bytes capped at [fd_size], and at
    nothing else; the offset asked for plays no part in it. *)
Theorem update_window_size e st term_w term_h st' frame :
  term e = Some (term_w, term_h) -> 0 <= term_h <= 65535 ->
  0 <= fd_size st < 2 ^ 63 ->
  stale st term_w term_h = true ->
  update e st = Ok (st', frame) ->
  0 <= buffer_width st' -> term_h * 3 * buffer_width st' < 2 ^ 64 ->
  buffer_size st'
  = Z.min (ceil_div (term_h * 3 * buffer_width st') 8) (fd_size st').
Proof.
  intros Hterm Hth Hfd Hstale Hupd.
  destruct (update_inv _ _ _ _ Hupd) as (tw & th & st1 & Hterm' & Hst1 & -> & _).
  rewrite Hterm in Hterm'. injection Hterm' as <- <-. rewrite Hstale in Hst1.
  destruct (fetch_inv _ _ _ _ _ Hst1)
    as (_ & Hsize & _ & _ & _ & _ & Hfd1 & _).
  simpl. intros Hw Hfit. rewrite Hsize, Hfd1.
  unfold window_size, ceil_div.
  rewrite (to_int_small (term_h * 3)) by (unfold is_int; lia).
  rewrite (to_size_small (term_h * 3)) by lia.
  rewrite (to_size_small (term_h * 3 * buffer_width st1)) by nia.
  rewrite (to_size_small (fd_size st)) by lia.
  set (n := term_h * 3 * buffer_width st1).
  assert (Hceil : (if negb (n mod 8 =? 0) then n / 8 + 1 else n / 8)
                  = (n + 8 - 1) / 8).
  { destruct (Z.eqb_spec (n mod 8) 0); simpl;
      Z.div_mod_to_equations; lia. }
  rewrite Hceil.
  destruct (Z.ltb_spec (fd_size st) ((n + 8 - 1) / 8)); lia.
Qed.

Lemma update_window_size_witness :
  exists st' frame,
    update (zero_file 100 80 1) (opened 64 90 100) = Ok (st', frame)
    /\ buffer_size st'
       = Z.min (ceil_div (1 * 3 * buffer_width st') 8) (fd_size st').
Proof.
  assert (Hrun : {r | update (zero_file 100 80 1) (opened 64 90 100) = Ok r})
    by (eexists; vm_compute; reflexivity).
  destruct Hrun as [[st' frame] Hupd].
  exists st', frame. split; [exact Hupd|].
  apply (update_window_size (zero_file 100 80 1) (opened 64 90 100) 80 1 st' frame).
  - reflexivity.
  - lia.
  - simpl. lia.
  - reflexivity.
  - exact Hupd.
  - vm_compute in Hupd. injection Hupd as <- _. simpl. lia.
  - vm_compute in Hupd. injection Hupd as <- _. simpl. lia.
Defined.

(** C5 as the claim has it fails: asked for offset 90 of a 100-byte file,
    with one terminal row of 64 bits, [update] loads 24 bytes (and moves
    the offset back to 76), not the 10 bytes that remain after offset 90. *)
Lemma update_window_not_capped_by_offset :
  exists st' frame,
    update (zero_file 100 80 1) (opened 64 90 100) = Ok (st', frame)
    /\ buffer_size st' = 24 /\ offset st' = 76
    /\ buffer_size st'
       <> Z.min (Z.min (ceil_div (1 * 3 * buffer_width st') 8)
                       (fd_size (opened 64 90 100) - offset (opened 64 90 100)))
                (fd_size (opened 64 90 100)).
Proof.
  eexists _, _. split; [vm_compute; reflexivity|].
  repeat split. vm_compute. discriminate.
Qed.

(** C8: when [update] has returned and is called again with the terminal
    and the globals as that call left them, the guard of the fetch is
    false: the second call returns without a seek or a read, the log of
    the data source is as the first call left it. *)
Theorem update_twice_no_fetch e st st1 frame1 :
  allocated st (buffer st) ->
  update e st = Ok (st1, frame1) ->
  exists st2 frame2,
    update e st1 = Ok (st2, frame2)
    /\ io_log st2 = io_log st1
    /\ buffer st2 = buffer st1.
Proof.
  intros Halloc Hupd.
  destruct (update_inv _ _ _ _ Hupd) as (tw & th & st0 & Hterm & Hst0 & -> & _).
  assert (Hfresh : stale st0 tw th = false /\ allocated st0 (buffer st0)).
  { destruct (stale st tw th) eqn:Hstale.
    - destruct (fetch_inv _ _ _ _ _ Hst0)
        as (_ & _ & _ & Hoff & Hlw & Hlh & _ & _ & _ & Ha).
      split; [|exact Ha]. unfold stale. rewrite Hoff, Hlw, Hlh.
      rewrite !Z.eqb_refl. reflexivity.
    - subst st0. auto. }
  destruct Hfresh as [Hfresh Halloc0].
  unfold update, term_size. rewrite Hterm. simpl.
  change (stale (set_col_offset st0 (clamp_col st0 tw)) tw th)
    with (stale st0 tw th).
  rewrite Hfresh. simpl.
  match goal with
  | |- context [render ?s ?h ?w] =>
      destruct (render_total s h w) as [frame2 Hr]; [exact Halloc0|]
  end.
  rewrite Hr. simpl. eexists _, _. split; [reflexivity|]. auto.
Qed.

Lemma update_twice_no_fetch_witness :
  exists st1 frame1 st2 frame2,
    update (zero_file 100 80 1) (opened 64 90 100) = Ok (st1, frame1)
    /\ update (zero_file 100 80 1) st1 = Ok (st2, frame2)
    /\ io_log st2 = io_log st1
    /\ buffer st2 = buffer st1.
Proof.
  assert (Hrun : {r | update (zero_file 100 80 1) (opened 64 90 100) = Ok r})
    by (eexists; vm_compute; reflexivity).
  destruct Hrun as [[st1 frame1] Hupd].
  destruct (update_twice_no_fetch (zero_file 100 80 1) (opened 64 90 100)
              st1 frame1) as (st2 & frame2 & Hsecond & Hlog & Hbuf).
  - unfold allocated. simpl. lia.
  - exact Hupd.
  - exists st1, frame1, st2, frame2. auto.
Defined.

(** ** main *)

(** Every way out of the argument loop goes through [usage], and [usage]
    ends in [exit(0)]. *)
Lemma main_loop_exit_status open_size cmd args st stderr status stderr' :
  main_loop open_size cmd args st stderr = Exit status stderr' -> status = 0.
Proof.
  revert st stderr. induction args as [|arg rest IH]; intros st stderr; simpl.
  - destruct (fd st <? 0); discriminate.
  - unfold usage.
    repeat match goal with
    | |- (if ?c then _ else _) = _ -> _ => destruct c
    | |- (let '(_, _) := ?p in _) = _ -> _ => destruct p
    | |- match ?o with Some _ => _ | None => _ end = _ -> _ => destruct o
    | |- Exit _ _ = Exit _ _ -> _ => intros [= <- _]; reflexivity
    | |- main_loop _ _ _ _ _ = _ -> _ => apply IH
    end.
Qed.

(** C9: the error paths of [update] leave through [exit(-1)], status 255,
    but an argument error does not: [bitraster -w7] writes its cause to
    the error stream and then leaves through [usage], whose [exit(0)] gives
    status 0; so does a path that cannot be opened. *)
Theorem argument_error_exit_status :
  (forall open_size,
     exists usage_text,
       main open_size ["bitraster"; "-w7"]%string
       = Exit 0 ("Width is not even multiple of 8"%string :: usage_text))
  /\ (exists usage_text,
        main (fun _ => None) ["bitraster"; "missing.bin"]%string
        = Exit 0 ("Path error"%string :: usage_text))
  /\ Libc.exit_status 0 = 0
  /\ (forall msg : string, @ERROR unit msg = Abort (Exited (-1) msg))
  /\ Libc.exit_status (-1) = 255.
Proof.
  split; [|split; [|split; [|split]]]; try reflexivity.
  - intros open_size. eexists. vm_compute. reflexivity.
  - eexists. vm_compute. reflexivity.
Qed.

(** ** step_life *)

Lemma getbit_cell st buf x y :
  allocated st buf -> getbit st buf x y = Ok (cell st buf x y).
Proof.
  intros Halloc. unfold cell.
  destruct (getbit_total st buf x y Halloc) as [b [-> _]]. reflexivity.
Qed.

Lemma neighbours_count st buf x y :
  allocated st buf ->
  neighbours st buf x y
  = Ok (cell st buf (x - 1) (y - 1) + cell st buf x (y - 1)
        + cell st buf (x + 1) (y - 1)
        + cell st buf (x - 1) y + cell st buf (x + 1) y
        + cell st buf (x - 1) (y + 1) + cell st buf x (y + 1)
        + cell st buf (x + 1) (y + 1)).
Proof.
  intros Halloc. unfold neighbours.
  rewrite !(getbit_cell st buf) by assumption. reflexivity.
Qed.

Lemma sized_allocated st buf : sized st buf -> allocated st buf.
Proof. intros [Hlen _]. unfold allocated. lia. Qed.

(** The invariant rule of the counted loop. *)
Lemma for_loop_inv {A : Type} (P : Z -> A -> Prop) (body : Z -> A -> result A)
    (n : nat) :
  forall i a,
    P i a ->
    (forall j b, i <= j < i + Z.of_nat n -> P j b ->
       exists b', body j b = Ok b' /\ P (j + 1) b') ->
    exists a', for_loop n i body a = Ok a' /\ P (i + Z.of_nat n) a'.
Proof.
  induction n as [|n IH]; intros i a Hinit Hstep; simpl for_loop.
  - exists a. rewrite Z.add_0_r. auto.
  - destruct (Hstep i a ltac:(lia) Hinit) as [a1 [-> H1]]. simpl.
    destruct (IH (i + 1) a1 H1) as [a' [Hloop Hend]].
    + intros j b Hj. apply Hstep. lia.
    + exists a'. split; [exact Hloop|].
      replace (i + Z.of_nat (S n)) with (i + 1 + Z.of_nat n) by lia.
      exact Hend.
Qed.

Lemma peek_zeros st n k : peek st (replicate n 0) k = 0.
Proof.
  unfold peek. destruct (replicate n 0 !! Z.to_nat (k / 8)) as [b|] eqn:Hb.
  - apply lookup_replicate in Hb as [-> _]. simpl.
    rewrite Z.testbit_0_l. reflexivity.
  - simpl. rewrite Z.testbit_0_l. reflexivity.
Qed.

Lemma memset_zero buf n :
  Z.of_nat (length buf) = n -> memset buf 0 n = Ok (replicate (Z.to_nat n) 0).
Proof.
  intros Hlen. unfold memset.
  destruct (Z.ltb_spec (Z.of_nat (length buf)) n); [lia|].
  rewrite drop_ge by lia. rewrite app_nil_r. reflexivity.
Qed.

Lemma memcpy_whole dst src n :
  Z.of_nat (length dst) = n -> Z.of_nat (length src) = n ->
  memcpy dst src n = Ok src.
Proof.
  intros Hdst Hsrc. unfold memcpy.
  destruct (Z.ltb_spec (Z.of_nat (length dst)) n); [lia|].
  destruct (Z.ltb_spec (Z.of_nat (length src)) n); [lia|]. simpl.
  rewrite take_ge, drop_ge by lia. rewrite app_nil_r. reflexivity.
Qed.

Lemma next_cell_bit alive count :
  next_cell alive count = 0 \/ next_cell alive count = 1.
Proof.
  unfold next_cell.
  destruct (negb (alive =? 0)), ((count =? 2) || (count =? 3)), (count =? 3);
    auto.
Qed.

(** A cell of a full row is a bit of the buffer. *)
Lemma grid_in_range st x y :
  0 <= x < buffer_width st -> 0 <= y < rows st -> in_range st x y.
Proof.
  intros Hx Hy. unfold in_range, linear, rows in *.
  split; [lia|]. split; [lia|].
  apply Z.div_lt_upper_bound; [lia|].
  assert (y + 1 <= 8 * buffer_size st / buffer_width st) by lia.
  pose proof (Z.mul_div_le (8 * buffer_size st) (buffer_width st) ltac:(lia)).
  nia.
Qed.

Lemma linear_div_mod st x y :
  0 <= x < buffer_width st ->
  linear st x y mod buffer_width st = x /\ linear st x y / buffer_width st = y.
Proof.
  intros Hx. unfold linear. split.
  - rewrite Z.add_comm, Z.mod_add by lia. apply Z.mod_small. lia.
  - rewrite Z.add_comm, Z.div_add by lia. rewrite Z.div_small by lia. lia.
Qed.

(** One pass through the body of the inner loop. *)
Lemma life_cell_step st x y scratch :
  sized st (buffer st) ->
  0 <= x < buffer_width st -> 0 <= y < rows st ->
  done_to st (linear st x y) scratch ->
  exists scratch',
    life_cell st x y scratch = Ok scratch'
    /\ done_to st (linear st x y + 1) scratch'.
Proof.
  intros Hbuf Hx Hy (Hsz & Hbytes & Hbits).
  assert (Hin : in_range st x y) by (apply grid_in_range; assumption).
  pose proof (linear_bounds _ _ _ Hin) as Hk.
  pose proof (linear_div_mod st x y Hx) as Hxy.
  assert (Hnew : evolve st (buffer st) (linear st x y)
                 = next_on (cell st (buffer st)) x y).
  { unfold evolve. destruct Hxy as [-> ->]. reflexivity. }
  unfold life_cell.
  rewrite neighbours_count by (apply sized_allocated; assumption). simpl.
  rewrite getbit_cell by (apply sized_allocated; assumption). simpl.
  fold (next_on (cell st (buffer st)) x y) in *.
  set (count := _ + _) in *.
  assert (Hcase :
    (if negb (cell st (buffer st) x y =? 0)
     then if (count =? 2) || (count =? 3) then setbit st scratch x y
          else Ok scratch
     else if count =? 3 then setbit st scratch x y else Ok scratch)
    = if next_cell (cell st (buffer st) x y) count =? 1
      then setbit st scratch x y else Ok scratch).
  { unfold next_cell.
    destruct (negb (cell st (buffer st) x y =? 0)),
      ((count =? 2) || (count =? 3)), (count =? 3); reflexivity. }
  rewrite Hcase. clear Hcase.
  assert (Hrule : next_on (cell st (buffer st)) x y
                  = next_cell (cell st (buffer st) x y) count) by reflexivity.
  rewrite <- Hrule, <- Hnew.
  destruct (Z.eqb_spec (evolve st (buffer st) (linear st x y)) 1) as [Hone|Hzero].
  - rewrite setbit_in_range by assumption. eexists. split; [reflexivity|].
    split; [|split].
    + destruct Hsz as [Hlen Hcap]. split; [|assumption].
      rewrite length_insert. assumption.
    + apply Forall_insert; [assumption|apply to_u8_range].
    + intros j Hj. rewrite peek_set; try lia.
      * destruct (Z.eqb_spec j (linear st x y)) as [->|Hne].
        -- destruct (Z.ltb_spec (linear st x y) (linear st x y + 1)); [|lia].
           symmetry. exact Hone.
        -- rewrite (Hbits j Hj).
           destruct (Z.ltb_spec j (linear st x y)),
             (Z.ltb_spec j (linear st x y + 1)); try lia; reflexivity.
      * destruct Hsz as [-> _]. destruct Hin as (_ & _ & Hb). exact Hb.
  - exists scratch. split; [reflexivity|].
    split; [assumption|]. split; [assumption|].
    intros j Hj. rewrite (Hbits j Hj).
    destruct (Z.eqb_spec j (linear st x y)) as [->|Hne].
    + destruct (Z.ltb_spec (linear st x y) (linear st x y)); [lia|].
      destruct (Z.ltb_spec (linear st x y) (linear st x y + 1)); [|lia].
      rewrite Hnew, Hrule in *.
      destruct (next_cell_bit (cell st (buffer st) x y) count); lia.
    + destruct (Z.ltb_spec j (linear st x y)),
        (Z.ltb_spec j (linear st x y + 1)); try lia; reflexivity.
Qed.

Lemma done_to_start st :
  0 <= buffer_size st -> 8 * buffer_size st <= 2 ^ 64 ->
  done_to st 0 (replicate (Z.to_nat (buffer_size st)) 0).
Proof.
  intros Hsize Hcap. split; [|split].
  - split; [|assumption]. rewrite length_replicate. lia.
  - apply Forall_replicate. unfold is_byte. lia.
  - intros j Hj. rewrite peek_zeros.
    destruct (Z.ltb_spec j 0); [lia|reflexivity].
Qed.

(** The two loops leave every cell of the full rows in its next state and
    every other bit of the scratch buffer clear. *)
Lemma step_life_loops st scratch :
  grid_ok st -> sized st (buffer st) ->
  done_to st 0 scratch ->
  exists scratch',
    for_loop (Z.to_nat (rows st)) 0
      (fun y => for_loop (Z.to_nat (buffer_width st)) 0
                  (fun x => life_cell st x y)) scratch = Ok scratch'
    /\ done_to st (rows st * buffer_width st) scratch'.
Proof.
  intros (Hw & Hsize & Hcap & Hrows) Hbuf Hstart.
  assert (Hrows0 : 0 <= rows st) by (unfold rows; apply Z.div_pos; lia).
  destruct (for_loop_inv (fun y s => done_to st (y * buffer_width st) s)
              (fun y => for_loop (Z.to_nat (buffer_width st)) 0
                          (fun x => life_cell st x y))
              (Z.to_nat (rows st)) 0 scratch) as [scratch' [Hloop Hend]].
  - exact Hstart.
  - intros y s Hy Hs.
    destruct (for_loop_inv (fun x s => done_to st (linear st x y) s)
                (fun x => life_cell st x y)
                (Z.to_nat (buffer_width st)) 0 s) as [s' [Hin Hrow]].
    + unfold linear. rewrite Z.add_0_r. exact Hs.
    + intros x t Hx Ht.
      destruct (life_cell_step st x y t Hbuf ltac:(lia) ltac:(lia) Ht)
        as [t' [Hcell Ht']].
      exists t'. split; [exact Hcell|].
      replace (linear st (x + 1) y) with (linear st x y + 1)
        by (unfold linear; lia).
      exact Ht'.
    + exists s'. split; [exact Hin|].
      replace ((y + 1) * buffer_width st)
        with (linear st (0 + Z.of_nat (Z.to_nat (buffer_width st))) y)
        by (unfold linear; lia).
      exact Hrow.
  - exists scratch'. split; [exact Hloop|].
    replace (rows st * buffer_width st)
      with ((0 + Z.of_nat (Z.to_nat (rows st))) * buffer_width st) by lia.
    exact Hend.
Qed.

(** [step_life] returns; the new buffer is the scratch buffer, and each of
    its bits is the next state of its cell, or 0 below the full rows. *)
Lemma step_life_spec st :
  grid_ok st -> sized st (buffer st) -> life_ready st ->
  exists scratch,
    step_life st = Ok (set_buffers st scratch scratch)
    /\ sized st scratch /\ Forall is_byte scratch
    /\ forall x y, in_range st x y ->
         getbit st scratch x y
         = Ok (if y <? rows st then next_on (cell st (buffer st)) x y else 0).
Proof.
  intros Hgrid Hbuf Hready.
  pose proof Hgrid as (Hw & Hsize & Hcap & Hrows).
  assert (Hrows0 : 0 <= rows st) by (unfold rows; apply Z.div_pos; lia).
  unfold step_life.
  destruct (Z.eqb_spec (buffer_width st) 0); [lia|].
  rewrite (Z.mul_comm (buffer_size st) 8).
  rewrite (to_size_small (8 * buffer_size st)) by lia.
  fold (rows st). rewrite (to_int_small (rows st))
    by (unfold is_int; unfold INT_MAX in Hrows; lia).
  assert (Hset : memset match life_buffer st with
                        | Some old => old
                        | None => malloc (buffer_size st)
                        end 0 (buffer_size st)
                 = Ok (replicate (Z.to_nat (buffer_size st)) 0)).
  { apply memset_zero. unfold life_ready in Hready.
    destruct (life_buffer st); [exact Hready|].
    unfold malloc. rewrite length_replicate. lia. }
  rewrite Hset. simpl.
  destruct (step_life_loops st _ Hgrid Hbuf
              (done_to_start st Hsize ltac:(lia)))
    as [scratch [-> (Hsz & Hbytes & Hbits)]]. simpl.
  rewrite memcpy_whole
    by (destruct Hbuf as [Hb _], Hsz as [Hs _]; assumption). simpl.
  exists scratch. split; [reflexivity|]. split; [assumption|].
  split; [assumption|].
  intros x y Hin. rewrite getbit_in_range by assumption.
  rewrite (Hbits _ (linear_bounds _ _ _ Hin)).
  destruct Hin as (Hx & Hy & _).
  destruct (linear_div_mod st x y Hx) as [Hmod Hdiv].
  unfold evolve. rewrite Hmod, Hdiv.
  destruct (Z.ltb_spec (linear st x y) (rows st * buffer_width st)),
    (Z.ltb_spec y (rows st)); try reflexivity; unfold linear in *; nia.
Qed.

(** ** Patterns *)

Lemma classic_in_range st x y : in_range st x y \/ ~ in_range st x y.
Proof.
  unfold in_range.
  destruct (Z_le_dec 0 x), (Z_lt_dec x (buffer_width st)), (Z_le_dec 0 y),
    (Z_lt_dec (linear st x y / 8) (buffer_size st)); (left; lia) || (right; lia).
Qed.

(** Around a buffer that shows [pattern], every read of [step_life] --
    one column or one row outside the grid included -- gives the pattern. *)
Lemma cell_of_pattern st buf pattern x y :
  grid_ok st -> sized st buf -> shows st buf pattern ->
  (forall x y, pattern x y = true -> in_range st x y) ->
  -1 <= x <= buffer_width st -> -1 <= y <= rows st ->
  cell st buf x y = Z.b2z (pattern x y).
Proof.
  intros (Hw & Hsize & Hcap & Hrows) Hsz Hshows Hsupp Hx Hy.
  unfold INT_MAX in *.
  destruct (classic_in_range st x y) as [Hin|Hout].
  - unfold cell. rewrite (Hshows x y Hin). reflexivity.
  - assert (Hdead : pattern x y = false).
    { destruct (pattern x y) eqn:Hp; [|reflexivity].
      destruct (Hout (Hsupp x y Hp)). }
    rewrite Hdead. unfold cell.
    rewrite getbit_outside; [reflexivity|].
    destruct (Z_lt_le_dec x 0); [auto|].
    rewrite (to_size_small x) by lia.
    destruct (Z_lt_le_dec x (buffer_width st)); [|auto].
    destruct (Z_lt_le_dec y 0); [auto|].
    right; right; right.
    assert (Hk : linear st x y < 2 ^ 64).
    { unfold linear.
      assert (y * buffer_width st <= rows st * buffer_width st)
        by (apply Z.mul_le_mono_nonneg_r; lia).
      pose proof (Z.mul_div_le (8 * buffer_size st) (buffer_width st)
                    ltac:(lia)).
      unfold rows in *. lia. }
    rewrite bit_index_linear by lia.
    unfold in_range in Hout. lia.
Qed.

(** Two buffers of bytes that read the same at every coordinate are the
    same buffer. *)
Lemma buffer_ext st b1 b2 :
  0 < buffer_width st -> sized st b1 -> sized st b2 ->
  Forall is_byte b1 -> Forall is_byte b2 ->
  (forall x y, in_range st x y -> getbit st b1 x y = getbit st b2 x y) ->
  b1 = b2.
Proof.
  intros Hw Hs1 Hs2 Hb1 Hb2 Hsame. apply list_eq. intros i.
  destruct (b1 !! i) as [v1|] eqn:H1.
  - pose proof (lookup_lt_Some _ _ _ H1) as Hi.
    destruct (lookup_lt_is_Some_2 b2 i) as [v2 H2].
    { destruct Hs1 as [L1 _], Hs2 as [L2 _]. lia. }
    rewrite H2. f_equal.
    pose proof (Forall_lookup_1 _ _ _ _ Hb1 H1) as R1.
    pose proof (Forall_lookup_1 _ _ _ _ Hb2 H2) as R2.
    unfold is_byte in *.
    apply Z.bits_inj'. intros n Hn.
    destruct (Z_lt_le_dec n 8) as [Hlow|Hhigh].
    + set (j := if negb (reverse_byte st =? 0) then n else 7 - n).
      set (k := 8 * Z.of_nat i + j).
      assert (Hj : 0 <= j < 8) by (unfold j; destruct (negb _); lia).
      assert (Hk8 : k / 8 = Z.of_nat i /\ k mod 8 = j).
      { unfold k. rewrite Z.add_comm, Z.mul_comm.
        rewrite Z.div_add, Z.mod_add by lia.
        rewrite Z.div_small, Z.mod_small by lia. lia. }
      assert (Hshift : byte_shift st k = n).
      { unfold byte_shift, to_u8. destruct Hk8 as [_ ->]. unfold j.
        destruct (negb (reverse_byte st =? 0));
          rewrite Z.mod_small by lia; lia. }
      assert (Hin : in_range st (k mod buffer_width st) (k / buffer_width st)).
      { pose proof (Z.mod_pos_bound k (buffer_width st) Hw).
        split; [lia|]. split; [apply Z.div_pos; lia|].
        unfold linear.
        replace (k / buffer_width st * buffer_width st + k mod buffer_width st)
          with k by (pose proof (Z.div_mod k (buffer_width st)); lia).
        destruct Hk8 as [-> _]. destruct Hs1 as [<- _]. lia. }
      pose proof (Hsame _ _ Hin) as Heq.
      rewrite !getbit_in_range in Heq by assumption.
      assert (Hlin : linear st (k mod buffer_width st) (k / buffer_width st) = k).
      { unfold linear. pose proof (Z.div_mod k (buffer_width st)). lia. }
      rewrite Hlin in Heq. unfold peek in Heq.
      destruct Hk8 as [Hdiv _]. rewrite Hdiv, Nat2Z.id, H1, H2, Hshift in Heq.
      simpl in Heq. injection Heq as Heq.
      destruct (Z.testbit v1 n), (Z.testbit v2 n); simpl in Heq;
        (reflexivity || discriminate).
    + rewrite <- (Z.mod_small v1 (2 ^ 8)), <- (Z.mod_small v2 (2 ^ 8))
        by (change (2 ^ 8) with 256; lia).
      rewrite !Z.mod_pow2_bits_high by lia. reflexivity.
  - apply lookup_ge_None in H1. symmetry. apply lookup_ge_None.
    destruct Hs1 as [L1 _], Hs2 as [L2 _]. lia.
Qed.

(** One generation, read off patterns: when the rule turns [pattern] into
    [pattern'] on the full rows, [step_life] turns a buffer that shows the
    one into a buffer that shows the other. *)
Lemma step_life_pattern st pattern pattern' :
  grid_ok st -> sized st (buffer st) -> life_ready st ->
  shows st (buffer st) pattern ->
  (forall x y, pattern x y = true -> in_range st x y) ->
  (forall x y, pattern' x y = true -> y < rows st) ->
  (forall x y, next_on (fun x y => Z.b2z (pattern x y)) x y
               = Z.b2z (pattern' x y)) ->
  exists scratch,
    step_life st = Ok (set_buffers st scratch scratch)
    /\ sized st scratch /\ Forall is_byte scratch
    /\ shows st scratch pattern'.
Proof.
  intros Hgrid Hbuf Hready Hshows Hsupp Hsupp' Hrule.
  destruct (step_life_spec st Hgrid Hbuf Hready)
    as (scratch & Hstep & Hsz & Hbytes & Hbits).
  exists scratch. split; [exact Hstep|]. split; [exact Hsz|].
  split; [exact Hbytes|].
  intros x y Hin. rewrite (Hbits x y Hin). f_equal.
  destruct (Z.ltb_spec y (rows st)) as [Hy|Hy].
  - rewrite <- Hrule. unfold next_on.
    destruct Hin as (Hx & Hy0 & _).
    rewrite !(cell_of_pattern st (buffer st) pattern)
      by (assumption || lia).
    reflexivity.
  - destruct (pattern' x y) eqn:Hp; [|reflexivity].
    apply Hsupp' in Hp. lia.
Qed.

(** Settles every comparison of the goal that the context decides. *)
Ltac settle :=
  repeat match goal with
  | |- context [Z.eqb ?a ?b] =>
      first [ replace (Z.eqb a b) with true by (symmetry; apply Z.eqb_eq; lia)
            | replace (Z.eqb a b) with false by (symmetry; apply Z.eqb_neq; lia) ]
  | |- context [Z.leb ?a ?b] =>
      first [ replace (Z.leb a b) with true by (symmetry; apply Z.leb_le; lia)
            | replace (Z.leb a b) with false by (symmetry; apply Z.leb_gt; lia) ]
  end;
  reflexivity.

Ltac around x x0 :=
  assert (x < x0 - 2 \/ x = x0 - 2 \/ x = x0 - 1 \/ x = x0 \/ x = x0 + 1
          \/ x = x0 + 2 \/ x0 + 2 < x) as [?|[?|[?|[?|[?|[?|?]]]]]] by lia.

(** The rule on the patterns of the claim. *)
Lemma horizontal_next x0 y0 x y :
  next_on (fun x y => Z.b2z (horizontal x0 y0 x y)) x y
  = Z.b2z (vertical x0 y0 x y).
Proof.
  unfold next_on, next_cell, horizontal, vertical.
  around x x0; around y y0; settle.
Qed.

Lemma vertical_next x0 y0 x y :
  next_on (fun x y => Z.b2z (vertical x0 y0 x y)) x y
  = Z.b2z (horizontal x0 y0 x y).
Proof.
  unfold next_on, next_cell, horizontal, vertical.
  around x x0; around y y0; settle.
Qed.

Lemma lone_next x0 y0 x y :
  next_on (fun x y => Z.b2z (lone x0 y0 x y)) x y = Z.b2z (nothing x y).
Proof.
  unfold next_on, next_cell, lone, nothing.
  around x x0; around y y0; settle.
Qed.

Lemma nothing_next x y :
  next_on (fun x y => Z.b2z (nothing x y)) x y = Z.b2z (nothing x y).
Proof. reflexivity. Qed.

Lemma zeros_show_nothing st :
  0 <= buffer_size st -> 8 * buffer_size st <= 2 ^ 64 ->
  shows st (replicate (Z.to_nat (buffer_size st)) 0) nothing.
Proof.
  intros Hsize Hcap x y Hin.
  destruct (done_to_start st Hsize Hcap) as (Hsz & _ & _).
  rewrite getbit_in_range by assumption. rewrite peek_zeros. reflexivity.
Qed.

(** A buffer that shows no live cell is the all-zero buffer. *)
Lemma nothing_is_zeros st buf :
  0 < buffer_width st -> sized st buf -> Forall is_byte buf ->
  shows st buf nothing -> buf = replicate (Z.to_nat (buffer_size st)) 0.
Proof.
  intros Hw Hsz Hbytes Hshows.
  assert (Hsize : 0 <= buffer_size st) by (destruct Hsz as [<- _]; lia).
  destruct (done_to_start st Hsize ltac:(destruct Hsz; assumption))
    as (Hsz0 & Hbytes0 & _).
  apply (buffer_ext st); try assumption.
  intros x y Hin. rewrite (Hshows x y Hin).
  symmetry. apply zeros_show_nothing; [assumption| |assumption].
  destruct Hsz; assumption.
Qed.

(** The blinker: a row of three becomes a column of three, and the next
    generation gives the very buffer back. *)
Lemma blinker_period_two st x0 y0 :
  grid_ok st -> sized st (buffer st) -> Forall is_byte (buffer st) ->
  life_ready st ->
  1 <= x0 -> x0 + 1 < buffer_width st -> 1 <= y0 -> y0 + 1 < rows st ->
  shows st (buffer st) (horizontal x0 y0) ->
  exists st1 st2,
    step_life st = Ok st1
    /\ shows st1 (buffer st1) (vertical x0 y0)
    /\ step_life st1 = Ok st2
    /\ buffer st2 = buffer st.
Proof.
  intros Hgrid Hbuf Hbytes Hready Hx0 Hx1 Hy0 Hy1 Hshows.
  destruct (step_life_pattern st (horizontal x0 y0) (vertical x0 y0))
    as (s1 & Hstep1 & Hsz1 & Hbytes1 & Hshows1); try assumption.
  { intros x y Hp. unfold horizontal in Hp.
    apply andb_prop in Hp as [Hp Hxr]. apply andb_prop in Hp as [Hy Hxl].
    apply grid_in_range; lia. }
  { intros x y Hp. unfold vertical in Hp.
    apply andb_prop in Hp as [_ Hy]. lia. }
  { apply horizontal_next. }
  set (st1 := set_buffers st s1 s1) in *.
  destruct (step_life_pattern st1 (vertical x0 y0) (horizontal x0 y0))
    as (s2 & Hstep2 & Hsz2 & Hbytes2 & Hshows2).
  - exact Hgrid.
  - exact Hsz1.
  - destruct Hsz1 as [Hlen _]. exact Hlen.
  - exact Hshows1.
  - intros x y Hp. unfold vertical in Hp.
    apply andb_prop in Hp as [Hp Hyr]. apply andb_prop in Hp as [Hx Hyl].
    apply (grid_in_range st); lia.
  - intros x y Hp. unfold horizontal in Hp.
    apply andb_prop in Hp as [Hp _]. apply andb_prop in Hp as [Hy _].
    change (rows st1) with (rows st). lia.
  - apply vertical_next.
  - exists st1, (set_buffers st1 s2 s2).
    split; [exact Hstep1|]. split; [exact Hshows1|].
    split; [exact Hstep2|]. simpl.
    destruct Hgrid as (Hw & _).
    apply (buffer_ext st); try assumption; try lia.
    intros x y Hin. rewrite (Hshows x y Hin). apply Hshows2. exact Hin.
Qed.

(** A live cell with no neighbour: the next buffer is all zero. *)
Lemma lone_cell_dies st x0 y0 :
  grid_ok st -> sized st (buffer st) -> life_ready st ->
  in_range st x0 y0 -> shows st (buffer st) (lone x0 y0) ->
  exists st1,
    step_life st = Ok st1
    /\ buffer st1 = replicate (Z.to_nat (buffer_size st)) 0.
Proof.
  intros Hgrid Hbuf Hready Hin Hshows.
  destruct (step_life_pattern st (lone x0 y0) nothing)
    as (s1 & Hstep1 & Hsz1 & Hbytes1 & Hshows1); try assumption.
  { intros x y Hp. unfold lone in Hp. apply andb_prop in Hp as [Hx Hy].
    apply Z.eqb_eq in Hx, Hy. subst. exact Hin. }
  { discriminate. }
  { apply lone_next. }
  exists (set_buffers st s1 s1). split; [exact Hstep1|]. simpl.
  destruct Hgrid as (Hw & _). apply nothing_is_zeros; (assumption || lia).
Qed.

(** The empty buffer stays empty, generation after generation. *)
Lemma empty_stays_empty n : forall st,
  grid_ok st -> life_ready st ->
  buffer st = replicate (Z.to_nat (buffer_size st)) 0 ->
  exists st',
    steps n st = Ok st'
    /\ buffer st' = replicate (Z.to_nat (buffer_size st)) 0.
Proof.
  induction n as [|n IH]; intros st Hgrid Hready Hzero; simpl.
  - exists st. auto.
  - pose proof Hgrid as (Hw & Hsize & Hcap & _).
    destruct (done_to_start st Hsize ltac:(lia)) as (Hsz & _ & _).
    destruct (step_life_pattern st nothing nothing)
      as (s1 & Hstep1 & Hsz1 & Hbytes1 & Hshows1); try assumption.
    { rewrite Hzero. exact Hsz. }
    { rewrite Hzero. apply zeros_show_nothing; lia. }
    { discriminate. }
    { discriminate. }
    { apply nothing_next. }
    rewrite Hstep1. simpl.
    apply (IH (set_buffers st s1 s1)).
    + exact Hgrid.
    + destruct Hsz1 as [Hlen _]. exact Hlen.
    + simpl. apply nothing_is_zeros; (assumption || lia).
Qed.

(** On 8 columns by 5 rows, in both bit orders. *)
Example blinker_8x5 :
  (st ← step_life (showing 0 8 [0; 0; 56; 0; 0]); Ok (buffer st))
    = Ok [0; 16; 16; 16; 0]
  /\ (st ← steps 2 (showing 0 8 [0; 0; 56; 0; 0]); Ok (buffer st))
    = Ok [0; 0; 56; 0; 0]
  /\ (st ← step_life (showing 1 8 [0; 0; 28; 0; 0]); Ok (buffer st))
    = Ok [0; 8; 8; 8; 0]
  /\ (st ← steps 2 (showing 1 8 [0; 0; 28; 0; 0]); Ok (buffer st))
    = Ok [0; 0; 28; 0; 0]
  /\ (st ← step_life (showing 0 8 [0; 0; 16; 0; 0]); Ok (buffer st))
    = Ok [0; 0; 0; 0; 0]
  /\ (st ← steps 7 (showing 0 8 [0; 0; 0; 0; 0]); Ok (buffer st))
    = Ok [0; 0; 0; 0; 0].
Proof. repeat split; vm_compute; reflexivity. Qed.

Lemma cell_outside st buf x y :
  x < 0 \/ buffer_width st <= to_size x \/ y < 0
  \/ buffer_size st <= bit_index st x y / 8 ->
  cell st buf x y = 0.
Proof. intros H. unfold cell. rewrite getbit_outside by exact H. reflexivity. Qed.

(** With nothing set behind the last full row, the reads around a cell of
    the grid see the grid, and dead cells past its four edges. *)
Lemma cell_on_grid st buf x y :
  grid_ok st -> tail_clear st buf ->
  -1 <= x <= buffer_width st -> -1 <= y <= rows st ->
  cell st buf x y = on_grid st buf x y.
Proof.
  intros (Hw & _) Htail Hx Hy. unfold on_grid, INT_MAX in *.
  destruct (Z.leb_spec 0 x) as [Hx0|Hx0]; simpl;
    [|apply cell_outside; left; lia].
  destruct (Z.ltb_spec x (buffer_width st)) as [Hx1|Hx1]; simpl.
  - destruct (Z.leb_spec 0 y) as [Hy0|Hy0]; simpl;
      [|apply cell_outside; right; right; left; lia].
    destruct (Z.ltb_spec y (rows st)) as [Hy1|Hy1]; [reflexivity|].
    replace y with (rows st) by lia. apply Htail. lia.
  - apply cell_outside. right; left. rewrite to_size_small by lia. exact Hx1.
Qed.

Lemma next_on_grid st buf x y :
  grid_ok st -> tail_clear st buf ->
  0 <= x < buffer_width st -> 0 <= y < rows st ->
  next_on (cell st buf) x y = next_on (on_grid st buf) x y.
Proof.
  intros Hgrid Htail Hx Hy. unfold next_on.
  rewrite !(cell_on_grid st buf) by (assumption || lia). reflexivity.
Qed.

(** A step leaves nothing set behind the last full row. *)
Lemma step_clears_tail st scratch :
  grid_ok st -> sized st scratch ->
  (forall x y, in_range st x y ->
     getbit st scratch x y
     = Ok (if y <? rows st then next_on (cell st (buffer st)) x y else 0)) ->
  tail_clear st scratch.
Proof.
  intros (Hw & Hsize & Hcap & Hrows) Hsz Hbits x Hx. unfold cell.
  assert (Hrows0 : 0 <= rows st) by (unfold rows; apply Z.div_pos; lia).
  destruct (Z_lt_le_dec (linear st x (rows st) / 8) (buffer_size st))
    as [Hin|Hout].
  - rewrite (Hbits x (rows st)) by (unfold in_range; auto).
    rewrite Z.ltb_irrefl. reflexivity.
  - rewrite getbit_past_capacity; [reflexivity | exact Hx | exact Hrows0 | | exact Hout].
    unfold linear, rows, INT_MAX in *.
    pose proof (Z.mul_div_le (8 * buffer_size st) (buffer_width st) ltac:(lia)).
    nia.
Qed.

(** C3, as the source has it: [step_life] is the Game of Life on the full
    rows of the buffer with everything outside them dead, as long as no
    bit is set behind the last full row (none is when the buffer holds
    whole rows only, and none is after a step): it returns, every cell of
    the grid then reads as the rule makes it from the grid around it,
    where a live cell stays with 2 or 3 live neighbours and a dead one is
    born with 3, and nothing is set behind the last full row afterwards.
    From a buffer whose only live cells are three in a row (the row and the
    column through its centre lying on the grid), one step gives the buffer
    whose only live cells are the three in a column, and a second step
    gives the first buffer back; from a buffer with a single live cell one
    step gives the all-zero buffer; and the all-zero buffer is still all
    zero after any number of steps. *)
Theorem step_life_game_of_life :
  (forall st,
     grid_ok st -> sized st (buffer st) -> life_ready st ->
     tail_clear st (buffer st) ->
     exists st1,
       step_life st = Ok st1
       /\ (forall x y, 0 <= x < buffer_width st -> 0 <= y < rows st ->
             getbit st1 (buffer st1) x y
             = Ok (next_on (on_grid st (buffer st)) x y))
       /\ tail_clear st1 (buffer st1))
  /\ (forall st x0 y0,
     grid_ok st -> sized st (buffer st) -> Forall is_byte (buffer st) ->
     life_ready st ->
     1 <= x0 -> x0 + 1 < buffer_width st -> 1 <= y0 -> y0 + 1 < rows st ->
     shows st (buffer st) (horizontal x0 y0) ->
     exists st1 st2,
       step_life st = Ok st1
       /\ shows st1 (buffer st1) (vertical x0 y0)
       /\ step_life st1 = Ok st2
       /\ buffer st2 = buffer st)
  /\ (forall st x0 y0,
        grid_ok st -> sized st (buffer st) -> life_ready st ->
        in_range st x0 y0 -> shows st (buffer st) (lone x0 y0) ->
        exists st1,
          step_life st = Ok st1
          /\ buffer st1 = replicate (Z.to_nat (buffer_size st)) 0)
  /\ (forall st n,
        grid_ok st -> life_ready st ->
        buffer st = replicate (Z.to_nat (buffer_size st)) 0 ->
        exists st',
          steps n st = Ok st'
          /\ buffer st' = replicate (Z.to_nat (buffer_size st)) 0).
Proof.
  split; [|split; [|split]].
  - intros st Hgrid Hbuf Hready Htail.
    destruct (step_life_spec st Hgrid Hbuf Hready)
      as (scratch & Hstep & Hsz & _ & Hbits).
    exists (set_buffers st scratch scratch). split; [exact Hstep|]. split.
    + intros x y Hx Hy. simpl buffer.
      change (getbit (set_buffers st scratch scratch) scratch x y)
        with (getbit st scratch x y).
      rewrite (Hbits x y (grid_in_range st x y Hx Hy)).
      destruct (Z.ltb_spec y (rows st)); [|lia].
      rewrite (next_on_grid st (buffer st) x y) by assumption. reflexivity.
    + exact (step_clears_tail st scratch Hgrid Hsz Hbits).
  - exact blinker_period_two.
  - exact lone_cell_dies.
  - intros st n. apply empty_stays_empty.
Qed.

(** Reads a concrete 8-by-5 buffer at each of its 40 coordinates. *)
Ltac scan_8x5 :=
  let x := fresh "x" in let y := fresh "y" in
  let Hx := fresh "Hx" in let Hy := fresh "Hy" in let Hb := fresh "Hb" in
  intros x y (Hx & Hy & Hb);
  unfold linear in Hb; simpl in Hx, Hb;
  assert (y < 5) by (revert Hb; Z.div_mod_to_equations; lia);
  assert (x = 0 \/ x = 1 \/ x = 2 \/ x = 3 \/ x = 4 \/ x = 5 \/ x = 6 \/ x = 7)
    as [->|[->|[->|[->|[->|[->|[->| ->]]]]]]] by lia;
  assert (y = 0 \/ y = 1 \/ y = 2 \/ y = 3 \/ y = 4)
    as [->|[->|[->|[->| ->]]]] by lia;
  reflexivity.

Ltac concrete := repeat split; vm_compute; (reflexivity || discriminate).

Lemma step_life_game_of_life_witness :
  (exists st1,
     step_life (showing 0 8 [0; 0; 56; 0; 0]) = Ok st1
     /\ (forall x y, 0 <= x < 8 -> 0 <= y < 5 ->
           getbit st1 (buffer st1) x y
           = Ok (next_on (on_grid (showing 0 8 [0; 0; 56; 0; 0])
                                  [0; 0; 56; 0; 0]) x y))
     /\ tail_clear st1 (buffer st1))
  /\ (exists st1 st2,
     step_life (showing 0 8 [0; 0; 56; 0; 0]) = Ok st1
     /\ shows st1 (buffer st1) (vertical 3 2)
     /\ step_life st1 = Ok st2
     /\ buffer st2 = [0; 0; 56; 0; 0])
  /\ (exists st1,
        step_life (showing 1 8 [0; 0; 16; 0; 0]) = Ok st1
        /\ buffer st1 = [0; 0; 0; 0; 0])
  /\ (exists st',
        steps 3 (showing 0 8 [0; 0; 0; 0; 0]) = Ok st'
        /\ buffer st' = [0; 0; 0; 0; 0]).
Proof.
  destruct step_life_game_of_life as (Hrule & Hblinker & Hlone & Hempty).
  split; [|split; [|split]].
  - apply (Hrule (showing 0 8 [0; 0; 56; 0; 0]));
      [concrete | concrete | concrete |].
    intros x Hx. simpl in Hx.
    assert (x = 0 \/ x = 1 \/ x = 2 \/ x = 3 \/ x = 4 \/ x = 5 \/ x = 6 \/ x = 7)
      as [->|[->|[->|[->|[->|[->|[->| ->]]]]]]] by lia; reflexivity.
  - apply (Hblinker (showing 0 8 [0; 0; 56; 0; 0]) 3 2);
      [concrete | concrete | | concrete | lia | concrete | lia | concrete
      | scan_8x5].
    repeat constructor; unfold is_byte; lia.
  - apply (Hlone (showing 1 8 [0; 0; 16; 0; 0]) 4 2);
      [concrete | concrete | concrete | concrete | scan_8x5].
  - apply (Hempty (showing 0 8 [0; 0; 0; 0; 0]) 3%nat); concrete.
Defined.

(** C3 as the claim has it fails when bits are set behind the last full
    row. Three bytes at 16 bits to the row are one full row and half of a
    second one; with the row empty and the first three bits of the half
    set, every cell of the grid is dead and a dead border keeps the cell
    at column 1 dead, but the step counts the three bits below it as its
    neighbours and brings it to life. *)
Lemma step_life_counts_partial_row :
  rows (showing 0 16 [0; 0; 224]) = 1
  /\ next_on (on_grid (showing 0 16 [0; 0; 224]) [0; 0; 224]) 1 0 = 0
  /\ exists st1,
       step_life (showing 0 16 [0; 0; 224]) = Ok st1
       /\ buffer st1 = [64; 0; 0]
       /\ getbit st1 (buffer st1) 1 0 = Ok 1.
Proof.
  split; [reflexivity|]. split; [reflexivity|].
  eexists. split; [vm_compute; reflexivity|].
  split; reflexivity.
Qed.

(** * Further properties *)

(** ** What update loads and draws *)

Lemma mapM_inv {A B : Type} (f : A -> result B) (l : list A) :
  forall ys, mapM f l = Ok ys -> Forall2 (fun x y => f x = Ok y) l ys.
Proof.
  induction l as [|x l IH]; simpl; intros ys H.
  - injection H as <-. constructor.
  - destruct (f x) as [y|] eqn:Hy; [|discriminate]. simpl in H.
    destruct (mapM f l) as [k|] eqn:Hk; [|discriminate]. simpl in H.
    injection H as <-. constructor; [exact Hy|]. apply IH. reflexivity.
Qed.

Lemma realloc_length e buf n tmp :
  0 <= n -> realloc e buf n = Some tmp -> Z.of_nat (length tmp) = n.
Proof.
  intros Hn. unfold realloc.
  destruct ((n =? 0) && negb (is_null buf)); [discriminate|].
  destruct (realloc_ok e); [|discriminate].
  intros [= <-]. rewrite length_app, length_take, length_replicate. lia.
Qed.

(** What the guarded block leaves in the buffer. *)
Lemma fetch_buffer e st term_w term_h st1 :
  Z.of_nat (length (buffer st)) = buffer_size st ->
  fetch e st term_w term_h = Ok st1 ->
  buffer st1 = file_window e (offset st1) (buffer_size st1)
  /\ Z.of_nat (length (buffer st1)) = buffer_size st1.
Proof.
  intros Hlen. unfold fetch.
  pose proof (window_size_range st (settle_width st term_w) term_h) as Hrange.
  set (size := window_size st (settle_width st term_w) term_h) in *.
  destruct (Z.eqb_spec size (buffer_size st)) as [Hsame|Hdiff]; simpl.
  - destruct (clamp_offset st (buffer_size st) <? 0); [discriminate|].
    set (data := read_file e (clamp_offset st (buffer_size st)) (buffer_size st)).
    destruct (Z.eqb_spec (Z.of_nat (length data)) (to_off (buffer_size st)))
      as [Hread|]; [|discriminate].
    cbn [negb]. intros [= <-]. cbn [buffer buffer_size offset].
    assert (to_off (buffer_size st) = buffer_size st)
      by (rewrite <- Hsame in *; revert Hread; machine).
    rewrite drop_ge by (clear - Hlen Hread H; lia).
    rewrite app_nil_r. split; [reflexivity|lia].
  - destruct (realloc e (buffer st) size) as [tmp|] eqn:Hre;
      [|destruct (free_stale (buffer st) size); discriminate].
    simpl. pose proof (realloc_length e (buffer st) size tmp ltac:(lia) Hre) as Htmp.
    destruct (clamp_offset st size <? 0); [discriminate|].
    set (data := read_file e (clamp_offset st size) size).
    destruct (Z.eqb_spec (Z.of_nat (length data)) (to_off size))
      as [Hread|]; [|discriminate].
    cbn [negb]. intros [= <-]. cbn [buffer buffer_size offset].
    assert (to_off size = size) by (revert Hread; machine).
    rewrite drop_ge by (clear - Htmp Hread H; lia).
    rewrite app_nil_r. split; [reflexivity|lia].
Qed.

(** X1: a refetch leaves in the buffer exactly the [buffer_size] bytes of
    the file that start at the clamped offset, and logs one seek to that
    offset followed by one read of that many bytes. *)
Theorem update_loads_file_window e st term_w term_h st' frame :
  term e = Some (term_w, term_h) ->
  Z.of_nat (length (buffer st)) = buffer_size st ->
  stale st term_w term_h = true ->
  update e st = Ok (st', frame) ->
  buffer st' = file_window e (offset st') (buffer_size st')
  /\ Z.of_nat (length (buffer st')) = buffer_size st'
  /\ io_log st' = Read (buffer_size st') :: Seek (offset st') :: io_log st.
Proof.
  intros Hterm Hlen Hstale Hupd.
  destruct (update_inv _ _ _ _ Hupd) as (tw & th & st1 & Hterm' & Hst1 & -> & _).
  rewrite Hterm in Hterm'. injection Hterm' as <- <-. rewrite Hstale in Hst1.
  destruct (fetch_buffer _ _ _ _ _ Hlen Hst1) as [Hbuf Hlen1].
  destruct (fetch_inv _ _ _ _ _ Hst1) as (_ & _ & _ & _ & _ & _ & _ & _ & Hlog & _).
  simpl. auto.
Qed.

Lemma update_loads_file_window_witness :
  exists st' frame,
    update (numbered_file 100 80 1) (opened 64 90 100) = Ok (st', frame)
    /\ buffer st' = seqZ 76 24
    /\ io_log st' = [Read 24; Seek 76].
Proof.
  assert (Hrun : {r | update (numbered_file 100 80 1) (opened 64 90 100) = Ok r})
    by (eexists; vm_compute; reflexivity).
  destruct Hrun as [[st' frame] Hupd].
  destruct (update_loads_file_window (numbered_file 100 80 1)
              (opened 64 90 100) 80 1 st' frame
              eq_refl eq_refl eq_refl Hupd) as (Hbuf & _ & Hlog).
  exists st', frame. split; [exact Hupd|].
  vm_compute in Hupd. injection Hupd as <- _.
  split; [exact Hbuf | exact Hlog].
Defined.

(** The clamp, spelled out. *)
Lemma clamp_offset_spec st size :
  0 <= fd_size st < 2 ^ 63 -> is_off (offset st) -> 0 <= size <= fd_size st ->
  clamp_offset st size
  = if offset st <? - size then fd_size st - size
    else Z.max 0 (Z.min (offset st) (fd_size st - size)).
Proof.
  intros Hfd Hoff Hsize. unfold clamp_offset.
  rewrite (to_size_small (fd_size st)) by lia.
  rewrite (to_size_small (fd_size st - size)) by lia.
  rewrite (to_off_small (fd_size st - size)) by (unfold is_off; lia).
  destruct (Z.ltb_spec (offset st) (- size)) as [Hlow|Hin].
  - destruct (Z.ltb_spec (fd_size st) (to_size (to_size (offset st) + size)))
      as [_|Hle].
    + destruct (Z.ltb_spec (fd_size st - size) 0); lia.
    + exfalso. revert Hle. machine.
  - destruct (Z.ltb_spec (fd_size st) (to_size (to_size (offset st) + size)))
      as [Hgt|Hle].
    + destruct (Z.ltb_spec (fd_size st - size) 0); [lia|].
      assert (fd_size st - size < offset st) by (revert Hgt; machine). lia.
    + assert (offset st <= fd_size st - size) by (revert Hle; machine).
      destruct (Z.ltb_spec (offset st) 0); lia.
Qed.

(** X2: a refetch moves the offset asked for to the nearest offset at
    which a whole window fits, [max(0, min(offset, fd_size - buffer_size))]
    -- unless it lies more than a window before the start of the file,
    where the unsigned comparison sends it to the last window instead. *)
Theorem update_offset e st term_w term_h st' frame :
  term e = Some (term_w, term_h) ->
  0 <= fd_size st < 2 ^ 63 -> is_off (offset st) ->
  stale st term_w term_h = true ->
  update e st = Ok (st', frame) ->
  offset st'
  = if offset st <? - buffer_size st' then fd_size st - buffer_size st'
    else Z.max 0 (Z.min (offset st) (fd_size st - buffer_size st')).
Proof.
  intros Hterm Hfd Hoff Hstale Hupd.
  destruct (update_inv _ _ _ _ Hupd) as (tw & th & st1 & Hterm' & Hst1 & -> & _).
  rewrite Hterm in Hterm'. injection Hterm' as <- <-. rewrite Hstale in Hst1.
  destruct (fetch_inv _ _ _ _ _ Hst1) as (_ & Hsize & Hoffset & _).
  simpl. rewrite Hoffset. apply clamp_offset_spec; try assumption.
  rewrite Hsize.
  pose proof (window_size_range st (buffer_width st1) term_h).
  pose proof (window_size_capped st (buffer_width st1) term_h Hfd). lia.
Qed.

Lemma update_offset_witness :
  (exists st' frame,
     update (zero_file 100 80 1) (opened 64 (-24) 100) = Ok (st', frame)
     /\ offset st' = 0)
  /\ (exists st' frame,
        update (zero_file 100 80 1) (opened 64 (-25) 100) = Ok (st', frame)
        /\ offset st' = 76).
Proof.
  split.
  - assert (Hrun : {r | update (zero_file 100 80 1) (opened 64 (-24) 100) = Ok r})
      by (eexists; vm_compute; reflexivity).
    destruct Hrun as [[st' frame] Hupd]. exists st', frame.
    split; [exact Hupd|].
    rewrite (update_offset (zero_file 100 80 1) (opened 64 (-24) 100) 80 1
               st' frame eq_refl ltac:(simpl; lia)
               ltac:(unfold is_off; simpl; lia) eq_refl Hupd).
    vm_compute in Hupd. injection Hupd as <- _. reflexivity.
  - assert (Hrun : {r | update (zero_file 100 80 1) (opened 64 (-25) 100) = Ok r})
      by (eexists; vm_compute; reflexivity).
    destruct Hrun as [[st' frame] Hupd]. exists st', frame.
    split; [exact Hupd|].
    rewrite (update_offset (zero_file 100 80 1) (opened 64 (-25) 100) 80 1
               st' frame eq_refl ltac:(simpl; lia)
               ltac:(unfold is_off; simpl; lia) eq_refl Hupd).
    vm_compute in Hupd. injection Hupd as <- _. reflexivity.
Defined.

(** X3: a refetch leaves a width that is a multiple of 8: a width that was
    one already (as [main] demands of [-w]) stays, an unset width becomes
    the largest multiple of 8 that twice the terminal's columns hold. *)
Theorem update_width e st term_w term_h st' frame :
  term e = Some (term_w, term_h) ->
  stale st term_w term_h = true ->
  update e st = Ok (st', frame) ->
  buffer_width st' mod 8 = 0
  /\ (buffer_width st <> 0 -> buffer_width st mod 8 = 0 ->
      buffer_width st' = buffer_width st)
  /\ (buffer_width st = 0 -> 0 <= term_w <= 65535 ->
      buffer_width st' = 8 * (2 * term_w / 8)).
Proof.
  intros Hterm Hstale Hupd.
  destruct (update_inv _ _ _ _ Hupd) as (tw & th & st1 & Hterm' & Hst1 & -> & _).
  rewrite Hterm in Hterm'. injection Hterm' as <- <-. rewrite Hstale in Hst1.
  destruct (fetch_inv _ _ _ _ _ Hst1) as (Hwidth & _).
  simpl. rewrite Hwidth. unfold settle_width.
  split; [|split].
  - set (w := if buffer_width st =? 0 then _ else _).
    destruct (Z.eqb_spec (w mod 8) 0); simpl; [assumption|].
    Z.div_mod_to_equations; lia.
  - intros Hset Hmult. destruct (Z.eqb_spec (buffer_width st) 0); [lia|].
    rewrite Hmult. reflexivity.
  - intros Hunset Htw. rewrite Hunset. simpl.
    rewrite (to_int_small (term_w * 2)) by (unfold is_int; lia).
    rewrite (to_size_small (term_w * 2)) by lia.
    destruct (Z.eqb_spec ((term_w * 2) mod 8) 0); simpl;
      Z.div_mod_to_equations; lia.
Qed.

Lemma update_width_witness :
  exists st' frame,
    update (zero_file 100 83 1) (opened 0 0 100) = Ok (st', frame)
    /\ buffer_width st' = 160.
Proof.
  assert (Hrun : {r | update (zero_file 100 83 1) (opened 0 0 100) = Ok r})
    by (eexists; vm_compute; reflexivity).
  destruct Hrun as [[st' frame] Hupd]. exists st', frame.
  split; [exact Hupd|].
  destruct (update_width (zero_file 100 83 1) (opened 0 0 100) 83 1 st' frame
              eq_refl eq_refl Hupd) as (_ & _ & Hunset).
  rewrite Hunset; [reflexivity | reflexivity | lia].
Defined.

Lemma glyph_in_sextant_chars index c : glyph index = Ok c -> c ∈ sextant_chars.
Proof.
  unfold glyph, load. destruct (index <? 0); [discriminate|].
  destruct (sextant_chars !! Z.to_nat index) eqn:Hc; [|discriminate].
  intros [= <-]. apply list_elem_of_lookup. eauto.
Qed.

Lemma mapM_length {A B : Type} (f : A -> result B) (l : list A) ys :
  mapM f l = Ok ys -> length ys = length l.
Proof.
  intros H. apply mapM_inv in H. symmetry. eapply Forall2_length. exact H.
Qed.

Lemma Forall2_right {A B : Type} (P : A -> B -> Prop) (Q : B -> Prop) l k :
  Forall2 P l k -> (forall x y, P x y -> Q y) -> Forall Q k.
Proof. intros H HPQ. induction H; constructor; eauto. Qed.

(** X4: the frame [update] draws has one row for each terminal row, each
    row has [min(term_w, disp_w)] glyphs, where [disp_w] is
    [buffer_width / 2] as the [int] it is stored in, and each glyph is an
    entry of the glyph table. While [buffer_width / 2] fits an [int] that
    is [min(term_w, buffer_width / 2)] glyphs; past that the conversion
    decides, and a width of 2^32 draws none. *)
Theorem update_frame_shape e st term_w term_h st' frame :
  term e = Some (term_w, term_h) ->
  update e st = Ok (st', frame) ->
  length frame = Z.to_nat term_h
  /\ Forall (fun row =>
       length row = Z.to_nat (Z.min term_w (to_int (buffer_width st' / 2)))
       /\ Forall (fun c => c ∈ sextant_chars) row) frame
  /\ (0 <= buffer_width st' / 2 <= INT_MAX ->
      Forall (fun row =>
        length row = Z.to_nat (Z.min term_w (buffer_width st' / 2))) frame)
  /\ (buffer_width st' = 2 ^ 32 -> Forall (fun row => row = []) frame).
Proof.
  intros Hterm Hupd.
  destruct (update_inv _ _ _ _ Hupd) as (tw & th & st1 & Hterm' & _ & Hst' & Hr).
  rewrite Hterm in Hterm'. injection Hterm' as <- <-.
  unfold render in Hr.
  assert (Hrows : Forall (fun row =>
            length row = Z.to_nat (Z.min term_w (to_int (buffer_width st' / 2)))
            /\ Forall (fun c => c ∈ sextant_chars) row) frame).
  { apply mapM_inv in Hr. refine (Forall2_right _ _ _ _ Hr _).
    intros char_y row Hrow. split.
    - rewrite (mapM_length _ _ _ Hrow), length_seqZ.
      destruct (Z.ltb_spec term_w (to_int (buffer_width st' / 2)));
        f_equal; lia.
    - apply mapM_inv in Hrow. refine (Forall2_right _ _ _ _ Hrow _).
      intros char_x c Hc. unfold render_cell in Hc.
      destruct (cell_index _ _ _ _); [|discriminate]. simpl in Hc.
      apply glyph_in_sextant_chars in Hc. exact Hc. }
  split; [rewrite (mapM_length _ _ _ Hr), length_seqZ; reflexivity|].
  split; [exact Hrows|]. split.
  - intros Hfits. eapply Forall_impl; [exact Hrows|]. intros row [Hlen _].
    rewrite Hlen, (to_int_small (buffer_width st' / 2))
      by (unfold is_int, INT_MAX in *; lia).
    reflexivity.
  - intros Hwide. eapply Forall_impl; [exact Hrows|]. intros row [Hlen _].
    rewrite Hwide in Hlen. change (to_int (2 ^ 32 / 2)) with (- 2 ^ 31) in Hlen.
    apply length_zero_iff_nil. rewrite Hlen. lia.
Qed.

Lemma update_frame_shape_witness :
  exists st' frame,
    update (zero_file 100 80 3) (opened 64 0 100) = Ok (st', frame)
    /\ length frame = 3%nat
    /\ Forall (fun row => length row = 32%nat
                          /\ Forall (fun c => c ∈ sextant_chars) row) frame.
Proof.
  assert (Hrun : {r | update (zero_file 100 80 3) (opened 64 0 100) = Ok r})
    by (eexists; vm_compute; reflexivity).
  destruct Hrun as [[st' frame] Hupd]. exists st', frame.
  split; [exact Hupd|].
  destruct (update_frame_shape (zero_file 100 80 3) (opened 64 0 100) 80 3
              st' frame eq_refl Hupd) as (Hframe & Hrows & _).
  vm_compute in Hupd. injection Hupd as <- _.
  split; [exact Hframe | exact Hrows].
Defined.

Lemma cell_bit st buf x y :
  allocated st buf -> cell st buf x y = 0 \/ cell st buf x y = 1.
Proof.
  intros Halloc. unfold cell.
  destruct (getbit_total st buf x y Halloc) as [b [-> Hb]]. exact Hb.
Qed.

Lemma push_bit_value i b :
  0 <= i <= 127 -> b = 0 \/ b = 1 -> push_bit i b = 2 * i + b.
Proof.
  intros Hi Hb. unfold push_bit, to_u8.
  rewrite lor_bit by (lia || assumption).
  apply Z.mod_small. lia.
Qed.

(** X5: the index of a character cell is the number its six bits spell,
    the top-left bit worth 32, then the top-right, the two of the middle
    row and the two of the bottom row. *)
Theorem cell_index_six_bits st buf off_x char_y :
  allocated st buf ->
  is_int off_x -> is_int (off_x + 1) -> 0 <= char_y <= 65535 ->
  cell_index st buf off_x char_y
  = Ok (six_bits (cell st buf) off_x (char_y * 3)).
Proof.
  intros Halloc Hx Hx1 Hy. unfold cell_index, six_bits.
  rewrite (to_int_small (char_y * 3)) by (unfold is_int; lia).
  rewrite (to_int_small (off_x + 1)) by assumption.
  rewrite (to_int_small (char_y * 3 + 1)) by (unfold is_int; lia).
  rewrite (to_int_small (char_y * 3 + 2)) by (unfold is_int; lia).
  rewrite !(getbit_cell st buf) by assumption. simpl.
  pose proof (cell_bit st buf off_x (char_y * 3) Halloc).
  pose proof (cell_bit st buf (off_x + 1) (char_y * 3) Halloc).
  pose proof (cell_bit st buf off_x (char_y * 3 + 1) Halloc).
  pose proof (cell_bit st buf (off_x + 1) (char_y * 3 + 1) Halloc).
  pose proof (cell_bit st buf off_x (char_y * 3 + 2) Halloc).
  pose proof (cell_bit st buf (off_x + 1) (char_y * 3 + 2) Halloc).
  set (c1 := cell st buf off_x (char_y * 3)) in *.
  set (c2 := cell st buf (off_x + 1) (char_y * 3)) in *.
  set (c3 := cell st buf off_x (char_y * 3 + 1)) in *.
  set (c4 := cell st buf (off_x + 1) (char_y * 3 + 1)) in *.
  set (c5 := cell st buf off_x (char_y * 3 + 2)) in *.
  set (c6 := cell st buf (off_x + 1) (char_y * 3 + 2)) in *.
  rewrite (push_bit_value 0 c1) by (lia || assumption).
  rewrite (push_bit_value _ c2) by (lia || assumption).
  rewrite (push_bit_value _ c3) by (lia || assumption).
  rewrite (push_bit_value _ c4) by (lia || assumption).
  rewrite (push_bit_value _ c5) by (lia || assumption).
  rewrite (push_bit_value _ c6) by (lia || assumption).
  f_equal. lia.
Qed.

Lemma cell_index_six_bits_witness :
  cell_index (showing 0 8 [128; 64; 192]) [128; 64; 192] 0 0 = Ok 39.
Proof.
  rewrite (cell_index_six_bits (showing 0 8 [128; 64; 192]) [128; 64; 192] 0 0).
  - reflexivity.
  - unfold allocated. simpl. lia.
  - unfold is_int. lia.
  - unfold is_int. lia.
  - lia.
Defined.

(** Whatever [getbit] reads from a buffer of zero bytes is 0. *)
Lemma getbit_zero_bytes st buf x y b :
  Forall (fun v => v = 0) buf -> getbit st buf x y = Ok b -> b = 0.
Proof.
  intros Hzero. unfold getbit.
  destruct ((x <? 0) || (buffer_width st <=? to_size x) || (y <? 0));
    [intros [= <-]; reflexivity|].
  simpl. destruct (buffer_size st <=? bit_index st x y / 8);
    [intros [= <-]; reflexivity|].
  unfold load. destruct (bit_index st x y / 8 <? 0); [discriminate|].
  destruct (buf !! Z.to_nat (bit_index st x y / 8)) as [v|] eqn:Hv;
    [|discriminate].
  rewrite (Forall_lookup_1 _ _ _ _ Hzero Hv). simpl.
  intros [= <-]. rewrite Z.shiftr_0_l. reflexivity.
Qed.

(** X6: when the buffer holds only zero bytes, every glyph of the frame
    [update] draws is the space. *)
Theorem update_blank_frame e st st' frame :
  update e st = Ok (st', frame) ->
  Forall (fun v => v = 0) (buffer st') ->
  Forall (Forall (fun c => c = 0x20)) frame.
Proof.
  intros Hupd Hzero.
  destruct (update_inv _ _ _ _ Hupd) as (tw & th & st1 & _ & _ & _ & Hr).
  unfold render in Hr. apply mapM_inv in Hr.
  refine (Forall2_right _ _ _ _ Hr _). intros char_y row Hrow.
  apply mapM_inv in Hrow. refine (Forall2_right _ _ _ _ Hrow _).
  intros char_x c. unfold render_cell, cell_index.
  repeat match goal with
  | |- context [getbit ?s ?b ?x ?y] =>
      let Hg := fresh "Hg" in
      destruct (getbit s b x y) as [?|] eqn:Hg; [|discriminate];
      apply (getbit_zero_bytes _ _ _ _ _ Hzero) in Hg; subst; simpl
  end.
  intros [= <-]. reflexivity.
Qed.

Lemma update_blank_frame_witness :
  exists st' frame,
    update (zero_file 100 80 2) (opened 64 0 100) = Ok (st', frame)
    /\ Forall (Forall (fun c => c = 0x20)) frame.
Proof.
  assert (Hrun : {r | update (zero_file 100 80 2) (opened 64 0 100) = Ok r})
    by (eexists; vm_compute; reflexivity).
  destruct Hrun as [[st' frame] Hupd]. exists st', frame.
  split; [exact Hupd|].
  apply (update_blank_frame (zero_file 100 80 2) (opened 64 0 100) st' frame Hupd).
  vm_compute in Hupd. injection Hupd as <- _.
  simpl. repeat constructor.
Defined.

(** The column clamp settles in one go. *)
Lemma clamp_col_idempotent st term_w :
  0 <= term_w <= 65535 -> is_size (buffer_width st) ->
  clamp_col (set_col_offset st (clamp_col st term_w)) term_w
  = clamp_col st term_w.
Proof.
  intros Htw Hw.
  assert (Hnonneg : 0 <= clamp_col st term_w).
  { unfold clamp_col. destruct (_ <? 0) eqn:Hneg; [lia|].
    apply Z.ltb_ge in Hneg. exact Hneg. }
  remember (clamp_col st term_w) as c1 eqn:Hc1.
  unfold clamp_col. cbn [buffer_width col_offset set_col_offset].
  unfold clamp_col in Hc1.
  set (top := to_int (to_size (buffer_width st - to_size (to_int (term_w * 2)))))
    in *.
  destruct (buffer_width st <? to_size (to_int (c1 + to_int (term_w * 2))))
    eqn:Htest1.
  - destruct (buffer_width st
              <? to_size (to_int (col_offset st + to_int (term_w * 2))))
      eqn:Htest0.
    + symmetry. exact Hc1.
    + destruct (Z.ltb_spec (col_offset st) 0) as [Hneg|Hpos].
      * subst c1. apply Z.ltb_lt in Htest1.
        rewrite (to_int_small (term_w * 2)) in Htest1 by (unfold is_int; lia).
        rewrite (to_int_small (0 + term_w * 2)) in Htest1 by (unfold is_int; lia).
        rewrite (to_size_small (0 + term_w * 2)) in Htest1 by lia.
        assert (Htop : top < 0).
        { unfold top.
          rewrite (to_int_small (term_w * 2)) by (unfold is_int; lia).
          rewrite (to_size_small (term_w * 2)) by lia.
          revert Htest1 Hw Htw. clear. machine. }
        destruct (Z.ltb_spec top 0); [reflexivity|lia].
      * subst c1. congruence.
  - destruct (Z.ltb_spec c1 0); [lia|reflexivity].
Qed.

(** X7: drawing again changes nothing: after an [update] that returned, a
    second one for the same terminal returns the same globals and the same
    frame. *)
Theorem update_idempotent e st term_w term_h st1 frame1 :
  term e = Some (term_w, term_h) -> 0 <= term_w <= 65535 ->
  is_size (buffer_width st) ->
  update e st = Ok (st1, frame1) ->
  update e st1 = Ok (st1, frame1).
Proof.
  intros Hterm Htw Hw Hupd.
  destruct (update_inv _ _ _ _ Hupd) as (tw & th & st0 & Hterm' & Hst0 & Hst1 & Hr).
  rewrite Hterm in Hterm'. injection Hterm' as <- <-.
  assert (Hfresh : stale st0 term_w term_h = false /\ is_size (buffer_width st0)).
  { destruct (stale st term_w term_h) eqn:Hstale.
    - destruct (fetch_inv _ _ _ _ _ Hst0)
        as (Hwidth & _ & _ & Hoff & Hlw & Hlh & _).
      split.
      + unfold stale. rewrite Hoff, Hlw, Hlh, !Z.eqb_refl. reflexivity.
      + rewrite Hwidth. apply settle_width_range. exact Hw.
    - subst st0. auto. }
  destruct Hfresh as [Hfresh Hw0].
  unfold update, term_size. rewrite Hterm. simpl.
  assert (Hstale1 : stale st1 term_w term_h = false)
    by (rewrite Hst1; exact Hfresh).
  rewrite Hstale1. simpl.
  assert (Hsame : set_col_offset st1 (clamp_col st1 term_w) = st1).
  { rewrite Hst1 at 1 2.
    rewrite (clamp_col_idempotent st0 term_w Htw Hw0).
    rewrite Hst1. reflexivity. }
  rewrite Hsame, Hr. reflexivity.
Qed.

Lemma update_idempotent_witness :
  exists st1 frame1,
    update (numbered_file 100 80 1) (opened 8 50 100) = Ok (st1, frame1)
    /\ update (numbered_file 100 80 1) st1 = Ok (st1, frame1).
Proof.
  assert (Hrun : {r | update (numbered_file 100 80 1) (opened 8 50 100) = Ok r})
    by (eexists; vm_compute; reflexivity).
  destruct Hrun as [[st1 frame1] Hupd]. exists st1, frame1.
  split; [exact Hupd|].
  apply (update_idempotent (numbered_file 100 80 1) (opened 8 50 100) 80 1);
    [reflexivity | lia | unfold is_size; simpl; lia | exact Hupd].
Defined.

(** ** More on getbit and setbit *)

(** X8: with the width a multiple of 8, reading a column with
    [reverse_byte] set is reading the mirrored column of its group of
    eight without it: [-r] flips each byte left to right. *)
Theorem getbit_reverse_mirror st st' buf x y :
  buffer_width st' = buffer_width st -> buffer_size st' = buffer_size st ->
  reverse_byte st = 0 -> reverse_byte st' <> 0 ->
  buffer_width st mod 8 = 0 -> is_int x ->
  getbit st' buf x y = getbit st buf (mirror x) y.
Proof.
  intros Hwidth Hsize Hnormal Hreverse Hmult Hx. unfold getbit.
  rewrite Hwidth, Hsize.
  assert (Hm : mirror x mod 8 = 7 - x mod 8 /\ mirror x / 8 = x / 8).
  { unfold mirror. Z.div_mod_to_equations. lia. }
  destruct Hm as [Hmod Hdiv].
  destruct (Z.ltb_spec x 0) as [Hneg|Hpos].
  - destruct (Z.ltb_spec (mirror x) 0); [reflexivity|].
    unfold mirror in *. Z.div_mod_to_equations. lia.
  - destruct (Z.ltb_spec (mirror x) 0) as [Hmneg|Hmpos].
    { unfold mirror in *. Z.div_mod_to_equations. lia. }
    assert (Hmint : 0 <= mirror x < 2 ^ 64)
      by (unfold is_int, mirror in *; Z.div_mod_to_equations; lia).
    rewrite (to_size_small x) by (unfold is_int in Hx; lia).
    rewrite (to_size_small (mirror x)) by assumption.
    assert (Hcol : (buffer_width st <=? x) = (buffer_width st <=? mirror x)).
    { destruct (Z.leb_spec (buffer_width st) x),
        (Z.leb_spec (buffer_width st) (mirror x)); try reflexivity;
        exfalso; Z.div_mod_to_equations; lia. }
    rewrite Hcol.
    destruct (buffer_width st <=? mirror x); [reflexivity|].
    destruct (y <? 0); [reflexivity|]. simpl.
    assert (Hk : bit_index st (mirror x) y / 8 = bit_index st' x y / 8
                 /\ bit_index st (mirror x) y mod 8
                    = 7 - bit_index st' x y mod 8).
    { unfold bit_index. rewrite Hwidth.
      rewrite (to_size_small x) by (unfold is_int in Hx; lia).
      rewrite (to_size_small (mirror x)) by assumption.
      assert (Hrow : exists q, to_size y * buffer_width st = 8 * q).
      { exists (to_size y * (buffer_width st / 8)).
        pose proof (Z.div_mod (buffer_width st) 8). nia. }
      destruct Hrow as [q ->]. unfold to_size.
      Z.div_mod_to_equations. lia. }
    destruct Hk as [Hbyte Hbit]. rewrite Hbyte.
    destruct (buffer_size st <=? bit_index st' x y / 8); [reflexivity|].
    destruct (load buf (bit_index st' x y / 8)); [|reflexivity]. simpl.
    assert (Hshift : byte_shift st' (bit_index st' x y)
                     = byte_shift st (bit_index st (mirror x) y)).
    { unfold byte_shift.
      destruct (Z.eqb_spec (reverse_byte st') 0); [contradiction|].
      rewrite Hnormal. simpl. rewrite Hbit. f_equal. lia. }
    rewrite Hshift. reflexivity.
Qed.

Lemma getbit_reverse_mirror_witness :
  getbit (showing 1 16 [1; 2]) [1; 2] 9 0
  = getbit (showing 0 16 [1; 2]) [1; 2] 14 0.
Proof.
  apply (getbit_reverse_mirror (showing 0 16 [1; 2]) (showing 1 16 [1; 2])
           [1; 2] 9 0); try reflexivity.
  - discriminate.
  - unfold is_int. lia.
Defined.

(** [setbit] is an update in place of one byte, or nothing. *)
Lemma setbit_alter st buf x y :
  setbit st buf x y
  = match target st x y with
    | None => Ok buf
    | Some (i, mask) =>
        if i <? Z.of_nat (length buf)
        then Ok (alter (or_mask mask) (Z.to_nat i) buf)
        else Abort OutOfBounds
    end.
Proof.
  unfold setbit, target.
  destruct ((x <? 0) || (buffer_width st <? to_size x) || (y <? 0));
    [reflexivity|].
  simpl. destruct (buffer_size st <? bit_index st x y / 8); [reflexivity|].
  pose proof (bit_index_range st x y) as Hi.
  set (i := bit_index st x y / 8) in *.
  destruct (Z.ltb_spec i (Z.of_nat (length buf))) as [Hin|Hout].
  - rewrite load_ok by lia. simpl. rewrite store_ok by lia. f_equal.
    destruct (lookup_lt_is_Some_2 buf (Z.to_nat i)) as [b Hb]; [lia|].
    rewrite Hb. simpl. apply list_eq. intros j.
    destruct (Nat.eq_dec j (Z.to_nat i)) as [->|Hne].
    + rewrite list_lookup_insert_eq by lia.
      rewrite list_lookup_alter_eq, Hb. reflexivity.
    + rewrite list_lookup_insert_ne, list_lookup_alter_ne by congruence.
      reflexivity.
  - unfold load. destruct (Z.ltb_spec i 0); [lia|].
    rewrite lookup_ge_None_2 by lia. reflexivity.
Qed.

Lemma target_byte st x y i mask : target st x y = Some (i, mask) -> 0 <= i.
Proof.
  unfold target.
  destruct ((x <? 0) || (buffer_width st <? to_size x) || (y <? 0));
    [discriminate|].
  destruct (buffer_size st <? bit_index st x y / 8); [discriminate|].
  intros [= <- _]. apply bit_index_range.
Qed.

Lemma or_mask_twice mask byte :
  or_mask mask (or_mask mask byte) = or_mask mask byte.
Proof.
  unfold or_mask, to_u8. change 256 with (2 ^ 8).
  apply Z.bits_inj'. intros n Hn.
  destruct (Z_lt_le_dec n 8).
  - rewrite !Z.mod_pow2_bits_low by lia. rewrite !Z.lor_spec.
    rewrite Z.mod_pow2_bits_low by lia. rewrite Z.lor_spec.
    destruct (Z.testbit byte n), (Z.testbit mask n); reflexivity.
  - rewrite !Z.mod_pow2_bits_high by lia. reflexivity.
Qed.

Lemma or_mask_swap m1 m2 byte :
  or_mask m1 (or_mask m2 byte) = or_mask m2 (or_mask m1 byte).
Proof.
  unfold or_mask, to_u8. change 256 with (2 ^ 8).
  apply Z.bits_inj'. intros n Hn.
  destruct (Z_lt_le_dec n 8).
  - rewrite !Z.mod_pow2_bits_low by lia. rewrite !Z.lor_spec.
    rewrite !Z.mod_pow2_bits_low by lia. rewrite !Z.lor_spec.
    destruct (Z.testbit byte n), (Z.testbit m1 n), (Z.testbit m2 n);
      reflexivity.
  - rewrite !Z.mod_pow2_bits_high by lia. reflexivity.
Qed.

(** X9: setting a bit that is set changes nothing, and two [setbit] calls
    give the same buffer in either order. *)
Theorem setbit_order st buf x y x' y' buf1 buf2 :
  setbit st buf x y = Ok buf1 ->
  setbit st buf1 x' y' = Ok buf2 ->
  setbit st buf1 x y = Ok buf1
  /\ exists buf1', setbit st buf x' y' = Ok buf1'
                   /\ setbit st buf1' x y = Ok buf2.
Proof.
  intros H1 H2. rewrite setbit_alter in H1, H2. split.
  - rewrite setbit_alter.
    destruct (target st x y) as [[i mask]|]; [|injection H1 as <-; reflexivity].
    destruct (Z.ltb_spec i (Z.of_nat (length buf))); [|discriminate].
    injection H1 as <-. rewrite length_alter.
    destruct (Z.ltb_spec i (Z.of_nat (length buf))); [|lia]. f_equal.
    rewrite list_alter_alter_eq.
    apply list_alter_ext; [|reflexivity].
    intros b _. simpl. apply or_mask_twice.
  - setoid_rewrite setbit_alter.
    destruct (target st x y) as [[i mask]|] eqn:Hi,
      (target st x' y') as [[j mask']|] eqn:Hj.
    + apply target_byte in Hi, Hj.
      destruct (Z.ltb_spec i (Z.of_nat (length buf))); [|discriminate].
      injection H1 as <-. rewrite length_alter in H2.
      destruct (Z.ltb_spec j (Z.of_nat (length buf))); [|discriminate].
      injection H2 as <-. eexists. split; [reflexivity|].
      rewrite length_alter.
      destruct (Z.ltb_spec i (Z.of_nat (length buf))); [|lia]. f_equal.
      destruct (Z.eq_dec i j) as [->|Hne].
      * rewrite !list_alter_alter_eq. apply list_alter_ext; [|reflexivity].
        intros b _. simpl. apply or_mask_swap.
      * apply list_alter_alter_ne. lia.
    + destruct (Z.ltb_spec i (Z.of_nat (length buf))); [|discriminate].
      injection H1 as <-. injection H2 as <-.
      eexists. split; [reflexivity|].
      destruct (Z.ltb_spec i (Z.of_nat (length buf))); [|lia]. reflexivity.
    + injection H1 as <-.
      destruct (Z.ltb_spec j (Z.of_nat (length buf))); [|discriminate].
      injection H2 as <-. eexists. split; reflexivity.
    + injection H1 as <-. injection H2 as <-. eexists. split; reflexivity.
Qed.

Lemma setbit_order_witness :
  setbit (showing 0 8 [0; 64]) [0; 64] 1 1 = Ok [0; 64]
  /\ exists buf1', setbit (showing 0 8 [0; 0]) [0; 0] 3 1 = Ok buf1'
                   /\ setbit (showing 0 8 [0; 0]) buf1' 1 1 = Ok [0; 80].
Proof.
  destruct (setbit_order (showing 0 8 [0; 0]) [0; 0] 1 1 3 1 [0; 64] [0; 80]
              eq_refl eq_refl) as [Hsame Hswap].
  split; [exact Hsame | exact Hswap].
Defined.

(** ** More on step_life *)

(** X10: a generation moves nothing but cells: every global other than
    the two buffers stays as it was -- the width, the buffer size, the
    file's descriptor and size, both offsets and the offset the buffer
    was loaded at, the terminal size last seen, the bit order, the delay,
    the life flag and the log of the data source; the buffer keeps its
    length, the scratch buffer is kept for the next step, and every bit
    below the last full row reads 0 afterwards, whatever it was. *)
Theorem step_life_keeps_view st :
  grid_ok st -> sized st (buffer st) -> life_ready st ->
  exists st',
    step_life st = Ok st'
    /\ st' = set_buffers st (buffer st') (buffer st')
    /\ buffer_width st' = buffer_width st
    /\ buffer_size st' = buffer_size st
    /\ fd st' = fd st /\ fd_size st' = fd_size st
    /\ offset st' = offset st /\ col_offset st' = col_offset st
    /\ buffer_offset st' = buffer_offset st
    /\ last_term_w st' = last_term_w st /\ last_term_h st' = last_term_h st
    /\ reverse_byte st' = reverse_byte st /\ delay_ms st' = delay_ms st
    /\ life st' = life st
    /\ io_log st' = io_log st
    /\ Z.of_nat (length (buffer st')) = buffer_size st
    /\ life_buffer st' = Some (buffer st')
    /\ forall x y, in_range st x y -> rows st <= y ->
         getbit st' (buffer st') x y = Ok 0.
Proof.
  intros Hgrid Hbuf Hready.
  destruct (step_life_spec st Hgrid Hbuf Hready)
    as (scratch & Hstep & Hsz & _ & Hbits).
  exists (set_buffers st scratch scratch). split; [exact Hstep|].
  simpl. repeat split; try reflexivity.
  - destruct Hsz as [Hlen _]. exact Hlen.
  - intros x y Hin Hy.
    change (getbit (set_buffers st scratch scratch) scratch x y)
      with (getbit st scratch x y).
    rewrite (Hbits x y Hin).
    destruct (Z.ltb_spec y (rows st)); [lia|reflexivity].
Qed.

Lemma step_life_keeps_view_witness :
  exists st',
    step_life (living 16 80 1 [255; 255; 255] 3) = Ok st'
    /\ buffer_width st' = 16 /\ buffer_size st' = 3
    /\ offset st' = 0 /\ col_offset st' = 0 /\ buffer_offset st' = 0
    /\ last_term_w st' = 80 /\ last_term_h st' = 1
    /\ life st' = 1 /\ io_log st' = []
    /\ Z.of_nat (length (buffer st')) = 3
    /\ life_buffer st' = Some (buffer st')
    /\ forall x y, in_range (living 16 80 1 [255; 255; 255] 3) x y -> 1 <= y ->
         getbit st' (buffer st') x y = Ok 0.
Proof.
  destruct (step_life_keeps_view (living 16 80 1 [255; 255; 255] 3))
    as (st' & Hstep & _ & Hw & Hsize & _ & _ & Hoff & Hcol & Hcache
        & Hlw & Hlh & _ & _ & Hlife & Hlog & Hlen & Hscratch & Htail);
    [concrete | concrete | concrete |].
  exists st'. repeat split; assumption.
Defined.

Lemma block_next x0 y0 x y :
  next_on (fun x y => Z.b2z (block x0 y0 x y)) x y = Z.b2z (block x0 y0 x y).
Proof.
  unfold next_on, next_cell, block.
  around x x0; around y y0; settle.
Qed.

(** X11: four live cells in a square, anywhere on the grid, with nothing
    else alive, are a still life: the step returns the same bytes. *)
Theorem step_life_block st x0 y0 :
  grid_ok st -> sized st (buffer st) -> Forall is_byte (buffer st) ->
  life_ready st ->
  0 <= x0 -> x0 + 1 < buffer_width st -> 0 <= y0 -> y0 + 1 < rows st ->
  shows st (buffer st) (block x0 y0) ->
  exists st1, step_life st = Ok st1 /\ buffer st1 = buffer st.
Proof.
  intros Hgrid Hbuf Hbytes Hready Hx0 Hx1 Hy0 Hy1 Hshows.
  destruct (step_life_pattern st (block x0 y0) (block x0 y0))
    as (s1 & Hstep1 & Hsz1 & Hbytes1 & Hshows1); try assumption.
  { intros x y Hp. unfold block in Hp.
    apply andb_prop in Hp as [Hp Hyr]. apply andb_prop in Hp as [Hp Hyl].
    apply andb_prop in Hp as [Hxl Hxr]. apply grid_in_range; lia. }
  { intros x y Hp. unfold block in Hp.
    apply andb_prop in Hp as [_ Hyr]. lia. }
  { apply block_next. }
  exists (set_buffers st s1 s1). split; [exact Hstep1|]. simpl.
  destruct Hgrid as (Hw & _).
  apply (buffer_ext st); try assumption; try lia.
  intros x y Hin. rewrite (Hshows x y Hin). apply Hshows1. exact Hin.
Qed.

Lemma step_life_block_witness :
  exists st1,
    step_life (showing 0 8 [0; 24; 24; 0; 0]) = Ok st1
    /\ buffer st1 = [0; 24; 24; 0; 0].
Proof.
  apply (step_life_block (showing 0 8 [0; 24; 24; 0; 0]) 3 1);
    [concrete | concrete | | concrete | lia | concrete | lia | concrete
    | scan_8x5].
  repeat constructor; unfold is_byte; lia.
Defined.

(** What [update] leaves alone. *)
Lemma update_keeps e st st' frame :
  update e st = Ok (st', frame) ->
  life st' = life st /\ life_buffer st' = life_buffer st
  /\ reverse_byte st' = reverse_byte st /\ fd_size st' = fd_size st.
Proof.
  intros Hupd.
  destruct (update_inv _ _ _ _ Hupd) as (tw & th & st1 & _ & Hst1 & -> & _).
  simpl. destruct (stale st tw th); [|subst st1; auto].
  revert Hst1. unfold fetch.
  destruct (if negb _ then _ else _) as [[buf size]|]; [|discriminate]. simpl.
  destruct (clamp_offset st size <? 0); [discriminate|].
  destruct (negb _); [discriminate|].
  intros [= <-]. simpl. auto.
Qed.

(** X12: the scratch buffer of life mode is allocated once, with the size
    the buffer has then. When a redraw in life mode enlarges the buffer
    (the terminal grew), the next generation clears [buffer_size] bytes of
    the shorter scratch buffer: it writes past its end. *)
Theorem life_tick_after_growth e e' st st' out :
  life st <> 0 ->
  grid_ok st -> sized st (buffer st) -> life_ready st ->
  iteration e st (ReadFailed true) = Ok (Continue, st', out) ->
  buffer_size st < buffer_size st' -> buffer_width st' <> 0 ->
  iteration e' st' (ReadFailed true) = Abort OutOfBounds.
Proof.
  intros Hlife Hgrid Hbuf Hready Hturn Hgrew Hwidth.
  simpl in Hturn. destruct (Z.eqb_spec (life st) 0); [contradiction|].
  simpl in Hturn.
  destruct (step_life_spec st Hgrid Hbuf Hready)
    as (scratch & Hstep & Hsz & _).
  rewrite Hstep in Hturn. simpl in Hturn.
  destruct (update e (set_buffers st scratch scratch)) as [[st1 frame]|] eqn:Hupd;
    [|discriminate].
  simpl in Hturn. injection Hturn as <- _.
  destruct (update_keeps _ _ _ _ Hupd) as (Hlife1 & Hscratch1 & _).
  simpl in Hlife1, Hscratch1. simpl.
  rewrite Hlife1. destruct (Z.eqb_spec (life st) 0); [contradiction|]. simpl.
  unfold step_life. destruct (Z.eqb_spec (buffer_width st1) 0); [contradiction|].
  rewrite Hscratch1. unfold memset.
  destruct Hsz as [Hlen _].
  destruct (Z.ltb_spec (Z.of_nat (length scratch)) (buffer_size st1)); [|lia].
  reflexivity.
Qed.

Lemma life_tick_after_growth_witness :
  exists st' out,
    iteration (zero_file 100 80 2) (living 8 80 1 [0; 16; 0] 100)
      (ReadFailed true) = Ok (Continue, st', out)
    /\ buffer_size st' = 6
    /\ iteration (zero_file 100 80 2) st' (ReadFailed true)
       = Abort OutOfBounds.
Proof.
  assert (Hrun : {r : state * shown |
                  iteration (zero_file 100 80 2) (living 8 80 1 [0; 16; 0] 100)
                    (ReadFailed true) = Ok (Continue, r.1, r.2)}).
  { eexists (_, _). vm_compute. reflexivity. }
  destruct Hrun as [[st' out] Hturn]. cbn [fst snd] in Hturn.
  exists st', out. split; [exact Hturn|].
  assert (Hsize : buffer_size st' = 6).
  { vm_compute in Hturn. injection Hturn as <- _. reflexivity. }
  split; [exact Hsize|].
  apply (life_tick_after_growth (zero_file 100 80 2) (zero_file 100 80 2)
           (living 8 80 1 [0; 16; 0] 100) st' out);
    [discriminate | concrete | concrete | concrete | exact Hturn | |].
  - rewrite Hsize. simpl. lia.
  - vm_compute in Hturn. injection Hturn as <- _. discriminate.
Defined.

(** X13: on a terminal of fewer than four columns a width left unset
    settles to 0; [update] still returns, and [step_life] then divides by
    zero. *)
Theorem narrow_terminal_life e st term_w term_h st' frame :
  term e = Some (term_w, term_h) -> 0 <= term_w < 4 ->
  buffer_width st = 0 ->
  update e st = Ok (st', frame) ->
  buffer_width st' = 0 /\ step_life st' = Abort DivisionByZero.
Proof.
  intros Hterm Htw Hunset Hupd.
  destruct (update_inv _ _ _ _ Hupd) as (tw & th & st1 & Hterm' & Hst1 & -> & _).
  rewrite Hterm in Hterm'. injection Hterm' as <- <-.
  assert (Hzero : buffer_width st1 = 0).
  { destruct (stale st term_w term_h); [|subst st1; assumption].
    destruct (fetch_inv _ _ _ _ _ Hst1) as (-> & _).
    unfold settle_width. rewrite Hunset. simpl.
    rewrite (to_int_small (term_w * 2)) by (unfold is_int; lia).
    rewrite (to_size_small (term_w * 2)) by lia.
    assert (term_w = 0 \/ term_w = 1 \/ term_w = 2 \/ term_w = 3)
      as [->|[->|[->| ->]]] by lia; reflexivity. }
  split; [exact Hzero|].
  unfold step_life. simpl. rewrite Hzero. reflexivity.
Qed.

Lemma narrow_terminal_life_witness :
  exists st' frame,
    update (zero_file 100 3 24) (opened 0 0 100) = Ok (st', frame)
    /\ buffer_width st' = 0 /\ step_life st' = Abort DivisionByZero.
Proof.
  assert (Hrun : {r | update (zero_file 100 3 24) (opened 0 0 100) = Ok r})
    by (eexists; vm_compute; reflexivity).
  destruct Hrun as [[st' frame] Hupd]. exists st', frame.
  split; [exact Hupd|].
  apply (narrow_terminal_life (zero_file 100 3 24) (opened 0 0 100) 3 24 st' frame);
    [reflexivity | lia | reflexivity | exact Hupd].
Defined.

(** ** The keys of run *)

Lemma set_view_same st : set_view st (offset st) (col_offset st) = st.
Proof. destruct st; reflexivity. Qed.

Lemma multiple_of_8 w : w mod 8 = 0 -> w = 8 * (w / 8).
Proof. intros H. pose proof (Z.div_mod w 8). lia. Qed.

Lemma browsing_settle e st term_w term_h off col :
  browsing e st term_w term_h ->
  settle_width (set_view st off col) term_w = buffer_width st.
Proof.
  intros (_ & Htw & _ & _ & _ & _ & _ & _ & _ & Hw & Hmult & Hzero & _).
  unfold settle_width. cbn [buffer_width set_view].
  destruct (Z.eqb_spec (buffer_width st) 0) as [Hunset|Hset].
  - specialize (Hzero Hunset).
    rewrite (to_int_small (term_w * 2)) by (unfold is_int; lia).
    rewrite (to_size_small (term_w * 2)) by lia.
    assert (term_w = 1 \/ term_w = 2 \/ term_w = 3) as [->|[->| ->]] by lia;
      rewrite Hunset; reflexivity.
  - rewrite Hmult. reflexivity.
Qed.

Lemma browsing_window e st term_w term_h off col :
  browsing e st term_w term_h ->
  window_size (set_view st off col) (buffer_width st) term_h = buffer_size st.
Proof.
  intros (_ & _ & Hth & _ & Hfd & _ & _ & _ & _ & Hw & Hmult & _ & Hsize & _).
  unfold window_size, INT_MAX in *. cbn [fd_size set_view].
  rewrite (to_int_small (term_h * 3)) by (unfold is_int; lia).
  rewrite (to_size_small (term_h * 3)) by lia.
  rewrite (to_size_small (term_h * 3 * buffer_width st)) by nia.
  rewrite (to_size_small (fd_size st)) by lia.
  assert (Hn : (term_h * 3 * buffer_width st) mod 8 = 0).
  { rewrite (multiple_of_8 _ Hmult).
    replace (term_h * 3 * (8 * (buffer_width st / 8)))
      with (term_h * 3 * (buffer_width st / 8) * 8) by lia.
    apply Z.mod_mul. lia. }
  rewrite Hn. simpl. rewrite Hsize.
  destruct (Z.ltb_spec (fd_size st) (term_h * 3 * buffer_width st / 8)); lia.
Qed.

(** The block guarded by the staleness test, on a browsing viewer that a
    key has pointed at [off]. *)
Lemma refetch_clamps e st term_w term_h off col :
  browsing e st term_w term_h ->
  - Z.max (buffer_size st) (buffer_width st / 8) <= off < 2 ^ 63 ->
  exists st1,
    (if stale (set_view st off col) term_w term_h
     then fetch e (set_view st off col) term_w term_h
     else Ok (set_view st off col)) = Ok st1
    /\ offset st1 = clamped off (fd_size st - buffer_size st)
    /\ buffer_offset st1 = offset st1
    /\ buffer_width st1 = buffer_width st
    /\ buffer_size st1 = buffer_size st
    /\ fd_size st1 = fd_size st
    /\ last_term_w st1 = term_w /\ last_term_h st1 = term_h
    /\ col_offset st1 = col /\ life st1 = 0
    /\ Z.of_nat (length (buffer st1)) = buffer_size st.
Proof.
  intros Hb Hoff.
  pose proof (browsing_settle e st term_w term_h off col Hb) as Hsettle.
  pose proof (browsing_window e st term_w term_h off col Hb) as Hwindow.
  destruct Hb as (Hterm & Htw & Hth & Hfile & Hfd & Hlife & Hlw & Hlh & Hcache
                  & Hw & Hmult & Hzero & Hsize & Hlen & Hview & Hcol).
  unfold stale. cbn [last_term_w last_term_h buffer_offset offset set_view].
  rewrite Hlw, Hlh, !Z.eqb_refl. simpl.
  destruct (Z.eqb_spec (buffer_offset st) off) as [Hsame|Hmoved]; simpl.
  - eexists. split; [reflexivity|]. simpl.
    unfold clamped. repeat split; try assumption; try reflexivity; lia.
  - unfold fetch. rewrite Hsettle, Hwindow.
    cbn [buffer_size buffer set_view]. rewrite Z.eqb_refl. simpl.
    assert (Hsize0 : 0 <= buffer_size st <= fd_size st).
    { rewrite Hsize. unfold INT_MAX in *.
      assert (0 <= term_h * 3 * buffer_width st / 8)
        by (apply Z.div_pos; nia).
      lia. }
    assert (Hclamp : clamp_offset (set_view st off col) (buffer_size st)
                     = clamped off (fd_size st - buffer_size st)).
    { rewrite clamp_offset_spec; cbn [fd_size offset set_view];
        [ | lia | unfold is_off, INT_MAX in *; Z.div_mod_to_equations; lia
          | lia ].
      unfold clamped.
      destruct (Z.ltb_spec off (- buffer_size st)) as [Hfar|]; [|reflexivity].
      assert (buffer_size st = fd_size st); [|lia].
      unfold INT_MAX in *.
      assert (buffer_width st / 8 <= term_h * 3 * buffer_width st / 8).
      { apply Z.div_le_mono; [lia|]. nia. }
      lia. }
    rewrite Hclamp.
    assert (Hin : 0 <= clamped off (fd_size st - buffer_size st)
                  <= fd_size st - buffer_size st) by (unfold clamped; lia).
    destruct (Z.ltb_spec (clamped off (fd_size st - buffer_size st)) 0); [lia|].
    rewrite read_file_length by lia.
    rewrite (to_off_small (buffer_size st)) by (unfold is_off; lia).
    rewrite Z.eqb_refl. simpl.
    eexists. split; [reflexivity|]. simpl.
    repeat split; try assumption; try reflexivity.
    rewrite length_app, length_drop.
    pose proof (read_file_length e (clamped off (fd_size st - buffer_size st))
                  (buffer_size st) ltac:(lia) ltac:(lia) ltac:(lia)). lia.
Qed.

(** The column clamp of a browsing viewer. *)
Lemma browsing_clamp_col st term_w col :
  1 <= term_w <= 65535 -> 0 <= buffer_width st <= INT_MAX ->
  buffer_width st mod 8 = 0 ->
  col_offset st = col ->
  -1 <= col <= Z.max 0 (buffer_width st - 2 * term_w) + 1 ->
  clamp_col st term_w = clamped col (buffer_width st - 2 * term_w).
Proof.
  intros Htw Hw Hmult Hcol Hrange. unfold clamp_col, clamped, INT_MAX in *.
  assert (buffer_width st <= 2147483640)
    by (revert Hmult Hw; clear; intros; Z.div_mod_to_equations; lia).
  rewrite Hcol.
  rewrite (to_int_small (term_w * 2)) by (unfold is_int; lia).
  rewrite (to_size_small (term_w * 2)) by lia.
  rewrite (to_int_small (col + term_w * 2)) by (unfold is_int; lia).
  rewrite (to_size_small (col + term_w * 2)) by lia.
  assert (Htop : to_int (to_size (buffer_width st - term_w * 2))
                 = buffer_width st - term_w * 2) by machine.
  rewrite Htop.
  destruct (Z.ltb_spec (buffer_width st) (col + term_w * 2)).
  - destruct (Z.ltb_spec (buffer_width st - term_w * 2) 0); lia.
  - destruct (Z.ltb_spec col 0); lia.
Qed.

(** The redraw after a key: it returns, brings the view asked for inside
    its bounds, and leaves the viewer browsing. *)
Lemma redraw_clamps e st term_w term_h off col :
  browsing e st term_w term_h ->
  - Z.max (buffer_size st) (buffer_width st / 8) <= off < 2 ^ 63 ->
  -1 <= col <= Z.max 0 (buffer_width st - 2 * term_w) + 1 ->
  exists st' frame,
    update e (set_view st off col) = Ok (st', frame)
    /\ offset st' = clamped off (fd_size st - buffer_size st)
    /\ col_offset st' = clamped col (buffer_width st - 2 * term_w)
    /\ buffer_width st' = buffer_width st
    /\ buffer_size st' = buffer_size st
    /\ browsing e st' term_w term_h.
Proof.
  intros Hb Hoff Hcol.
  destruct (refetch_clamps e st term_w term_h off col Hb Hoff)
    as (st1 & Hst1 & Hoff1 & Hcache1 & Hw1 & Hsize1 & Hfd1 & Hlw1 & Hlh1
        & Hcol1 & Hlife1 & Hlen1).
  destruct Hb as (Hterm & Htw & Hth & Hfile & Hfd & Hlife & Hlw & Hlh & Hcache
                  & Hw & Hmult & Hzero & Hsize & Hlen & Hview & Hcolv).
  assert (Hclamp : clamp_col st1 term_w
                   = clamped col (buffer_width st - 2 * term_w)).
  { rewrite <- Hw1. apply browsing_clamp_col; rewrite ?Hw1; assumption. }
  destruct (render_total (set_col_offset st1 (clamp_col st1 term_w)) term_h
              (if term_w <? to_int (buffer_width st1 / 2) then term_w
               else to_int (buffer_width st1 / 2))) as [frame Hr].
  { unfold allocated. simpl. lia. }
  exists (set_col_offset st1 (clamp_col st1 term_w)), frame.
  split.
  - unfold update, term_size. rewrite Hterm. simpl. rewrite Hst1. simpl.
    simpl in Hr. rewrite Hr. reflexivity.
  - simpl. rewrite Hclamp, Hoff1, Hw1, Hsize1.
    do 4 (split; [reflexivity|]).
    unfold browsing. simpl.
    rewrite ?Hfd1, ?Hlw1, ?Hlh1, ?Hcache1, ?Hoff1, ?Hw1, ?Hsize1, ?Hlife1,
      ?Hlen1, ?Hclamp.
    unfold clamped. repeat split; try assumption; try reflexivity; lia.
Qed.

Lemma offset_plus_exact st n :
  0 <= offset st -> 0 <= n -> offset st + n < 2 ^ 63 ->
  offset_plus st n = offset st + n.
Proof. intros. unfold offset_plus. machine. Qed.

Lemma offset_minus_exact st n :
  0 <= offset st < 2 ^ 63 -> 0 <= n < 2 ^ 63 ->
  offset_minus st n = offset st - n.
Proof. intros. unfold offset_minus. machine. Qed.

(** What each key asks for, in the arithmetic of the source. *)
Lemma keypress_move st m input :
  input ∈ keys m ->
  keypress st input
  = Redraw
      match m with
      | Up => set_view st (offset_minus st (buffer_width st / 8)) (col_offset st)
      | Down => set_view st (offset_plus st (buffer_width st / 8)) (col_offset st)
      | Left => set_view st (offset st) (to_int (col_offset st - 1))
      | Right => set_view st (offset st) (to_int (col_offset st + 1))
      | PageUp => set_view st (offset_minus st (buffer_size st)) (col_offset st)
      | PageDown => set_view st (offset_plus st (buffer_size st)) (col_offset st)
      | Home => set_view st 0 (col_offset st)
      | End => set_view st (fd_size st) (col_offset st)
      end.
Proof.
  intros Hin. destruct m; simpl in Hin;
    repeat (apply elem_of_cons in Hin as [->|Hin]; [reflexivity|]);
    apply elem_of_nil in Hin; destruct Hin.
Qed.

(** X14: while the viewer browses, each navigation key -- the letter in
    either case or the escape sequence of the arrow, Home, End and page
    keys -- is followed by a redraw that returns and leaves the view where
    the key asked, brought inside [0, fd_size - buffer_size] and
    [0, buffer_width - 2*term_w]: a row or a window up or down, a bit left
    or right, the start or the end of the file. *)
Theorem key_moves_view e st term_w term_h m input :
  browsing e st term_w term_h -> input ∈ keys m ->
  exists st' frame,
    iteration e st (ReadBytes input) = Ok (Continue, st', Frame frame)
    /\ offset st' = clamped (asked st m).1 (fd_size st - buffer_size st)
    /\ col_offset st' = clamped (asked st m).2 (buffer_width st - 2 * term_w)
    /\ browsing e st' term_w term_h.
Proof.
  intros Hb Hin. pose proof Hb as
    (Hterm & Htw & Hth & Hfile & Hfd & Hlife & Hlw & Hlh & Hcache
     & Hw & Hmult & Hzero & Hsize & Hlen & Hview & Hcol).
  unfold INT_MAX in *.
  assert (Hsize0 : 0 <= buffer_size st <= fd_size st).
  { rewrite Hsize.
    assert (0 <= term_h * 3 * buffer_width st / 8) by (apply Z.div_pos; nia).
    lia. }
  assert (Hrow : 0 <= buffer_width st / 8 < 2 ^ 28)
    by (Z.div_mod_to_equations; lia).
  assert (Hredraw : forall off col,
            keypress st input = Redraw (set_view st off col) ->
            - Z.max (buffer_size st) (buffer_width st / 8) <= off < 2 ^ 63 ->
            -1 <= col <= Z.max 0 (buffer_width st - 2 * term_w) + 1 ->
            exists st' frame,
              iteration e st (ReadBytes input) = Ok (Continue, st', Frame frame)
              /\ offset st' = clamped off (fd_size st - buffer_size st)
              /\ col_offset st' = clamped col (buffer_width st - 2 * term_w)
              /\ browsing e st' term_w term_h).
  { intros off col Hkey Hoff Hcolr.
    destruct (redraw_clamps e st term_w term_h off col Hb Hoff Hcolr)
      as (st' & frame & Hupd & Ho & Hc & _ & _ & Hb').
    exists st', frame. split; [|auto].
    unfold iteration. rewrite Hkey. unfold disarm.
    cbn [life set_view]. rewrite Hlife. simpl. rewrite Hupd. reflexivity. }
  pose proof (keypress_move st m input Hin) as Hkey.
  destruct m; cbn [asked fst snd].
  - apply Hredraw; [|lia|lia].
    rewrite Hkey, offset_minus_exact by lia. reflexivity.
  - apply Hredraw; [|lia|lia].
    rewrite Hkey, offset_plus_exact by lia. reflexivity.
  - apply Hredraw; [|lia|lia].
    rewrite Hkey, to_int_small by (unfold is_int; lia). reflexivity.
  - apply Hredraw; [|lia|lia].
    rewrite Hkey, to_int_small by (unfold is_int; lia). reflexivity.
  - apply Hredraw; [|lia|lia].
    rewrite Hkey, offset_minus_exact by lia. reflexivity.
  - apply Hredraw; [|lia|lia].
    rewrite Hkey, offset_plus_exact by lia. reflexivity.
  - apply Hredraw; [exact Hkey|lia|lia].
  - apply Hredraw; [exact Hkey|lia|lia].
Qed.

Lemma sample_view_browsing : browsing (numbered_file 100 80 1) sample_view 80 1.
Proof.
  unfold browsing.
  repeat split; vm_compute; (reflexivity || discriminate).
Qed.

Lemma key_moves_view_witness :
  (exists st' frame,
     iteration (numbered_file 100 80 1) sample_view (ReadBytes [106])
     = Ok (Continue, st', Frame frame)
     /\ offset st' = 48 /\ col_offset st' = 0
     /\ browsing (numbered_file 100 80 1) st' 80 1)
  /\ (exists st' frame,
        iteration (numbered_file 100 80 1) sample_view
          (ReadBytes [0x1B; 0x5B; 0x46])
        = Ok (Continue, st', Frame frame)
        /\ offset st' = 76 /\ col_offset st' = 0
        /\ browsing (numbered_file 100 80 1) st' 80 1).
Proof.
  split.
  - apply (key_moves_view (numbered_file 100 80 1) sample_view 80 1 Down [106]
             sample_view_browsing).
    apply list_elem_of_here.
  - apply (key_moves_view (numbered_file 100 80 1) sample_view 80 1 End
             [0x1B; 0x5B; 0x46] sample_view_browsing).
    apply list_elem_of_here.
Defined.

(** Every way the input tests of a turn can end. *)
Lemma keypress_cases st input :
  keypress st input = Leave
  \/ keypress st input = Again st (Some (offset st, col_offset st))
  \/ keypress st input
     = Again (set_life st 1 (life_buffer st) (buffer_offset st)) None
  \/ exists off col,
       keypress st input = Redraw (set_view st off col)
       /\ ((off = offset st
            /\ (col = col_offset st \/ col = to_int (col_offset st - 1)
                \/ col = to_int (col_offset st + 1)))
           \/ (col = col_offset st
               /\ (off = offset_plus st (buffer_width st / 8)
                   \/ off = offset_minus st (buffer_width st / 8)
                   \/ off = offset_plus st (buffer_size st)
                   \/ off = offset_minus st (buffer_size st)
                   \/ off = fd_size st \/ off = 0))).
Proof.
  assert (Hstay : Redraw st = Redraw (set_view st (offset st) (col_offset st)))
    by (rewrite set_view_same; reflexivity).
  unfold keypress.
  repeat match goal with
  | |- context [if ?c then _ else _] => destruct c
  end;
  first
    [ left; reflexivity
    | right; left; reflexivity
    | right; right; left; reflexivity
    | right; right; right; rewrite ?Hstay; eexists _, _;
      split; [reflexivity|]; tauto ].
Qed.

(** Only a lone [r] or [R] ends a turn with [continue] and no info line. *)
Lemma keypress_arms st input s :
  keypress st input = Again s None -> arms (ReadBytes input) = true.
Proof.
  unfold keypress.
  destruct (Z.eqb_spec (Z.of_nat (length input)) 1) as [Hone|_].
  - destruct input as [|c [|c' rest]]; simpl in Hone; try lia.
    unfold input_byte, arms. simpl.
    repeat match goal with
    | |- (if ?c then _ else _) = _ -> _ => destruct c eqn:?
    end; try discriminate.
    reflexivity.
  - repeat match goal with
    | |- (if ?c then _ else _) = _ -> _ => destruct c
    end; discriminate.
Qed.

(** A turn of the loop on bytes read, from a browsing viewer. *)
Lemma turn_in_bounds e st term_w term_h input :
  browsing e st term_w term_h ->
  exists ctl st' out,
    iteration e st (ReadBytes input) = Ok (ctl, st', out)
    /\ 0 <= offset st' <= fd_size st' - buffer_size st'
    /\ 0 <= col_offset st' <= Z.max 0 (buffer_width st' - 2 * term_w)
    /\ (ctl = Break -> st' = st)
    /\ (arms (ReadBytes input) = false -> browsing e st' term_w term_h).
Proof.
  intros Hb. pose proof Hb as
    (Hterm & Htw & Hth & Hfile & Hfd & Hlife & Hlw & Hlh & Hcache
     & Hw & Hmult & Hzero & Hsize & Hlen & Hview & Hcol).
  unfold INT_MAX in *.
  assert (Hsize0 : 0 <= buffer_size st <= fd_size st).
  { rewrite Hsize.
    assert (0 <= term_h * 3 * buffer_width st / 8) by (apply Z.div_pos; nia).
    lia. }
  assert (Hrow : 0 <= buffer_width st / 8 < 2 ^ 28)
    by (Z.div_mod_to_equations; lia).
  unfold iteration.
  destruct (keypress_cases st input)
    as [Hkey | [Hkey | [Hkey | (off & col & Hkey & Hmove)]]]; rewrite Hkey.
  - exists Break, st, Quiet. auto.
  - exists Continue, st, (Info (offset st) (col_offset st)).
    split; [reflexivity|]. split; [lia|]. split; [lia|].
    split; [discriminate|]. intros _. exact Hb.
  - pose proof (keypress_arms _ _ _ Hkey) as Harm.
    eexists Continue, _, Quiet. split; [reflexivity|].
    cbn [offset fd_size buffer_size col_offset buffer_width set_life].
    split; [lia|]. split; [lia|]. split; [discriminate|].
    rewrite Harm. discriminate.
  - assert (Hranges :
      - Z.max (buffer_size st) (buffer_width st / 8) <= off < 2 ^ 63
      /\ -1 <= col <= Z.max 0 (buffer_width st - 2 * term_w) + 1).
    { destruct Hmove as [[-> Hc] | [-> Ho]].
      - split; [lia|].
        destruct Hc as [-> | [-> | ->]];
          rewrite ?to_int_small by (unfold is_int; lia); lia.
      - split; [|lia].
        destruct Ho as [-> | [-> | [-> | [-> | [-> | ->]]]]];
          rewrite ?offset_plus_exact, ?offset_minus_exact by lia; lia. }
    destruct Hranges as [Hoff Hcolr].
    destruct (redraw_clamps e st term_w term_h off col Hb Hoff Hcolr)
      as (st' & frame & Hupd & _ & _ & _ & _ & Hb').
    exists Continue, st', (Frame frame). split.
    + unfold disarm. cbn [life set_view]. rewrite Hlife. simpl.
      rewrite Hupd. reflexivity.
    + pose proof Hb' as (_ & _ & _ & _ & _ & _ & _ & _ & _ & _ & _ & _
                         & _ & _ & Hview' & Hcol').
      split; [lia|]. split; [lia|]. split; [discriminate|].
      intros _. exact Hb'.
Qed.

(** X15: while the viewer browses, whatever bytes a read delivers, the
    turn of the loop returns with the view inside its bounds; a turn that
    leaves the loop leaves the globals untouched, and unless the bytes
    armed life mode (a lone [r] or [R]) the viewer is browsing as
    before. *)
Theorem browsing_survives_input e st term_w term_h input :
  browsing e st term_w term_h ->
  exists ctl st' out,
    iteration e st (ReadBytes input) = Ok (ctl, st', out)
    /\ 0 <= offset st' <= fd_size st' - buffer_size st'
    /\ 0 <= col_offset st' <= Z.max 0 (buffer_width st' - 2 * term_w)
    /\ (ctl = Break -> st' = st)
    /\ (arms (ReadBytes input) = false -> browsing e st' term_w term_h).
Proof. apply turn_in_bounds. Qed.

Lemma browsing_survives_input_witness :
  exists ctl st' out,
    iteration (numbered_file 100 80 1) sample_view (ReadBytes [27; 91; 90])
    = Ok (ctl, st', out)
    /\ 0 <= offset st' <= fd_size st' - buffer_size st'
    /\ 0 <= col_offset st' <= Z.max 0 (buffer_width st' - 2 * 80)
    /\ (ctl = Break -> st' = sample_view)
    /\ (arms (ReadBytes [27; 91; 90]) = false
        -> browsing (numbered_file 100 80 1) st' 80 1).
Proof.
  apply (browsing_survives_input (numbered_file 100 80 1) sample_view 80 1
           [27; 91; 90] sample_view_browsing).
Defined.

(** X16: a key that falls through to the redraw while life mode is on
    ends it: the flag is cleared, the scratch buffer is gone and, unless
    the key left the offset at -1, the redraw seeks and reads again, so
    that the buffer holds the bytes of the file once more. *)
Theorem key_ends_life e st input st1 ctl st' out :
  life st <> 0 ->
  Z.of_nat (length (buffer st)) = buffer_size st ->
  keypress st input = Redraw st1 -> offset st1 <> -1 ->
  iteration e st (ReadBytes input) = Ok (ctl, st', out) ->
  life st' = 0 /\ life_buffer st' = None
  /\ buffer st' = file_window e (offset st') (buffer_size st')
  /\ io_log st' = Read (buffer_size st') :: Seek (offset st') :: io_log st.
Proof.
  intros Hlife Hlen Hkey Hoff Hturn.
  assert (Hst1 : exists off col, st1 = set_view st off col).
  { destruct (keypress_cases st input)
      as [H | [H | [H | (off & col & H & _)]]];
      rewrite H in Hkey; try discriminate.
    injection Hkey as <-. eauto. }
  destruct Hst1 as (off & col & ->). cbn [offset set_view] in Hoff.
  unfold iteration in Hturn. rewrite Hkey in Hturn.
  unfold disarm in Hturn. cbn [life set_view] in Hturn.
  destruct (Z.eqb_spec (life st) 0); [contradiction|]. simpl in Hturn.
  destruct (update e _) as [[st2 frame]|] eqn:Hupd; [|discriminate].
  simpl in Hturn. injection Hturn as _ <- _.
  destruct (update_keeps _ _ _ _ Hupd) as (Hlife2 & Hscratch2 & _).
  destruct (update_inv _ _ _ _ Hupd) as (tw & th & s & _ & Hs & -> & _).
  assert (Hstale : stale (set_life (set_view st off col) 0 None (-1)) tw th
                   = true).
  { unfold stale. cbn [buffer_offset offset set_life set_view].
    destruct (Z.eqb_spec (-1) off); [congruence|].
    simpl. rewrite !orb_true_r. reflexivity. }
  rewrite Hstale in Hs.
  destruct (fetch_buffer e (set_life (set_view st off col) 0 None (-1))
              tw th s Hlen Hs) as [Hbuf _].
  destruct (fetch_inv _ _ _ _ _ Hs) as (_ & _ & _ & _ & _ & _ & _ & _ & Hlog & _).
  simpl in *. auto.
Qed.

Lemma key_ends_life_witness :
  exists st' out,
    iteration (numbered_file 100 80 1) (living 8 80 1 [0; 16; 0] 100)
      (ReadBytes [106]) = Ok (Continue, st', out)
    /\ life st' = 0 /\ life_buffer st' = None
    /\ buffer st' = [1; 2; 3].
Proof.
  assert (Hrun : {r : state * shown |
                  iteration (numbered_file 100 80 1)
                    (living 8 80 1 [0; 16; 0] 100) (ReadBytes [106])
                  = Ok (Continue, r.1, r.2)}).
  { eexists (_, _). vm_compute. reflexivity. }
  destruct Hrun as [[st' out] Hturn]. cbn [fst snd] in Hturn.
  exists st', out. split; [exact Hturn|].
  destruct (key_ends_life (numbered_file 100 80 1)
              (living 8 80 1 [0; 16; 0] 100) [106]
              (set_view (living 8 80 1 [0; 16; 0] 100) 1 0)
              Continue st' out) as (Hlife & Hscratch & Hbuf & _);
    [discriminate | reflexivity | reflexivity | discriminate | exact Hturn |].
  split; [exact Hlife|]. split; [exact Hscratch|].
  rewrite Hbuf. vm_compute in Hturn. injection Hturn as <- _. reflexivity.
Defined.

(** ** stream *)

Lemma six_bits_range st buf x y :
  allocated st buf -> 0 <= six_bits (cell st buf) x y <= 63.
Proof.
  intros Halloc. unfold six_bits.
  pose proof (cell_bit st buf x y Halloc).
  pose proof (cell_bit st buf (x + 1) y Halloc).
  pose proof (cell_bit st buf x (y + 1) Halloc).
  pose proof (cell_bit st buf (x + 1) (y + 1) Halloc).
  pose proof (cell_bit st buf x (y + 2) Halloc).
  pose proof (cell_bit st buf (x + 1) (y + 2) Halloc).
  lia.
Qed.

(** The index of a streamed character is the number its six bits spell. *)
Lemma stream_index_six_bits st buf char_x :
  allocated st buf -> 0 <= char_x < 2 ^ 30 ->
  stream_index st buf char_x = Ok (six_bits (cell st buf) (2 * char_x) 0).
Proof.
  intros Halloc Hx. unfold stream_index, six_bits. rewrite !Z.add_0_l.
  rewrite (to_int_small (2 * char_x)) by (unfold is_int; lia).
  rewrite (to_int_small (2 * char_x + 1)) by (unfold is_int; lia).
  rewrite !(getbit_cell st buf) by assumption. simpl.
  pose proof (cell_bit st buf (2 * char_x) 0 Halloc).
  pose proof (cell_bit st buf (2 * char_x + 1) 0 Halloc).
  pose proof (cell_bit st buf (2 * char_x) 1 Halloc).
  pose proof (cell_bit st buf (2 * char_x + 1) 1 Halloc).
  pose proof (cell_bit st buf (2 * char_x) 2 Halloc).
  pose proof (cell_bit st buf (2 * char_x + 1) 2 Halloc).
  set (c1 := cell st buf (2 * char_x) 0) in *.
  set (c2 := cell st buf (2 * char_x + 1) 0) in *.
  set (c3 := cell st buf (2 * char_x) 1) in *.
  set (c4 := cell st buf (2 * char_x + 1) 1) in *.
  set (c5 := cell st buf (2 * char_x) 2) in *.
  set (c6 := cell st buf (2 * char_x + 1) 2) in *.
  rewrite (push_bit_value 0 c1) by (lia || assumption).
  rewrite (push_bit_value _ c2) by (lia || assumption).
  rewrite (push_bit_value _ c3) by (lia || assumption).
  rewrite (push_bit_value _ c4) by (lia || assumption).
  rewrite (push_bit_value _ c5) by (lia || assumption).
  rewrite (push_bit_value _ c6) by (lia || assumption).
  f_equal. lia.
Qed.

Lemma stream_cell_glyph st buf char_x :
  allocated st buf -> 0 <= char_x < 2 ^ 30 ->
  exists c,
    stream_cell st buf char_x = Ok c
    /\ sextant_chars !! Z.to_nat (six_bits (cell st buf) (2 * char_x) 0)
       = Some c.
Proof.
  intros Halloc Hx. unfold stream_cell.
  rewrite stream_index_six_bits by assumption. simpl.
  destruct (glyph_in_table _ (six_bits_range st buf (2 * char_x) 0 Halloc))
    as [c [Hg Hc]].
  exists c. auto.
Qed.

(** [getbit] reads three of the globals. *)
Lemma getbit_fields st1 st2 buf x y :
  reverse_byte st1 = reverse_byte st2 -> buffer_width st1 = buffer_width st2 ->
  buffer_size st1 = buffer_size st2 ->
  getbit st1 buf x y = getbit st2 buf x y.
Proof.
  intros Hr Hw Hs. unfold getbit, bit_index, byte_shift.
  rewrite Hr, Hw, Hs. reflexivity.
Qed.

Lemma mapM_fmap {A B : Type} (f : A -> result B) (g : A -> B) (l : list A) :
  (forall x, x ∈ l -> f x = Ok (g x)) -> mapM f l = Ok (g <$> l).
Proof.
  induction l as [|x l IH]; intros Hf; simpl; [reflexivity|].
  rewrite (Hf x) by left. simpl.
  rewrite IH by (intros z Hz; apply Hf; right; exact Hz). reflexivity.
Qed.

(** The line [stream] prints for the bytes it has just read. *)
Lemma stream_cells st chunk width :
  buffer_width st = width -> buffer_size st = Z.of_nat (length chunk) ->
  0 <= width <= INT_MAX ->
  mapM (stream_cell st chunk) (seqZ 0 (width / 2))
  = Ok (line_of (reverse_byte st) width chunk).
Proof.
  intros Hw Hs Hrange. unfold line_of. apply mapM_fmap.
  intros char_x Hx. apply elem_of_seqZ in Hx.
  assert (Halloc : allocated st chunk) by (unfold allocated; lia).
  assert (Hcx : 0 <= char_x < 2 ^ 30)
    by (unfold INT_MAX in Hrange; Z.div_mod_to_equations; lia).
  destruct (stream_cell_glyph st chunk char_x Halloc Hcx) as [c [Hc Hglyph]].
  rewrite Hc. f_equal.
  assert (Hsame : six_bits (cell (showing (reverse_byte st) width chunk) chunk)
                    (2 * char_x) 0
                  = six_bits (cell st chunk) (2 * char_x) 0).
  { unfold six_bits, cell.
    rewrite !(getbit_fields (showing (reverse_byte st) width chunk) st)
      by (simpl; congruence). reflexivity. }
  rewrite Hsame, Hglyph. reflexivity.
Qed.

Lemma stream_size width :
  0 < width <= INT_MAX -> width mod 8 = 0 ->
  0 < width / 8 * 3 < 2 ^ 31.
Proof. unfold INT_MAX. intros Hw Hmult. Z.div_mod_to_equations. lia. Qed.

Lemma settle_width_multiple st term_w :
  settle_width st term_w mod 8 = 0.
Proof.
  unfold settle_width.
  set (w := if buffer_width st =? 0 then to_size (to_int (term_w * 2))
            else buffer_width st).
  destruct (Z.eqb_spec (w mod 8) 0) as [Hz|Hnz]; simpl; [exact Hz|].
  Z.div_mod_to_equations. lia.
Qed.

(** The [realloc] of a turn that asks for bytes. *)
Lemma stream_realloc e held st size :
  realloc_ok e = true -> 0 < size ->
  exists tmp,
    (if held && (size =? 0) then Abort DoubleFree
     else
       match realloc e (buffer st) size with
       | Some tmp => Ok tmp
       | None =>
           _ ← free_stale (buffer st) size;
           Abort (Exited (-1) "Memory allocation error")
       end) = Ok tmp
    /\ Z.of_nat (length tmp) = size.
Proof.
  intros Hre Hsize. unfold realloc.
  destruct (Z.eqb_spec size 0); [lia|].
  rewrite andb_false_r, Hre. simpl. eexists. split; [reflexivity|].
  rewrite length_app, length_take, length_replicate. lia.
Qed.

(** A turn whose read comes up short, or fails. *)
Lemma stream_line_short e held st stdin k term_w term_h :
  term e = Some (term_w, term_h) -> realloc_ok e = true ->
  0 < settle_width st term_w <= INT_MAX ->
  full (settle_width st term_w / 8 * 3) k stdin = false ->
  stream_line e held st stdin k = Ok None.
Proof.
  intros Hterm Hre Hw Hshort.
  pose proof (stream_size _ Hw (settle_width_multiple st term_w)) as Hsize.
  unfold stream_line, term_size. rewrite Hterm. simpl.
  set (size := settle_width st term_w / 8 * 3) in *.
  rewrite (to_size_small size) by lia.
  destruct (stream_realloc e held st size Hre ltac:(lia)) as (tmp & -> & Htmp).
  simpl. rewrite (to_off_small size) by (unfold is_off; lia).
  destruct k as [|ready]; unfold read_stdin.
  - assert (Hneg : (-1 =? size) = false) by (apply Z.eqb_neq; lia).
    rewrite Hneg. reflexivity.
  - rewrite length_take.
    destruct (Z.eqb_spec
                (Z.of_nat ((Z.to_nat size `min` ready) `min` length stdin)) size)
      as [Hall|]; [|reflexivity].
    simpl in Hshort. apply andb_false_iff in Hshort as [Hr | Hl].
    + apply Z.leb_gt in Hr. lia.
    + apply Z.leb_gt in Hl. lia.
Qed.

(** A turn whose read returns all the bytes asked for. *)
Lemma stream_line_full e held st stdin k term_w term_h :
  term e = Some (term_w, term_h) -> realloc_ok e = true ->
  0 < settle_width st term_w <= INT_MAX ->
  let width := settle_width st term_w in
  let size := width / 8 * 3 in
  full size k stdin = true ->
  stream_line e held st stdin k
  = Ok (Some (set_window st (take (Z.to_nat size) stdin) size width,
              line_of (reverse_byte st) width (take (Z.to_nat size) stdin),
              drop (Z.to_nat size) stdin)).
Proof.
  intros Hterm Hre Hw width size Hfull.
  pose proof (stream_size _ Hw (settle_width_multiple st term_w)) as Hsize.
  fold width in Hw, Hsize. fold size in Hsize.
  unfold stream_line, term_size. rewrite Hterm. simpl.
  fold width. fold size.
  rewrite (to_size_small size) by lia.
  destruct (stream_realloc e held st size Hre ltac:(lia)) as (tmp & -> & Htmp).
  simpl. rewrite (to_off_small size) by (unfold is_off; lia).
  destruct k as [|ready]; [discriminate|]. simpl in Hfull.
  apply andb_true_iff in Hfull as [Hready Hleft].
  apply Z.leb_le in Hready, Hleft.
  unfold read_stdin.
  replace (Z.to_nat size `min` ready)%nat with (Z.to_nat size) by lia.
  assert (Hdata : Z.of_nat (length (take (Z.to_nat size) stdin)) = size)
    by (rewrite length_take; lia).
  rewrite Hdata, Z.eqb_refl. simpl.
  rewrite (drop_ge tmp) by lia. rewrite app_nil_r.
  assert (Hnat : length (take (Z.to_nat size) stdin) = Z.to_nat size) by lia.
  rewrite Hnat.
  rewrite (to_int_small (width / 2))
    by (unfold is_int, INT_MAX in *; Z.div_mod_to_equations; lia).
  rewrite (stream_cells _ (take (Z.to_nat size) stdin) width);
    [reflexivity | reflexivity | simpl; lia | lia].
Qed.

Lemma line_of_length reverse width chunk :
  0 <= width -> Z.of_nat (length (line_of reverse width chunk)) = width / 2.
Proof.
  intros Hw. unfold line_of. rewrite length_fmap, length_seqZ.
  Z.div_mod_to_equations. lia.
Qed.



Lemma settle_width_set st term_w :
  buffer_width st <> 0 -> buffer_width st mod 8 = 0 ->
  settle_width st term_w = buffer_width st.
Proof.
  intros Hset Hmult. unfold settle_width.
  destruct (Z.eqb_spec (buffer_width st) 0); [contradiction|].
  rewrite Hmult. reflexivity.
Qed.

Lemma stream_loop_lines turns : forall held st stdin,
  Forall answers turns.*1 ->
  0 < buffer_width st <= INT_MAX -> buffer_width st mod 8 = 0 ->
  stream_loop held turns st stdin
  = Ok (line_of (reverse_byte st) (buffer_width st)
          <$> chunks (lines_read (buffer_width st / 8 * 3) turns.*2 stdin)
                     (buffer_width st / 8 * 3) stdin,
        bool_decide (lines_read (buffer_width st / 8 * 3) turns.*2 stdin
                     < length turns)%nat).
Proof.
  induction turns as [|[e k] turns IH]; intros held st stdin Hturns Hw Hmult.
  - reflexivity.
  - apply Forall_cons in Hturns as [[(tw & th & Hterm) Hre] Hturns].
    simpl in Hterm, Hre.
    pose proof (settle_width_set st tw ltac:(lia) Hmult) as Hsettle.
    cbn [stream_loop fmap list_fmap lines_read fst snd length].
    destruct (full (buffer_width st / 8 * 3) k stdin) eqn:Hfull.
    + pose proof (stream_line_full e held st stdin k tw th Hterm Hre
                    ltac:(rewrite Hsettle; exact Hw)) as Hline.
      simpl in Hline. rewrite Hsettle in Hline. rewrite (Hline Hfull).
      simpl. rewrite IH by assumption. simpl.
      do 2 f_equal. apply bool_decide_ext. lia.
    + rewrite (stream_line_short e held st stdin k tw th Hterm Hre
                 ltac:(rewrite Hsettle; exact Hw)
                 ltac:(rewrite Hsettle; exact Hfull)).
      reflexivity.
Qed.



(** ** main *)

Lemma digit_value_nonneg c d : Libc.digit_value c = Some d -> 0 <= d.
Proof.
  unfold Libc.digit_value.
  destruct (Z.leb_spec 48 (Libc.code c)), (Z.leb_spec (Libc.code c) 57);
    simpl; try (intros [= <-]; lia);
  destruct (Z.leb_spec 97 (Libc.code c)), (Z.leb_spec (Libc.code c) 122);
    simpl; try (intros [= <-]; lia);
  destruct (Z.leb_spec 65 (Libc.code c)), (Z.leb_spec (Libc.code c) 90);
    simpl; try (intros [= <-]; lia); discriminate.
Qed.

Lemma digits_nonneg base s : forall acc,
  0 <= base -> 0 <= acc -> 0 <= Libc.digits base s acc.
Proof.
  induction s as [|c s IH]; intros acc Hbase Hacc; simpl; [assumption|].
  destruct (Libc.digit_value c) as [d|] eqn:Hd; [|assumption].
  apply digit_value_nonneg in Hd.
  destruct (d <? base); [|assumption]. apply IH; nia.
Qed.

Lemma strtoul_range s v errno :
  Libc.strtoul s = (v, errno) -> 0 <= v < 2 ^ 64.
Proof.
  unfold Libc.strtoul.
  destruct (match Libc.skip_space (String.list_ascii_of_string s) with
            | [] => _ | _ => _ end) as [negative rest].
  assert (Hv : 0 <= Libc.unsigned_value rest).
  { unfold Libc.unsigned_value.
    repeat match goal with
    | |- context [match ?l with [] => _ | _ :: _ => _ end] => destruct l
    | |- context [match ?a with Ascii _ _ _ _ _ _ _ _ => _ end] => destruct a
    | |- context [if ?b then _ else _] => destruct b
    end; apply digits_nonneg; lia. }
  unfold Libc.ULONG_MAX.
  destruct (Z.ltb_spec (2 ^ 64 - 1) (Libc.unsigned_value rest)).
  - intros [= <- _]. lia.
  - destruct negative; intros [= <- _]; [apply to_size_range|lia].
Qed.

Ltac still_startable :=
  unfold startable, is_size, is_int in *; simpl;
  repeat split; try tauto; try lia; auto.

Ltac carry H :=
  let Hst' := fresh "Hst'" in let Herr' := fresh "Herr'" in
  let Hsame := fresh "Hsame" in let Hneg := fresh "Hneg" in
  let Hfd := fresh "Hfd" in let path := fresh "path" in
  let Hin := fresh "Hin" in let Hopen := fresh "Hopen" in
  destruct H as (Hst' & Herr' & [Hsame | (Hneg & Hfd & path & Hin & Hopen)]);
  [ split; [assumption|]; split; [assumption|]; left; exact Hsame
  | split; [assumption|]; split; [assumption|]; right;
    split; [exact Hneg|]; split; [assumption|];
    exists path; split; [right; exact Hin | exact Hopen] ].

(** What the argument loop keeps true of the globals, and how it ends. *)
Lemma main_loop_started open_size cmd args : forall st stderr st' stderr',
  startable st -> stderr = [] ->
  main_loop open_size cmd args st stderr = Run st' stderr'
  \/ main_loop open_size cmd args st stderr = Stream st' stderr' ->
  startable st' /\ stderr' = []
  /\ (fd st' = fd st /\ fd_size st' = fd_size st
      \/ fd st < 0 /\ fd st' = 3
         /\ exists path, path ∈ args
                         /\ open_size path = Some (Some (fd_size st'))).
Proof.
  induction args as [|arg rest IH]; intros st stderr st' stderr' Hst Herr.
  - simpl. destruct (fd st <? 0); intros [[= <- <-]|[= <- <-]]; auto.
  - pose proof Hst as (Hmult & Hw & Hoff & Hdelay & Hrev & Hrest).
    cbn [main_loop]. unfold usage.
    destruct (String.eqb arg "-h"); [intros [H|H]; discriminate H|].
    destruct (String.eqb arg "-r").
    { intros H. apply IH in H; [|still_startable|assumption].
      carry H. }
    destruct (String.prefix "-w" arg).
    { destruct (Libc.strtoul (option_value arg)) as [width errno] eqn:Hparse.
      destruct errno; [intros [H|H]; discriminate H|].
      destruct (Z.eqb_spec (width mod 8) 0) as [Hm|];
        [|intros [H|H]; discriminate H].
      simpl. intros H. pose proof (strtoul_range _ _ _ Hparse) as Hrange.
      apply IH in H; [|still_startable|assumption].
      carry H. }
    destruct (String.prefix "-o" arg).
    { destruct (Libc.strtoul (option_value arg)) as [value errno] eqn:Hparse.
      destruct errno; [intros [H|H]; discriminate H|].
      destruct (Z.ltb_spec (to_off value) 0) as [Hlt|Hge];
        [intros [H|H]; discriminate H|].
      intros H.
      assert (Hrange : to_off value < 2 ^ 63).
      { unfold to_off.
        pose proof (Z.mod_pos_bound (value + 2 ^ 63) (2 ^ 64)). lia. }
      apply IH in H; [|still_startable|assumption].
      carry H. }
    destruct (String.prefix "-d" arg).
    { destruct (Libc.strtoul (option_value arg)) as [value errno] eqn:Hparse.
      destruct errno; [intros [H|H]; discriminate H|].
      intros H. pose proof (to_int_range value) as Hrange.
      apply IH in H; [|still_startable|assumption].
      carry H. }
    destruct (Z.ltb_spec (fd st) 0) as [Hneg|Hpos];
      [|intros [H|H]; discriminate H].
    destruct (open_size arg) as [[size|]|] eqn:Hopen;
      try (intros [H|H]; discriminate H).
    intros H. apply IH in H; [|still_startable|assumption].
    destruct H as (Hst' & Herr' & [[Hfd Hsize] | (Hneg' & _)]).
    + simpl in Hfd, Hsize. split; [assumption|]. split; [assumption|]. right.
      split; [assumption|]. split; [assumption|].
      exists arg. split; [left|]. rewrite Hsize. exact Hopen.
    + simpl in Hneg'. lia.
Qed.

(** The viewer is chosen by the sign of [fd]. *)
Lemma main_loop_mode open_size cmd args : forall st stderr st' stderr',
  (main_loop open_size cmd args st stderr = Run st' stderr' -> 0 <= fd st')
  /\ (main_loop open_size cmd args st stderr = Stream st' stderr' -> fd st' < 0).
Proof.
  induction args as [|arg rest IH]; intros st stderr st' stderr';
    cbn [main_loop].
  - destruct (Z.ltb_spec (fd st) 0); split; intros [= <- _]; assumption.
  - unfold usage.
    repeat match goal with
    | |- context [if ?c then _ else _] => destruct c
    | |- context [let '(_, _) := ?p in _] => destruct p
    | |- context [match ?o with Some _ => _ | None => _ end] => destruct o
    end; try apply IH; split; discriminate.
Qed.

(** X19: when [main] gets as far as a viewer, nothing was written to the
    error stream, the width is a multiple of 8, the offset is not
    negative and every other global is as initialised. It is [run] with
    the file's descriptor and size exactly when some argument was taken as
    the path, and [stream] with no file otherwise. *)
Theorem main_started open_size argv st stderr :
  (main open_size argv = Run st stderr ->
   startable st /\ stderr = [] /\ fd st = 3
   /\ exists path, path ∈ argv /\ open_size path = Some (Some (fd_size st)))
  /\ (main open_size argv = Stream st stderr ->
      startable st /\ stderr = [] /\ fd st = -1 /\ fd_size st = 0).
Proof.
  assert (Hinit : startable initial).
  { unfold startable, is_size, is_int. simpl. repeat split; auto; lia. }
  destruct argv as [|cmd args]; simpl.
  - split; [discriminate|]. intros [= <- <-]. auto.
  - split; intros H.
    + pose proof (proj1 (main_loop_mode open_size cmd args initial [] st stderr) H)
        as Hfd.
      destruct (main_loop_started open_size cmd args initial [] st stderr
                  Hinit eq_refl (or_introl H))
        as (Hst & Herr & [[Hsame _] | (_ & Hopened & path & Hin & Hopen)]).
      * simpl in Hsame. lia.
      * split; [assumption|]. split; [assumption|]. split; [assumption|].
        exists path. split; [right; exact Hin | exact Hopen].
    + pose proof (proj2 (main_loop_mode open_size cmd args initial [] st stderr) H)
        as Hfd.
      destruct (main_loop_started open_size cmd args initial [] st stderr
                  Hinit eq_refl (or_intror H))
        as (Hst & Herr & [[Hsame Hsize] | (_ & Hopened & _)]); [|lia].
      simpl in Hsame, Hsize. auto.
Qed.

Lemma main_started_witness :
  startable (set_args initial 1 16 12 250 3 100)
  /\ exists path, path ∈ ["bitraster"; "-r"; "-w0x10"; "data.bin"; "-o12"]%string
                  /\ (fun p => if String.eqb p "data.bin" then Some (Some 100)
                                else None) path = Some (Some 100).
Proof.
  destruct (main_started
              (fun p => if String.eqb p "data.bin" then Some (Some 100) else None)
              ["bitraster"; "-r"; "-w0x10"; "data.bin"; "-o12"]%string
              (set_args initial 1 16 12 250 3 100) []) as [Hrun _].
  destruct (Hrun eq_refl) as (Hst & _ & _ & Hpath).
  split; [exact Hst | exact Hpath].
Defined.

(** ** The first draw *)

Lemma window_size_exact st width term_h :
  1 <= term_h <= 65535 -> 0 <= width <= INT_MAX -> width mod 8 = 0 ->
  0 <= fd_size st < 2 ^ 62 ->
  window_size st width term_h = Z.min (term_h * 3 * width / 8) (fd_size st).
Proof.
  intros Hth Hw Hmult Hfd. unfold window_size, INT_MAX in *.
  rewrite (to_int_small (term_h * 3)) by (unfold is_int; lia).
  rewrite (to_size_small (term_h * 3)) by lia.
  rewrite (to_size_small (term_h * 3 * width)) by nia.
  rewrite (to_size_small (fd_size st)) by lia.
  assert (Hn : (term_h * 3 * width) mod 8 = 0).
  { rewrite (multiple_of_8 _ Hmult).
    replace (term_h * 3 * (8 * (width / 8)))
      with (term_h * 3 * (width / 8) * 8) by lia.
    apply Z.mod_mul. lia. }
  rewrite Hn. simpl.
  destruct (Z.ltb_spec (fd_size st) (term_h * 3 * width / 8)); lia.
Qed.

Lemma settle_width_exact st term_w :
  1 <= term_w <= 65535 -> buffer_width st mod 8 = 0 ->
  settle_width st term_w = settled (buffer_width st) term_w.
Proof.
  intros Htw Hmult. unfold settle_width, settled.
  destruct (Z.eqb_spec (buffer_width st) 0) as [Hunset|Hset].
  - rewrite (to_int_small (term_w * 2)) by (unfold is_int; lia).
    rewrite (to_size_small (term_w * 2)) by lia.
    replace (term_w * 2) with (2 * term_w) by lia.
    destruct (Z.eqb_spec ((2 * term_w) mod 8) 0) as [Hz|Hnz]; simpl; lia.
  - rewrite Hmult. reflexivity.
Qed.

Lemma settled_shape width term_w :
  1 <= term_w <= 65535 -> 0 <= width <= INT_MAX -> width mod 8 = 0 ->
  0 <= settled width term_w <= INT_MAX /\ settled width term_w mod 8 = 0
  /\ (settled width term_w = 0 -> term_w < 4).
Proof.
  intros Htw Hw Hmult. unfold settled, INT_MAX in *.
  destruct (Z.eqb_spec width 0) as [Hunset|Hset].
  - repeat split; Z.div_mod_to_equations; lia.
  - repeat split; try lia.
Qed.

Lemma first_draw e st term_w term_h :
  startable st ->
  term e = Some (term_w, term_h) ->
  1 <= term_w <= 65535 -> 1 <= term_h <= 65535 ->
  realloc_ok e = true ->
  Z.of_nat (length (file e)) = fd_size st -> 0 <= fd_size st < 2 ^ 62 ->
  buffer_width st <= INT_MAX ->
  exists st' frame,
    update e st = Ok (st', frame)
    /\ browsing e st' term_w term_h
    /\ buffer_width st' = settled (buffer_width st) term_w
    /\ offset st' = Z.min (offset st) (fd_size st - buffer_size st')
    /\ col_offset st' = 0
    /\ fd_size st' = fd_size st
    /\ reverse_byte st' = reverse_byte st /\ delay_ms st' = delay_ms st.
Proof.
  intros (Hmult & Hw & Hoff & Hdelay & Hrev & Hbuf & Hsize & Hcache & Hlw & Hlh
          & Hcol & Hlife & Hscratch & Hlog) Hterm Htw Hth Hre Hfile Hfd Hmax.
  pose proof (settle_width_exact st term_w Htw Hmult) as Hsettle.
  destruct (settled_shape (buffer_width st) term_w Htw
              ltac:(unfold is_size in Hw; lia) Hmult) as (HW & HWmult & HWzero).
  set (W := settled (buffer_width st) term_w) in *.
  pose proof (window_size_exact st W term_h Hth HW HWmult Hfd) as Hwindow.
  set (S := Z.min (term_h * 3 * W / 8) (fd_size st)) in *.
  assert (HS : 0 <= S <= fd_size st).
  { unfold S, INT_MAX in *.
    assert (0 <= term_h * 3 * W / 8) by (apply Z.div_pos; nia). lia. }
  assert (Hbufs : exists buf,
    (if negb (S =? buffer_size st) then
       match realloc e (buffer st) S with
       | Some tmp => Ok (tmp, S)
       | None =>
           _ ← free_stale (buffer st) S;
           ERROR "Memory allocation error"
       end
     else Ok (buffer st, buffer_size st)) = Ok (buf, S)
    /\ Z.of_nat (length buf) = S).
  { destruct (Z.eqb_spec S (buffer_size st)) as [Hsame|Hdiff]; simpl.
    - exists (buffer st). split; [congruence|].
      rewrite Hbuf, Hsame, Hsize. reflexivity.
    - destruct (realloc e (buffer st) S) as [tmp|] eqn:Htmp.
      + exists tmp. split; [reflexivity|].
        apply (realloc_length e (buffer st) S tmp); [lia|exact Htmp].
      + unfold realloc in Htmp. rewrite Hbuf, Hre, andb_false_r in Htmp.
        discriminate. }
  destruct Hbufs as (buf & Hbufs & Hlen).
  assert (Hclamp : clamp_offset st S = Z.min (offset st) (fd_size st - S)).
  { rewrite clamp_offset_spec; [ | lia | unfold is_off; lia | lia ].
    destruct (Z.ltb_spec (offset st) (- S)); lia. }
  assert (Hread : Z.of_nat (length (read_file e (clamp_offset st S) S)) = S).
  { apply read_file_length; rewrite ?Hclamp; lia. }
  set (st1 :=
    {| reverse_byte := reverse_byte st; fd := fd st;
       offset := clamp_offset st S; fd_size := fd_size st;
       buffer := read_file e (clamp_offset st S) S
                 ++ drop (length (read_file e (clamp_offset st S) S)) buf;
       buffer_size := S; buffer_offset := clamp_offset st S;
       buffer_width := W; last_term_w := term_w; last_term_h := term_h;
       col_offset := col_offset st; delay_ms := delay_ms st;
       life := life st; life_buffer := life_buffer st;
       io_log := Read S :: Seek (clamp_offset st S) :: io_log st |}).
  assert (Hfetch : fetch e st term_w term_h = Ok st1).
  { unfold fetch. rewrite Hsettle, Hwindow. fold W S. rewrite Hbufs. simpl.
    destruct (Z.ltb_spec (clamp_offset st S) 0); [lia|].
    rewrite Hread, (to_off_small S) by (unfold is_off; lia).
    rewrite Z.eqb_refl. reflexivity. }
  assert (Hclampc : clamp_col st1 term_w = 0).
  { rewrite (browsing_clamp_col st1 term_w 0); simpl; try assumption.
    - unfold clamped. lia.
    - lia. }
  destruct (render_total (set_col_offset st1 (clamp_col st1 term_w)) term_h
              (if term_w <? to_int (buffer_width st1 / 2) then term_w
               else to_int (buffer_width st1 / 2))) as [frame Hr].
  { unfold allocated. simpl. rewrite length_app, length_drop. lia. }
  exists (set_col_offset st1 (clamp_col st1 term_w)), frame.
  split.
  - unfold update, term_size. rewrite Hterm. simpl.
    assert (Hstale : stale st term_w term_h = true).
    { unfold stale. rewrite Hcache.
      destruct (Z.eqb_spec (-1) (offset st)); [lia|].
      simpl. apply orb_true_r. }
    rewrite Hstale, Hfetch. simpl. simpl in Hr. rewrite Hr. reflexivity.
  - rewrite Hclampc. simpl. rewrite Hclamp.
    split; [|repeat split; reflexivity].
    unfold browsing. simpl.
    repeat split; try assumption; try reflexivity; try lia.
    rewrite length_app, length_drop. lia.
Qed.



(** ** A session of [run] *)

(** Setting a flag and clearing it again, and the converse, bit by bit. *)
Lemma set_then_clear flags mask :
  Z.land (Z.lor flags mask) (Z.lnot mask) = Z.land flags (Z.lnot mask).
Proof.
  apply Z.bits_inj'. intros n Hn.
  rewrite !Z.land_spec, Z.lor_spec, Z.lnot_spec by exact Hn.
  destruct (Z.testbit flags n), (Z.testbit mask n); reflexivity.
Qed.

Lemma clear_then_set flags m1 m2 :
  Z.lor (Z.lor (Z.land (Z.land flags (Z.lnot m1)) (Z.lnot m2)) m1) m2
  = Z.lor flags (Z.lor m1 m2).
Proof.
  apply Z.bits_inj'. intros n Hn.
  rewrite !Z.lor_spec, !Z.land_spec, !Z.lnot_spec by exact Hn.
  destruct (Z.testbit flags n), (Z.testbit m1 n), (Z.testbit m2 n); reflexivity.
Qed.

(** A turn that does not arm life mode, from a browsing viewer. *)
Lemma calm_turn e st term_w term_h r :
  browsing e st term_w term_h -> arms r = false ->
  exists ctl st' out,
    iteration e st r = Ok (ctl, st', out) /\ browsing e st' term_w term_h.
Proof.
  intros Hb Hcalm. destruct r as [eagain|input].
  - pose proof Hb as (_ & _ & _ & _ & _ & Hlife & _).
    unfold iteration. rewrite Hlife.
    destruct eagain; simpl; eexists _, st, Quiet; split; (reflexivity || assumption).
  - destruct (turn_in_bounds e st term_w term_h input Hb)
      as (ctl & st' & out & Hturn & _ & _ & _ & Hb').
    exists ctl, st', out. split; [exact Hturn | exact (Hb' Hcalm)].
Qed.

Lemma run_loop_browsing e term_w term_h turns : forall st,
  browsing e st term_w term_h ->
  Forall (fun turn => turn.1 = e /\ arms turn.2 = false) turns ->
  exists st' outs gone,
    run_loop turns st = Ok (st', outs, gone)
    /\ browsing e st' term_w term_h
    /\ (length outs <= length turns)%nat
    /\ (gone = false -> length outs = length turns).
Proof.
  induction turns as [|[e' r] turns IH]; intros st Hb Hcalm.
  - exists st, [], false. simpl. auto.
  - apply Forall_cons in Hcalm as [[He Hr] Hrest]. simpl in He, Hr. subst e'.
    destruct (calm_turn e st term_w term_h r Hb Hr)
      as (ctl & st1 & out & Hturn & Hb1).
    cbn [run_loop]. rewrite Hturn. simpl. destruct ctl.
    + exists st1, [out], true. simpl.
      split; [reflexivity|]. split; [assumption|]. split; [lia|discriminate].
    + destruct (IH st1 Hb1 Hrest) as (st' & outs & gone & Hrun & Hb' & Hle & Hall).
      rewrite Hrun. simpl. exists st', (out :: outs), gone. simpl.
      split; [reflexivity|]. split; [assumption|]. split; [lia|].
      intros Hgone. rewrite (Hall Hgone). reflexivity.
Qed.



(** ** The terminal mode *)

Lemma land_lor_same flags mask : Z.land (Z.lor flags mask) mask = mask.
Proof.
  apply Z.bits_inj'. intros n Hn. rewrite Z.land_spec, Z.lor_spec.
  destruct (Z.testbit flags n), (Z.testbit mask n); reflexivity.
Qed.

Lemma land_cleared flags mask : Z.land (Z.land flags (Z.lnot mask)) mask = 0.
Proof.
  apply Z.bits_inj'. intros n Hn.
  rewrite !Z.land_spec, Z.lnot_spec, Z.bits_0 by exact Hn.
  destruct (Z.testbit flags n), (Z.testbit mask n); reflexivity.
Qed.

Lemma land_cleared_two flags m1 m2 :
  Z.land (Z.land (Z.land flags (Z.lnot m1)) (Z.lnot m2)) (Z.lor m1 m2) = 0.
Proof.
  apply Z.bits_inj'. intros n Hn.
  rewrite !Z.land_spec, !Z.lnot_spec, Z.lor_spec, Z.bits_0 by exact Hn.
  destruct (Z.testbit flags n), (Z.testbit m1 n), (Z.testbit m2 n); reflexivity.
Qed.

Lemma clear_unset flags mask :
  Z.land flags mask = 0 -> Z.land flags (Z.lnot mask) = flags.
Proof.
  intros Hunset. apply Z.bits_inj'. intros n Hn.
  pose proof (f_equal (fun z => Z.testbit z n) Hunset) as Hbit. simpl in Hbit.
  rewrite Z.land_spec, Z.bits_0 in Hbit.
  rewrite Z.land_spec, Z.lnot_spec by exact Hn.
  destruct (Z.testbit flags n), (Z.testbit mask n);
    try reflexivity; discriminate Hbit.
Qed.

Lemma set_present flags mask :
  Z.land flags mask = mask -> Z.lor flags mask = flags.
Proof.
  intros Hset. apply Z.bits_inj'. intros n Hn.
  pose proof (f_equal (fun z => Z.testbit z n) Hset) as Hbit. simpl in Hbit.
  rewrite Z.land_spec in Hbit. rewrite Z.lor_spec.
  destruct (Z.testbit flags n), (Z.testbit mask n);
    try reflexivity; discriminate Hbit.
Qed.

(** X22: on a terminal whose mode can be read and set, [term_setup]
    returns with standard input non-blocking and with canonical mode and
    echo off, and [term_reset] after it returns as well; the two together
    give back the mode they found exactly when standard input was blocking
    and the terminal canonical and echoing to begin with -- [term_reset]
    does not restore what [term_setup] found, it sets those three. *)
Theorem term_reset_after_setup O_NONBLOCK ICANON ECHO t :
  fcntl_ok t = true -> tcattr_ok t = true ->
  exists t1 t2,
    term_setup O_NONBLOCK ICANON ECHO t = Ok t1
    /\ term_reset O_NONBLOCK ICANON ECHO t1 = Ok t2
    /\ Z.land (fl_flags t1) O_NONBLOCK = O_NONBLOCK
    /\ Z.land (c_lflag t1) (Z.lor ICANON ECHO) = 0
    /\ fl_flags t2 = Z.land (fl_flags t) (Z.lnot O_NONBLOCK)
    /\ c_lflag t2 = Z.lor (c_lflag t) (Z.lor ICANON ECHO)
    /\ (t2 = t <->
        Z.land (fl_flags t) O_NONBLOCK = 0
        /\ Z.land (c_lflag t) (Z.lor ICANON ECHO) = Z.lor ICANON ECHO).
Proof.
  intros Hfcntl Htc. unfold term_setup, term_reset.
  rewrite Hfcntl, Htc. simpl. eexists _, _.
  split; [reflexivity|]. rewrite ?Hfcntl, ?Htc. simpl.
  split; [reflexivity|]. simpl.
  split; [apply land_lor_same|]. split; [apply land_cleared_two|].
  split; [apply set_then_clear|]. split; [apply clear_then_set|].
  rewrite set_then_clear, clear_then_set. split.
  - intros Heq.
    pose proof (f_equal fl_flags Heq) as Hfl.
    pose proof (f_equal c_lflag Heq) as Hc. simpl in Hfl, Hc. split.
    + rewrite <- Hfl. apply land_cleared.
    + rewrite <- Hc. apply land_lor_same.
  - intros [Hfl Hc]. rewrite (clear_unset _ _ Hfl), (set_present _ _ Hc).
    destruct t. simpl in *. subst. reflexivity.
Qed.

Lemma term_reset_after_setup_witness :
  exists t1 t2,
    term_setup 2048 2 8 (mkTty 2 35387 true true) = Ok t1
    /\ term_reset 2048 2 8 t1 = Ok t2
    /\ Z.land (fl_flags t1) 2048 = 2048
    /\ Z.land (c_lflag t1) (Z.lor 2 8) = 0
    /\ fl_flags t2 = Z.land 2 (Z.lnot 2048)
    /\ c_lflag t2 = Z.lor 35387 (Z.lor 2 8)
    /\ (t2 = mkTty 2 35387 true true <->
        Z.land 2 2048 = 0 /\ Z.land 35387 (Z.lor 2 8) = Z.lor 2 8).
Proof.
  apply (term_reset_after_setup 2048 2 8 (mkTty 2 35387 true true));
    reflexivity.
Defined.

(** ** usage *)

Lemma fold_no_slash base : forall acc,
  "/"%char ∉ base ->
  fold_left (fun acc c => if Ascii.eqb c "/" then [] else acc ++ [c]) base acc
  = acc ++ base.
Proof.
  induction base as [|c base IH]; intros acc Hno; simpl.
  - rewrite app_nil_r. reflexivity.
  - apply not_elem_of_cons in Hno as [Hc Hbase].
    destruct (Ascii.eqb_spec c "/") as [->|_]; [contradiction|].
    rewrite IH by exact Hbase. rewrite <- app_assoc. reflexivity.
Qed.

(** X23: the name [usage] prints is the command without its directories:
    what follows the last slash of [argv[0]], and all of it when there is
    no slash. *)
Theorem cmd_filename_basename dir base :
  "/"%char ∉ base ->
  cmd_filename (String.string_of_list_ascii (dir ++ "/"%char :: base))
  = String.string_of_list_ascii base
  /\ cmd_filename (String.string_of_list_ascii base)
     = String.string_of_list_ascii base.
Proof.
  intros Hno. unfold cmd_filename.
  rewrite !String.list_ascii_of_string_of_list_ascii. split.
  - rewrite fold_left_app. simpl. rewrite fold_no_slash by exact Hno.
    reflexivity.
  - rewrite fold_no_slash by exact Hno. reflexivity.
Qed.

Lemma cmd_filename_basename_witness :
  cmd_filename "/usr/local/bin/bitraster" = "bitraster"%string
  /\ cmd_filename "bitraster" = "bitraster"%string.
Proof.
  apply (cmd_filename_basename
           (String.list_ascii_of_string "/usr/local/bin")
           (String.list_ascii_of_string "bitraster")).
  intros Hin. repeat (apply elem_of_cons in Hin as [Hin|Hin]; [discriminate Hin|]).
  apply elem_of_nil in Hin. exact Hin.
Defined.

(** ** The ways out of main *)

Lemma usage_exit cmd stderr cause :
  usage cmd (stderr ++ cause) = Exit 0 (stderr ++ cause ++ usage_text cmd).
Proof. unfold usage_text, usage. simpl. rewrite <- app_assoc. reflexivity. Qed.

Lemma main_loop_exit open_size cmd args : forall st stderr status stderr',
  main_loop open_size cmd args st stderr = Exit status stderr' ->
  status = 0
  /\ exists cause, stderr' = stderr ++ cause ++ usage_text cmd
                   /\ (cause = [] \/ exists line, cause = [line; ""%string]).
Proof.
  induction args as [|arg rest IH]; intros st stderr status stderr';
    cbn [main_loop].
  - destruct (fd st <? 0); discriminate.
  - pose proof (usage_exit cmd stderr []) as Hplain.
    rewrite app_nil_r in Hplain.
    repeat match goal with
    | |- (if ?c then _ else _) = _ -> _ => destruct c
    | |- (let '(_, _) := ?p in _) = _ -> _ => destruct p
    | |- match ?o with Some _ => _ | None => _ end = _ -> _ => destruct o
    | |- main_loop _ _ _ _ _ = _ -> _ => apply IH
    | |- usage _ (_ ++ [?c; ?blank]) = _ -> _ =>
        rewrite usage_exit; intros [= <- <-]; split; [reflexivity|];
        exists [c; blank]; split; [reflexivity | right; exists c; reflexivity]
    | |- usage _ _ = _ -> _ =>
        rewrite Hplain; intros [= <- <-]; split; [reflexivity|];
        exists []; split; [reflexivity | left; reflexivity]
    end.
Qed.

(** X24: [main] has one way out before a viewer starts, and it reports
    success: whatever the arguments, an exit from the argument loop has
    status 0, and what it wrote to the error stream ends with the usage
    text for [argv[0]]; before it there is nothing ([-h], or a second
    path), or one line that names the cause and an empty line. *)
Theorem main_exit open_size argv status stderr :
  main open_size argv = Exit status stderr ->
  status = 0
  /\ exists cmd cause,
       argv !! 0%nat = Some cmd
       /\ stderr = cause ++ usage_text cmd
       /\ (cause = [] \/ exists line, cause = [line; ""%string]).
Proof.
  destruct argv as [|cmd args]; simpl; [discriminate|].
  intros Hexit.
  destruct (main_loop_exit open_size cmd args initial [] status stderr Hexit)
    as (Hstatus & cause & Herr & Hshape).
  split; [exact Hstatus|]. exists cmd, cause. auto.
Qed.

Lemma main_exit_witness :
  exists cmd cause,
    ["bin/bitraster"; "-r"; "-o-1"]%string !! 0%nat = Some cmd
    /\ ["Offset negative"; ""; "Usage:";
        "bitraster [-h] [-r] [-wWidth] [-oOffset] [-dDelayMS] [path]"; "";
        "  -w : Bit width of buffer (controls horizontal scroll)";
        "       Width must be a multple of 8 bits.";
        "  -o : Initial Byte offset into file";
        "  -d : Delay, in millisecons, or any automatic updates"; "";
        "If path is not provided, data is streamed from stdin, -w and -o are ignored"]%string
       = cause ++ usage_text cmd
    /\ (cause = [] \/ exists line, cause = [line; ""%string]).
Proof.
  apply (main_exit (fun _ => None) ["bin/bitraster"; "-r"; "-o-1"]%string 0).
  reflexivity.
Defined.

(** ** A terminal without rows *)

(** X25: when the terminal reports no rows after a window has been
    loaded, the refetch asks [realloc] for no bytes; the [realloc] of
    glibc releases the buffer and returns [NULL], and the error path of
    [update] frees the buffer a second time before it can report
    anything. *)
Theorem update_without_rows e st term_w :
  term e = Some (term_w, 0) ->
  last_term_h st <> 0 -> buffer_size st <> 0 -> buffer st <> [] ->
  update e st = Abort DoubleFree.
Proof.
  intros Hterm Hrows Hsize Hbuf. unfold update, term_size. rewrite Hterm. simpl.
  assert (Hstale : stale st term_w 0 = true).
  { unfold stale. destruct (Z.eqb_spec 0 (last_term_h st)); [congruence|].
    reflexivity. }
  rewrite Hstale. unfold fetch.
  assert (Hnone : window_size st (settle_width st term_w) 0 = 0).
  { unfold window_size. change (to_int (0 * 3)) with 0.
    change (to_size 0) with 0. rewrite Z.mul_0_l. change (to_size 0) with 0.
    change (0 mod 8 =? 0) with true. cbn [negb]. change (0 / 8) with 0.
    pose proof (to_size_range (fd_size st)).
    destruct (Z.ltb_spec (to_size (fd_size st)) 0); [lia|reflexivity]. }
  rewrite Hnone.
  destruct (Z.eqb_spec 0 (buffer_size st)); [congruence|]. simpl.
  unfold realloc, free_stale.
  destruct (buffer st); [contradiction|]. reflexivity.
Qed.

Lemma update_without_rows_witness :
  update {| term := Some (80, 0); realloc_ok := true; file := seqZ 0 100 |}
    sample_view
  = Abort DoubleFree.
Proof.
  apply (update_without_rows
           {| term := Some (80, 0); realloc_ok := true; file := seqZ 0 100 |}
           sample_view 80); [reflexivity | | | ]; discriminate.
Defined.
